(** * sms-automation: the message dispatch engine

    A shallow embedding of the retry queue ([QueueService]), the browser
    driver's send/verify step ([OpenPhoneService]), the audit sink
    ([SupabaseService]), the notifier ([N8nWebhookService]), the media
    validator ([utils/helpers.ts]) and the ingress handler ([server/app.ts]).

    Conventions.
    - An [async] method becomes a computation in the monad [M]: it appends to
      a trace of externally visible events and either returns a value or
      throws a [JsError].  [await] is sequencing.
    - Everything the process cannot decide by itself (the browser, the
      database, the HTTP peer, the file system, the clock, [Math.random],
      SHA-256) is read from a [World] of oracles.
    - Calls to [logger] are left out: they neither throw nor influence control
      flow.
    - JavaScript strings are modelled as ASCII [string]s; [undefined] and the
      empty string are both falsy, so an optional string that is only tested
      for truthiness is a plain [string]. *)

From Stdlib Require Import ZArith List String Ascii Bool Lia.
From Stdlib Require Import DecimalString.
Import ListNotations.

Open Scope Z_scope.

Notation "s +++ t" := (String.append s t) (at level 60, right associativity).

(** ** JavaScript values *)

Module Js.

(** An [Error] object: only [name] and [message] are ever read. *)
Record JsError : Type := mkJsError { err_name : string; err_message : string }.

(** [new Error(msg)]. *)
Definition newError (msg : string) : JsError :=
  {| err_name := "Error"; err_message := msg |}.

(** Truthiness of a string. *)
Definition truthy (s : string) : bool :=
  match s with EmptyString => false | _ => true end.

(** Truthiness of an optional string. *)
Definition truthy_opt (s : option string) : bool :=
  match s with Some t => truthy t | None => false end.

(** [a || b] on strings. *)
Definition or_else (a b : string) : string := if truthy a then a else b.

Definition lower_char (c : ascii) : ascii :=
  let n := nat_of_ascii c in
  if (65 <=? n)%nat && (n <=? 90)%nat then ascii_of_nat (n + 32) else c.

(** [s.toLowerCase()]. *)
Fixpoint toLowerCase (s : string) : string :=
  match s with
  | EmptyString => EmptyString
  | String c r => String (lower_char c) (toLowerCase r)
  end.

(** [s.startsWith(p)]. *)
Fixpoint startsWith (p s : string) : bool :=
  match p, s with
  | EmptyString, _ => true
  | String _ _, EmptyString => false
  | String a p', String b s' => Ascii.eqb a b && startsWith p' s'
  end.

(** [s.includes(p)]. *)
Fixpoint includes (p s : string) : bool :=
  startsWith p s ||
  match s with
  | EmptyString => false
  | String _ s' => includes p s'
  end.

(** [String(n)] for an integer. *)
Definition show (n : Z) : string := NilZero.string_of_int (Z.to_int n).

(** *** The characters of a text

    A string holds a text in UTF-8.  Where the code looks at single
    characters beyond ASCII, the text is read as JavaScript has it: as its
    UTF-16 code units. *)

Definition byte (c : ascii) : Z := Z.of_nat (nat_of_ascii c).

(** The bytes [80] to [BF], which continue a sequence. *)
Definition continuation (b : Z) : bool := (128 <=? b) && (b <? 192).

(** The code units of a text.  A sequence of two, three or four bytes is one
    character when it is well formed (shortest form, no surrogate, at most
    U+10FFFF); a character above U+FFFF is two units, a surrogate pair; a
    byte that begins no well-formed sequence is read as U+FFFD, one for each
    such byte (a decoder may give fewer of them for a sequence that is cut
    short). *)
Fixpoint codeUnits (s : string) : list Z :=
  match s with
  | EmptyString => []
  | String c1 r1 =>
      let b1 := byte c1 in
      if b1 <? 128 then b1 :: codeUnits r1
      else
        match r1 with
        | EmptyString => [65533]
        | String c2 r2 =>
            let b2 := byte c2 in
            if (194 <=? b1) && (b1 <? 224) && continuation b2 then
              ((b1 - 192) * 64 + (b2 - 128)) :: codeUnits r2
            else
              match r2 with
              | EmptyString => 65533 :: codeUnits r1
              | String c3 r3 =>
                  let b3 := byte c3 in
                  let three := (b1 - 224) * 4096 + (b2 - 128) * 64 + (b3 - 128) in
                  if (224 <=? b1) && (b1 <? 240) && continuation b2 && continuation b3
                     && (2048 <=? three)
                     && negb ((55296 <=? three) && (three <=? 57343))
                  then three :: codeUnits r3
                  else
                    match r3 with
                    | EmptyString => 65533 :: codeUnits r1
                    | String c4 r4 =>
                        let b4 := byte c4 in
                        let four := (b1 - 240) * 262144 + (b2 - 128) * 4096
                                    + (b3 - 128) * 64 + (b4 - 128) in
                        if (240 <=? b1) && (b1 <? 248) && continuation b2
                           && continuation b3 && continuation b4
                           && (65536 <=? four) && (four <=? 1114111)
                        then (55296 + (four - 65536) / 1024)
                             :: (56320 + (four - 65536) mod 1024)
                             :: codeUnits r4
                        else 65533 :: codeUnits r1
                    end
              end
        end
  end.

(** The class [\s]: the white space and the line terminators of
    ECMAScript (U+0009 to U+000D, U+0020, U+00A0, U+1680, U+2000 to U+200A,
    U+2028, U+2029, U+202F, U+205F, U+3000, U+FEFF). *)
Definition is_whitespace (u : Z) : bool :=
  ((9 <=? u) && (u <=? 13)) || (u =? 32) || (u =? 160) || (u =? 5760)
  || ((8192 <=? u) && (u <=? 8202)) || (u =? 8232) || (u =? 8233)
  || (u =? 8239) || (u =? 8287) || (u =? 12288) || (u =? 65279).

(** [s.length]. *)
Definition len (s : string) : Z := Z.of_nat (String.length s).

End Js.
Import Js.

(** ** types/index.ts *)

Inductive MessageStatus : Type := PENDING | SENDING | SENT | FAILED | RETRYING.

Definition status_text (s : MessageStatus) : string :=
  match s with
  | PENDING => "pending"
  | SENDING => "sending"
  | SENT => "sent"
  | FAILED => "failed"
  | RETRYING => "retrying"
  end.

Definition status_eqb (a b : MessageStatus) : bool :=
  match a, b with
  | PENDING, PENDING | SENDING, SENDING | SENT, SENT
  | FAILED, FAILED | RETRYING, RETRYING => true
  | _, _ => false
  end.

(** One attachment as it arrives in the request body. *)
Record MediaFile : Type := mkMediaFile {
  filename : string;
  mimeType : string;
  data : string
}.

Record WebhookPayload : Type := mkWebhookPayload {
  phone : string;
  text : string;
  external_id : option string;
  media : option (list MediaFile)
}.

Record MessageResult : Type := mkMessageResult {
  success : bool;
  status : MessageStatus;
  error : option string;
  errorCode : option string;
  screenshotPath : option string;
  screenshotPaths : list string;
  durationMs : option Z
}.

Record MessageLog : Type := mkMessageLog {
  message_timestamp : string;
  log_phone : string;
  text_hash : string;
  log_status : MessageStatus;
  log_attempt : Z;
  error_code : option string;
  error_text : option string;
  screenshot_path : option string;
  log_external_id : option string;
  duration_ms : option Z
}.

Record CallbackError : Type := mkCallbackError {
  code : option string;
  message : option string
}.

Record N8nCallbackPayload : Type := mkN8nCallbackPayload {
  cb_success : bool;
  cb_status : MessageStatus;
  cb_phone : string;
  cb_external_id : option string;
  cb_timestamp : string;
  cb_attempt : Z;
  cb_duration_ms : option Z;
  cb_error : option CallbackError;
  cb_screenshot_url : option string;
  cb_screenshot_urls : option (list string)
}.

(** ** utils/helpers.ts *)

Module Helpers.

(** The binary64 number nearest to [p / 2^53], in units of [2^-53]: the
    multiplication of two numbers keeps 53 significant bits of the exact
    product, rounded to the nearest and, half way between two, to the one
    whose last bit is 0. *)
Definition roundBinary64 (p : Z) : Z :=
  let a := Z.abs p in
  let s := Z.log2 a + 1 - 53 in
  if s <=? 0 then p
  else
    let q := a / 2 ^ s in
    let r := a mod 2 ^ s in
    let half := 2 ^ (s - 1) in
    let q' := if (half <? r) || ((r =? half) && Z.odd q) then q + 1 else q in
    Z.sgn p * (q' * 2 ^ s).

(** [Math.floor(Math.random() * (max - min + 1)) + min], the random number
    being [rnd / 2^53] with [0 <= rnd < 2^53]; [min] and [max] are integers
    that a number holds exactly, as are [max - min + 1] and the result. *)
Definition randomDelay (rnd : Z) (min max : Z) : Z :=
  roundBinary64 (rnd * (max - min + 1)) / 2 ^ 53 + min.

Definition retryableMessages : list string :=
  [ "timeout"; "network"; "ECONNRESET"; "ETIMEDOUT"; "ENOTFOUND";
    "Target closed"; "Navigation timeout" ]%string.

(** [isRetryableError(error)], the argument reduced to its [message]. *)
Definition isRetryableError (error_message : string) : bool :=
  let errorMessage := toLowerCase error_message in
  existsb (fun msg => includes (toLowerCase msg) errorMessage) retryableMessages.

Definition QUO_MAX_TOTAL_SIZE : Z := 5 * 1024 * 1024.
Definition QUO_MAX_ATTACHMENTS : Z := 10.
Definition RECOMMENDED_SIZE : Z := 600 * 1024.

Definition SUPPORTED_MIME_TYPES : list string :=
  [ "image/jpeg"; "image/jpg"; "image/png"; "image/gif"; "image/webp";
    "application/pdf"; "video/mp4"; "video/quicktime" ]%string.

(** The character class [[A-Za-z0-9+/]]. *)
Definition is_base64_char (c : ascii) : bool :=
  let n := nat_of_ascii c in
  ((65 <=? n) && (n <=? 90) || (97 <=? n) && (n <=? 122) ||
   (48 <=? n) && (n <=? 57) || (n =? 43) || (n =? 47))%nat.

(** [/^[A-Za-z0-9+/]*={0,2}$/.test(s)]: the class characters are consumed
    greedily (["="] is not one of them) and what is left must be at most two
    equal signs. *)
Fixpoint base64Regex_test (s : string) : bool :=
  match s with
  | EmptyString => true
  | String c r =>
      if is_base64_char c then base64Regex_test r
      else String.eqb s "=" || String.eqb s "=="
  end.

Record FileValidation : Type := mkFileValidation {
  fv_valid : bool;
  fv_error : option string
}.

Definition validateMediaFile (media : MediaFile) : FileValidation :=
  if negb (truthy (filename media)) || negb (truthy (mimeType media))
     || negb (truthy (data media)) then
    {| fv_valid := false;
       fv_error := Some "Missing required fields (filename, mimeType, data)"%string |}
  else if negb (existsb (String.eqb (mimeType media)) SUPPORTED_MIME_TYPES) then
    {| fv_valid := false;
       fv_error := Some ("Unsupported MIME type: " +++ mimeType media) |}
  else if negb (base64Regex_test (data media)) then
    {| fv_valid := false; fv_error := Some "Invalid base64 encoding"%string |}
  else {| fv_valid := true; fv_error := None |}.

Record MediaValidationResult : Type := mkMediaValidationResult {
  valid : bool;
  mv_error : option string;
  warning : option string;
  totalSizeBytes : option Z;
  fileCount : option Z
}.

(** [Math.ceil(n * 0.75)]; the product is exact in double precision. *)
Definition ceil_three_quarters (n : Z) : Z := (3 * n + 3) / 4.

(** [x.toFixed(2)] for [x = num / 2^20] with [num >= 0]: the nearest multiple
    of 1/100, the larger one on a tie. *)
Definition toFixed2_MiB (num : Z) : string :=
  let hundredths := (200 * num + 2 ^ 20) / 2 ^ 21 in
  let frac := hundredths mod 100 in
  show (hundredths / 100) +++ "." +++
  (if frac <? 10 then "0" else EmptyString) +++ show frac.

(** [Math.round(n / 1024)] for [n >= 0]. *)
Definition round_KiB (n : Z) : Z := (2 * n + 1024) / 2048.

(** The [for] loop of [validateMediaFiles]: [i] is the index of the head of
    [rest], [total] the running [totalSizeBytes].  The loop either returns
    the rejection of the first badly formatted file or ends with the sum. *)
Fixpoint validateLoop (rest : list MediaFile) (i : Z) (total : Z)
  : MediaValidationResult + Z :=
  match rest with
  | [] => inr total
  | media :: rest' =>
      let formatValidation := validateMediaFile media in
      if negb (fv_valid formatValidation) then
        inl {| valid := false;
               mv_error := Some ("File " +++ show (i + 1) +++ " (" +++ filename media
                                 +++ "): " +++
                                 match fv_error formatValidation with
                                 | Some e => e
                                 | None => "undefined"
                                 end);
               warning := None; totalSizeBytes := None; fileCount := None |}
      else
        let fileSizeBytes := ceil_three_quarters (len (data media)) in
        validateLoop rest' (i + 1) (total + fileSizeBytes)
  end.

Definition validateMediaFiles (mediaFiles : list MediaFile) : MediaValidationResult :=
  let n := Z.of_nat (List.length mediaFiles) in
  if n =? 0 then
    {| valid := true; mv_error := None; warning := None;
       totalSizeBytes := Some 0; fileCount := Some 0 |}
  else if n >? QUO_MAX_ATTACHMENTS then
    {| valid := false;
       mv_error := Some ("Too many attachments (" +++ show n +++ "). Maximum is "
                         +++ show QUO_MAX_ATTACHMENTS +++ " files per message.");
       warning := None; totalSizeBytes := None; fileCount := Some n |}
  else
    match validateLoop mediaFiles 0 0 with
    | inl rejected => rejected
    | inr total =>
        if total >? QUO_MAX_TOTAL_SIZE then
          {| valid := false;
             mv_error := Some ("Total media size (" +++ toFixed2_MiB total
                               +++ "MB) exceeds Quo limit ("
                               +++ show (QUO_MAX_TOTAL_SIZE / (1024 * 1024)) +++ "MB)");
             warning := None; totalSizeBytes := Some total; fileCount := Some n |}
        else
          {| valid := true; mv_error := None;
             warning :=
               if total >? RECOMMENDED_SIZE then
                 Some ("Total size (" +++ show (round_KiB total)
                       +++ "KB) exceeds recommended 600KB. Some carriers may have issues receiving. Quo will auto-resize images if needed.")
               else None;
             totalSizeBytes := Some total; fileCount := Some n |}
    end.

End Helpers.
Import Helpers.

(** ** Effects: a trace of events and exceptions *)

(** What the outside world can observe of a run. *)
Inductive Event : Type :=
| EvStage (files : list MediaFile)
    (* saveMediaFiles is called *)
| EvLog (entry : MessageLog)
    (* a row is handed to the message_logs insert *)
| EvSend (attempt : Z) (to body : string) (mediaFilePaths : option (list string))
    (* openPhoneService.sendMessage is called; [attempt] names the call *)
| EvUpload (localFilePath : string)
    (* uploadScreenshot is called *)
| EvCallback (payload : N8nCallbackPayload)
    (* sendCallback is called *)
| EvPost (url : string) (payload : N8nCallbackPayload)
    (* the HTTP POST of the notifier is issued *)
| EvSleep (ms : Z)
    (* sleep(ms) inside the queue service *)
| EvCleanup (filePaths : list string).
    (* cleanupMediaFiles is called *)

Module Eff.

(** Outcome of a computation: a value or a thrown error. *)
Inductive Res (A : Type) : Type :=
| Ok (a : A)
| Throw (e : JsError).
Arguments Ok {A} a.
Arguments Throw {A} e.

Definition M (A : Type) : Type := (list Event * Res A)%type.

Definition ret {A} (a : A) : M A := ([], Ok a).

Definition throw {A} (e : JsError) : M A := ([], Throw e).

Definition emit (ev : Event) : M unit := ([ev], Ok tt).

Definition lift {A} (r : Res A) : M A := ([], r).

Definition bind {A B} (m : M A) (f : A -> M B) : M B :=
  match m with
  | (t, Ok a) => let (t', r) := f a in (t ++ t', r)
  | (t, Throw e) => (t, Throw e)
  end.

(** [try { m } catch (e) { h e }]. *)
Definition try_catch {A} (m : M A) (h : JsError -> M A) : M A :=
  match m with
  | (t, Ok a) => (t, Ok a)
  | (t, Throw e) => let (t', r) := h e in (t ++ t', r)
  end.

(** [try { m } finally { fin }]: [fin] runs on both exits; an error of [fin]
    replaces the outcome of [m]. *)
Definition try_finally {A} (m : M A) (fin : M unit) : M A :=
  match m, fin with
  | (t, r), (t', Ok _) => (t ++ t', r)
  | (t, _), (t', Throw e) => (t ++ t', Throw e)
  end.

(** The same two operations without a trace, for code that has no event of
    its own. *)
Definition rbind {A B} (r : Res A) (f : A -> Res B) : Res B :=
  match r with Ok a => f a | Throw e => Throw e end.

Definition rcatch {A} (r : Res A) (h : JsError -> Res A) : Res A :=
  match r with Ok a => Ok a | Throw e => h e end.

End Eff.
Import Eff.

Notation "x <- m ;; k" := (bind m (fun x => k))
  (at level 61, m at next level, right associativity).
Notation "m ;;; k" := (bind m (fun _ => k))
  (at level 61, right associativity).

(** ** The outside world *)

(** Result of one [page.$(selector)] followed, when an element is found, by
    [element.textContent()]. *)
Inductive QueryOutcome : Type :=
| QueryThrows (e : JsError)
| QueryNull
| QueryElement (textContent : Res (option string)).

(** What one of the private UI steps of the driver does: the screenshots it
    pushes on [currentScreenshots] and the error it throws, if any. *)
Record StepOutcome : Type := mkStepOutcome {
  pushed : list string;
  failure : option JsError
}.

(** The browser as it behaves during one call of [sendMessage]. *)
Record Browser : Type := mkBrowser {
  page_ready : bool;                         (* this.page is not null *)
  clickNewConversation : StepOutcome;
  enterPhoneNumber : StepOutcome;
  enterMessageText : StepOutcome;
  attachMediaFiles : StepOutcome;
  clickSendButton : StepOutcome;
  verify_screenshot : option JsError;        (* page.screenshot in verifyMessageSent *)
  query : string -> QueryOutcome;            (* page.$ per selector *)
  error_screenshot_path : string;            (* path.join(screenshotsDir, `error-...`) *)
  error_screenshot : option JsError;         (* page.screenshot in the catch block *)
  elapsed : Z                                (* Date.now() - startTime *)
}.

(** [client.from(table).insert(rows)]. *)
Inductive InsertOutcome : Type :=
| InsertOk
| InsertError (e : JsError)      (* resolves with { error } *)
| InsertRejects (e : JsError).   (* the promise rejects *)

(** [fetch(url, ...)] and, for a response that is not ok, [response.text()]. *)
Inductive FetchOutcome : Type :=
| FetchRejects (e : JsError)
| FetchResponse (ok : bool) (http_status : Z) (body : Res string).

(** The steps of [uploadScreenshot]. *)
Inductive UploadOutcome : Type :=
| FileMissing                    (* existsSync is false *)
| ReadThrows (e : JsError)       (* readFileSync throws *)
| UploadError (e : JsError)      (* upload resolves with { error } *)
| UploadRejects (e : JsError)    (* upload rejects *)
| Uploaded (publicUrl : string).

Record World : Type := mkWorld {
  w_browser : Z -> Browser;                         (* per attempt *)
  w_insert : MessageLog -> InsertOutcome;
  w_fetch : N8nCallbackPayload -> FetchOutcome;
  w_upload : string -> UploadOutcome;
  w_saveMediaFiles : list MediaFile -> Res (list string);
  w_hashText : string -> string;                    (* SHA-256, 16 hex digits *)
  w_logTime : Z -> MessageStatus -> string;         (* new Date().toISOString() in logAttempt *)
  w_callbackTime : Z -> MessageStatus -> string;    (* the same in a callback payload *)
  w_random : Z -> Z                                 (* Math.random() * 2^53, per attempt *)
}.

(** config/index.ts, the [queue] part. *)
Record QueueConfig : Type := mkQueueConfig {
  minDelay : Z;
  maxDelay : Z;
  maxRetries : Z
}.

(** ** services/openphone.service.ts *)

Module OpenPhone.

(** A double quote, to spell the selectors. *)
Definition dq : string := String (ascii_of_nat 34) EmptyString.

Definition errorSelectors : list string :=
  [ "[role=" +++ dq +++ "alert" +++ dq +++ "]";
    "[role=" +++ dq +++ "alertdialog" +++ dq +++ "]";
    "[class*=" +++ dq +++ "error" +++ dq +++ "][role=" +++ dq +++ "alert" +++ dq +++ "]";
    "[class*=" +++ dq +++ "notification" +++ dq +++ "][class*=" +++ dq +++ "error" +++ dq +++ "]";
    "[data-testid*=" +++ dq +++ "error" +++ dq +++ "]";
    "[data-testid*=" +++ dq +++ "alert" +++ dq +++ "]";
    "[role=" +++ dq +++ "alert" +++ dq +++ "] >> text=/invalid|failed|error/i";
    "[class*=" +++ dq +++ "toast" +++ dq +++ "][class*=" +++ dq +++ "error" +++ dq +++ "]";
    "[class*=" +++ dq +++ "snackbar" +++ dq +++ "][class*=" +++ dq +++ "error" +++ dq +++ "]" ].

(** The [for] loop over the selectors.  Each pass has a [try]/[catch] of its
    own whose handler is [continue]. *)
Fixpoint scanSelectors (b : Browser) (selectors : list string) : Res bool :=
  match selectors with
  | [] => Ok true
  | selector :: rest =>
      match
        rcatch
          (match query b selector with
           | QueryThrows e => Throw e
           | QueryNull => Ok None
           | QueryElement textContent =>
               rbind textContent (fun _ => Ok (Some false))
           end)
          (fun _ => Ok None)
      with
      | Ok (Some verdict) => Ok verdict
      | Ok None => scanSelectors b rest
      | Throw e => Throw e
      end
  end.

Definition verifyMessageSent (b : Browser) : Res bool :=
  if negb (page_ready b) then Throw (newError "Page not initialized")
  else
    rcatch
      (rbind (match verify_screenshot b with
              | Some e => Throw e
              | None => Ok tt
              end)
             (fun _ => scanSelectors b errorSelectors))
      (fun _ => Ok true).

(** The awaited UI steps of the [try] block in order, up to the first one
    that throws; [shots] is [this.currentScreenshots]. *)
Fixpoint runSteps (steps : list StepOutcome) (shots : list string)
  : list string * Res unit :=
  match steps with
  | [] => (shots, Ok tt)
  | s :: rest =>
      match failure s with
      | Some e => (shots ++ pushed s, Throw e)
      | None => runSteps rest (shots ++ pushed s)
      end
  end.

Definition sendMessage (b : Browser) (to body : string)
  (mediaFilePaths : option (list string)) : Res MessageResult :=
  if negb (page_ready b) then
    Throw (newError "Browser not initialized. Call initialize() first.")
  else
    let steps :=
      [clickNewConversation b; enterPhoneNumber b; enterMessageText b]
      ++ (match mediaFilePaths with
          | Some (_ :: _) => [attachMediaFiles b]
          | _ => []
          end)
      ++ [clickSendButton b] in
    let (shots, stepped) := runSteps steps [] in
    match
      rbind stepped (fun _ =>
      rbind (verifyMessageSent b) (fun sent =>
      if sent then Ok tt
      else Throw (newError "Message sending verification failed")))
    with
    | Ok _ =>
        Ok {| success := true; status := SENT; error := None; errorCode := None;
              screenshotPath := None; screenshotPaths := shots;
              durationMs := Some (elapsed b) |}
    | Throw e =>
        let shots' :=
          match error_screenshot b with
          | None => shots ++ [error_screenshot_path b]
          | Some _ => shots
          end in
        Ok {| success := false; status := FAILED;
              error := Some (err_message e);
              errorCode := Some (or_else (err_name e) "UNKNOWN_ERROR");
              screenshotPath := Some (error_screenshot_path b);
              screenshotPaths := shots';
              durationMs := Some (elapsed b) |}
    end.

End OpenPhone.

(** ** services/supabase.service.ts *)

Module Supabase.

Definition logMessage (w : World) (messageLog : MessageLog) : M unit :=
  try_catch
    (emit (EvLog messageLog) ;;;
     match w_insert w messageLog with
     | InsertOk => ret tt
     | InsertError e => throw e
     | InsertRejects e => throw e
     end)
    (fun _ => ret tt).

Definition uploadScreenshot (w : World) (localFilePath : string) : M (option string) :=
  emit (EvUpload localFilePath) ;;;
  try_catch
    (if negb (truthy localFilePath) then ret None
     else
       match w_upload w localFilePath with
       | FileMissing => ret None
       | ReadThrows e => throw e
       | UploadError _ => ret None
       | UploadRejects e => throw e
       | Uploaded publicUrl => ret (Some publicUrl)
       end)
    (fun _ => ret None).

(** The loop of [uploadScreenshots], [urls] being the array built so far. *)
Fixpoint uploadLoop (w : World) (screenshotPaths : list string) (urls : list string)
  : M (list string) :=
  match screenshotPaths with
  | [] => ret urls
  | filePath :: rest =>
      url <- uploadScreenshot w filePath ;;
      uploadLoop w rest
        (match url with
         | Some u => if truthy u then urls ++ [u] else urls
         | None => urls
         end)
  end.

Definition uploadScreenshots (w : World) (screenshotPaths : list string)
  : M (list string) :=
  uploadLoop w screenshotPaths [].

End Supabase.

(** ** services/n8n-webhook.service.ts *)

Module N8n.

Record Service : Type := mkService { webhookUrl : string }.

Definition enabled (s : Service) : bool := truthy (webhookUrl s).

Definition sendCallback (s : Service) (w : World) (payload : N8nCallbackPayload)
  : M unit :=
  emit (EvCallback payload) ;;;
  if negb (enabled s) then ret tt
  else
    try_catch
      (emit (EvPost (webhookUrl s) payload) ;;;
       match w_fetch w payload with
       | FetchRejects e => throw e
       | FetchResponse ok http_status body =>
           if negb ok then
             errorText <- lift body ;;
             throw (newError ("N8N webhook returned " +++ show http_status
                              +++ ": " +++ errorText))
           else ret tt
       end)
      (fun _ => ret tt).

End N8n.

(** ** services/queue.service.ts *)

Module Queue.

(** How one pass through the body of the [while] loop ends: with [continue]
    or with [return]. *)
Inductive LoopCtl : Type := Continue | Return.

Definition sleep (ms : Z) : M unit := emit (EvSleep ms).

(** [Math.min(1000 * Math.pow(2, attempt), 30000)]. *)
Definition retryDelay (attempt : Z) : Z := Z.min (1000 * 2 ^ attempt) 30000.

Section Service.

Variable cfg : QueueConfig.
Variable n8n : N8n.Service.
Variable w : World.

Definition logAttempt (to body : string) (externalId : option string)
  (attempt : Z) (st : MessageStatus) (errCode errText : option string)
  (duration : option Z) (shot : option string) : M unit :=
  try_catch
    (Supabase.logMessage w
       {| message_timestamp := w_logTime w attempt st;
          log_phone := to;
          text_hash := w_hashText w body;
          log_status := st;
          log_attempt := attempt;
          error_code := errCode;
          error_text := errText;
          screenshot_path := shot;
          log_external_id := externalId;
          duration_ms := duration |})
    (fun _ => ret tt).

(** The test that sends a failed attempt to the retry branch. *)
Definition shouldRetry (attempt : Z) (result : MessageResult) : bool :=
  (attempt <? maxRetries cfg)
  && truthy_opt (errorCode result)
  && isRetryableError (match errorCode result with Some c => c | None => EmptyString end).

(** [uploadScreenshots] behind its guard on [result.screenshotPaths]. *)
Definition uploadAll (result : MessageResult) : M (list string) :=
  match screenshotPaths result with
  | [] => ret []
  | paths => Supabase.uploadScreenshots w paths
  end.

(** The body of the [while] loop for the attempt number [attempt] (already
    incremented), with its [try]/[catch]. *)
Definition attemptBody (p : WebhookPayload) (mediaFilePaths : list string)
  (attempt : Z) : M LoopCtl :=
  let sendArg := match mediaFilePaths with [] => None | _ => Some mediaFilePaths end in
  try_catch
    (logAttempt (phone p) (text p) (external_id p) attempt SENDING
       None None None None ;;;
     emit (EvSend attempt (phone p) (text p) sendArg) ;;;
     result <- lift (OpenPhone.sendMessage (w_browser w attempt) (phone p) (text p) sendArg) ;;
     if success result then
       logAttempt (phone p) (text p) (external_id p) attempt SENT
         None None (durationMs result) None ;;;
       screenshotUrls <- uploadAll result ;;
       N8n.sendCallback n8n w
         {| cb_success := true; cb_status := SENT; cb_phone := phone p;
            cb_external_id := external_id p;
            cb_timestamp := w_callbackTime w attempt SENT;
            cb_attempt := attempt; cb_duration_ms := durationMs result;
            cb_error := None; cb_screenshot_url := None;
            cb_screenshot_urls := Some screenshotUrls |} ;;;
       sleep (randomDelay (w_random w attempt) (minDelay cfg) (maxDelay cfg)) ;;;
       ret Return
     else if shouldRetry attempt result then
       logAttempt (phone p) (text p) (external_id p) attempt RETRYING
         (errorCode result) (error result) (durationMs result)
         (screenshotPath result) ;;;
       screenshotUrls <- uploadAll result ;;
       N8n.sendCallback n8n w
         {| cb_success := false; cb_status := RETRYING; cb_phone := phone p;
            cb_external_id := external_id p;
            cb_timestamp := w_callbackTime w attempt RETRYING;
            cb_attempt := attempt; cb_duration_ms := durationMs result;
            cb_error := Some {| code := errorCode result; message := error result |};
            cb_screenshot_url := screenshotPath result;
            cb_screenshot_urls := Some screenshotUrls |} ;;;
       sleep (retryDelay attempt) ;;;
       ret Continue
     else
       logAttempt (phone p) (text p) (external_id p) attempt FAILED
         (errorCode result) (error result) (durationMs result)
         (screenshotPath result) ;;;
       screenshotUrls <- uploadAll result ;;
       N8n.sendCallback n8n w
         {| cb_success := false; cb_status := FAILED; cb_phone := phone p;
            cb_external_id := external_id p;
            cb_timestamp := w_callbackTime w attempt FAILED;
            cb_attempt := attempt; cb_duration_ms := durationMs result;
            cb_error := Some {| code := errorCode result; message := error result |};
            cb_screenshot_url := screenshotPath result;
            cb_screenshot_urls := Some screenshotUrls |} ;;;
       sleep (randomDelay (w_random w attempt) (minDelay cfg) (maxDelay cfg)) ;;;
       ret Return)
    (fun error =>
       logAttempt (phone p) (text p) (external_id p) attempt FAILED
         (Some "UNEXPECTED_ERROR"%string) (Some (err_message error)) None None ;;;
       N8n.sendCallback n8n w
         {| cb_success := false; cb_status := FAILED; cb_phone := phone p;
            cb_external_id := external_id p;
            cb_timestamp := w_callbackTime w attempt FAILED;
            cb_attempt := attempt; cb_duration_ms := None;
            cb_error := Some {| code := Some "UNEXPECTED_ERROR"%string;
                                message := Some (err_message error) |};
            cb_screenshot_url := None;
            cb_screenshot_urls := None |} ;;;
       ret Return).

(** [while (attempt < config.queue.maxRetries) { attempt++; ... }].  Each pass
    uses one unit of [fuel]; [None] means the fuel ran out before the loop
    ended.  The result [Continue] means that the guard failed and control
    fell out of the loop, [Return] that the body returned. *)
Fixpoint whileLoop (fuel : nat) (p : WebhookPayload) (mediaFilePaths : list string)
  (attempt : Z) : option (M LoopCtl) :=
  if attempt <? maxRetries cfg then
    match fuel with
    | O => None
    | S fuel' =>
        let attempt := attempt + 1 in
        match attemptBody p mediaFilePaths attempt with
        | (t, Ok Continue) =>
            option_map (fun rest : M LoopCtl => (t ++ fst rest, snd rest))
                       (whileLoop fuel' p mediaFilePaths attempt)
        | (t, Ok Return) => Some (t, Ok Return)
        | (t, Throw e) => Some (t, Throw e)
        end
    end
  else Some (ret Continue).

(** The staging of the attachments in front of the loop. *)
Definition stageMedia (p : WebhookPayload) : M (list string) :=
  match media p with
  | Some ((_ :: _) as files) =>
      try_catch
        (emit (EvStage files) ;;; lift (w_saveMediaFiles w files))
        (fun _ => ret [])
  | _ => ret []
  end.

(** The [finally] block. *)
Definition cleanup (mediaFilePaths : list string) : M unit :=
  match mediaFilePaths with
  | [] => ret tt
  | _ => emit (EvCleanup mediaFilePaths)
  end.

Definition processMessageWith (fuel : nat) (p : WebhookPayload) : option (M unit) :=
  match stageMedia p with
  | (t0, Throw e) => Some (t0, Throw e)
  | (t0, Ok mediaFilePaths) =>
      option_map
        (fun looped : M LoopCtl =>
           let whole := try_finally (looped ;;; ret tt) (cleanup mediaFilePaths) in
           (t0 ++ fst whole, snd whole))
        (whileLoop fuel p mediaFilePaths 0)
  end.

(** [processMessage(payload)]: [maxRetries] passes are all the loop can make. *)
Definition processMessage (p : WebhookPayload) : option (M unit) :=
  processMessageWith (Z.to_nat (maxRetries cfg)) p.

End Service.

End Queue.

(** ** server/app.ts: POST /webhook/send *)

Module App.

(** The fields of the JSON answer that depend on the validation; the echoes
    of the request ([phone], [message_preview], [timestamp], [queue_status])
    are left out. *)
Record Response : Type := mkResponse {
  http_status : Z;
  r_success : bool;
  r_message : string;
  r_error : option string;
  r_error_code : option string
}.

(** What the handler did: answered with an error, or called
    [queueService.addMessage(payload)] and answered. *)
Inductive Handled : Type :=
| Rejected (r : Response)
| Enqueued (p : WebhookPayload) (r : Response).

(** The class [[\s\-()]]. *)
Definition is_separator (u : Z) : bool :=
  is_whitespace u || (u =? 45) || (u =? 40) || (u =? 41).

(** [replace(/[\s\-()]/g, '')] on the code units of a text. *)
Definition removeSeparators (units : list Z) : list Z :=
  filter (fun u => negb (is_separator u)) units.

(** [s.replace(/[\s\-()]/g, '')], as code units. *)
Definition stripSeparators (s : string) : list Z := removeSeparators (codeUnits s).

(** The class [[0-9]]. *)
Definition is_digit (u : Z) : bool := (48 <=? u) && (u <=? 57).

Definition all_digits (units : list Z) : bool := forallb is_digit units.

(** [/^\+?[0-9]{10,15}$/.test(s)], on the code units of [s]. *)
Definition phoneRegex_test (units : list Z) : bool :=
  let digits :=
    match units with
    | u :: rest => if u =? 43 then rest else units
    | [] => units
    end in
  all_digits digits
  && (10 <=? Z.of_nat (List.length digits)) && (Z.of_nat (List.length digits) <=? 15).

Definition webhookSend (payload : WebhookPayload) : Handled :=
  if negb (truthy (phone payload)) || negb (truthy (text payload)) then
    Rejected {| http_status := 400; r_success := false;
                r_message := "Validation failed";
                r_error := Some "Missing required fields: phone and text"%string;
                r_error_code := Some "VALIDATION_ERROR"%string |}
  else if negb (phoneRegex_test (stripSeparators (phone payload))) then
    Rejected {| http_status := 400; r_success := false;
                r_message := "Invalid phone format";
                r_error := Some "Invalid phone number format"%string;
                r_error_code := Some "INVALID_PHONE"%string |}
  else
    let accepted :=
      Enqueued payload
        {| http_status := 200; r_success := true;
           r_message := "Message added to queue";
           r_error := None; r_error_code := None |} in
    match media payload with
    | Some ((_ :: _) as files) =>
        let mediaValidation := validateMediaFiles files in
        if negb (valid mediaValidation) then
          Rejected {| http_status := 400; r_success := false;
                      r_message := "Media validation failed";
                      r_error := mv_error mediaValidation;
                      r_error_code := Some "INVALID_MEDIA"%string |}
        else accepted
    | _ => accepted
    end.

End App.

(** * Properties *)

(** ** Reading a trace *)

Definition logs (t : list Event) : list MessageLog :=
  flat_map (fun ev => match ev with EvLog entry => [entry] | _ => [] end) t.

Definition callbacks (t : list Event) : list N8nCallbackPayload :=
  flat_map (fun ev => match ev with EvCallback c => [c] | _ => [] end) t.

Definition posts (t : list Event) : list N8nCallbackPayload :=
  flat_map (fun ev => match ev with EvPost _ c => [c] | _ => [] end) t.

(** The attempt numbers of the calls of [sendMessage]. *)
Definition sends (t : list Event) : list Z :=
  flat_map (fun ev => match ev with EvSend k _ _ _ => [k] | _ => [] end) t.

(** The media argument of each call of [sendMessage]. *)
Definition sentMedia (t : list Event) : list (option (list string)) :=
  flat_map (fun ev => match ev with EvSend _ _ _ m => [m] | _ => [] end) t.

Definition sleeps (t : list Event) : list Z :=
  flat_map (fun ev => match ev with EvSleep ms => [ms] | _ => [] end) t.

(** [SENT] and [FAILED] end a message. *)
Definition terminal (s : MessageStatus) : bool :=
  match s with SENT | FAILED => true | _ => false end.

Lemma logs_app t u : logs (t ++ u) = logs t ++ logs u.
Proof. apply flat_map_app. Qed.

Lemma callbacks_app t u : callbacks (t ++ u) = callbacks t ++ callbacks u.
Proof. apply flat_map_app. Qed.

Lemma posts_app t u : posts (t ++ u) = posts t ++ posts u.
Proof. apply flat_map_app. Qed.

Lemma sends_app t u : sends (t ++ u) = sends t ++ sends u.
Proof. apply flat_map_app. Qed.

Lemma sentMedia_app t u : sentMedia (t ++ u) = sentMedia t ++ sentMedia u.
Proof. apply flat_map_app. Qed.

Lemma sleeps_app t u : sleeps (t ++ u) = sleeps t ++ sleeps u.
Proof. apply flat_map_app. Qed.

Lemma uploads_silent paths :
  logs (map EvUpload paths) = [] /\ callbacks (map EvUpload paths) = [] /\
  posts (map EvUpload paths) = [] /\ sends (map EvUpload paths) = [] /\
  sentMedia (map EvUpload paths) = [] /\ sleeps (map EvUpload paths) = [].
Proof. repeat split; induction paths; simpl; auto. Qed.

(** ** The sinks never throw *)

Lemma logMessage_run w entry :
  Supabase.logMessage w entry = ([EvLog entry], Ok tt).
Proof.
  unfold Supabase.logMessage.
  simpl. destruct (w_insert w entry); reflexivity.
Qed.

Lemma uploadScreenshot_run w path :
  exists url, Supabase.uploadScreenshot w path = ([EvUpload path], Ok url).
Proof.
  unfold Supabase.uploadScreenshot.
  destruct (truthy path); simpl.
  - destruct (w_upload w path); simpl.
    all: eexists; reflexivity.
  - eexists; reflexivity.
Qed.

Lemma uploadLoop_run w paths :
  forall urls, exists urls',
    Supabase.uploadLoop w paths urls = (map EvUpload paths, Ok urls').
Proof.
  induction paths as [|path rest IH]; intros urls; simpl.
  - eexists; reflexivity.
  - destruct (uploadScreenshot_run w path) as [url ->].
    unfold bind.
    match goal with
    | |- context [Supabase.uploadLoop w rest ?u] => destruct (IH u) as [urls' ->]
    end.
    eexists; reflexivity.
Qed.

Lemma sendCallback_run s w payload :
  N8n.sendCallback s w payload =
  (EvCallback payload ::
   (if N8n.enabled s then [EvPost (N8n.webhookUrl s) payload] else []), Ok tt).
Proof.
  unfold N8n.sendCallback.
  destruct (N8n.enabled s); simpl; [|reflexivity].
  destruct (w_fetch w payload) as [e|ok st body]; simpl; [reflexivity|].
  destruct ok; simpl; [reflexivity|].
  destruct body; reflexivity.
Qed.

(** ** What the claims say about a trace *)

(** The last audit row and the last callback are terminal and agree on the
    status, and nothing before them is terminal; every callback is posted
    when the notifier has a URL and none is otherwise. *)
Definition one_terminal_outcome (n8n : N8n.Service) (t : list Event) : Prop :=
  exists rows entry calls c,
    logs t = rows ++ [entry]
    /\ terminal (log_status entry) = true
    /\ Forall (fun e => terminal (log_status e) = false) rows
    /\ callbacks t = calls ++ [c]
    /\ terminal (cb_status c) = true
    /\ Forall (fun x => terminal (cb_status x) = false) calls
    /\ cb_status c = log_status entry
    /\ posts t = (if N8n.enabled n8n then callbacks t else []).

(** Status and attempt number of an audit row and of a callback. *)
Definition log_key (e : MessageLog) : MessageStatus * Z := (log_status e, log_attempt e).
Definition cb_key (c : N8nCallbackPayload) : MessageStatus * Z := (cb_status c, cb_attempt c).

Definition is_sending (s : MessageStatus) : bool := status_eqb s SENDING.

(** Every audit row, the [SENDING] ones included, has its callback. *)
Definition notified_at_every_transition (t : list Event) : Prop :=
  map log_key (logs t) = map cb_key (callbacks t).

(** Every audit row but the [SENDING] ones has its callback, in the same
    order; no callback says [SENDING]; each call of [sendMessage] has its
    [SENDING] row. *)
Definition notified_after_every_attempt (t : list Event) : Prop :=
  map log_key (filter (fun e => negb (is_sending (log_status e))) (logs t))
  = map cb_key (callbacks t)
  /\ map log_attempt (filter (fun e => is_sending (log_status e)) (logs t)) = sends t
  /\ Forall (fun c => is_sending (cb_status c) = false) (callbacks t).

(** The events of attempt [k]: its [SENDING] row, the call of
    [sendMessage], one row with the outcome ([SENT], [RETRYING] or
    [FAILED]), the uploads, and one callback with the status and the attempt
    number of that row; what comes after the callback holds no row, no
    callback and no call. *)
Definition attempt_events (k : Z) (seg : list Event) : Prop :=
  exists sending to body m outcome ups c rest,
    seg = EvLog sending :: EvSend k to body m :: EvLog outcome
          :: map EvUpload ups ++ EvCallback c :: rest
    /\ log_status sending = SENDING /\ log_attempt sending = k
    /\ In (log_status outcome) [SENT; RETRYING; FAILED]
    /\ log_attempt outcome = k
    /\ cb_status c = log_status outcome /\ cb_attempt c = k
    /\ logs rest = [] /\ callbacks rest = [] /\ sends rest = [].

(** The trace is made of the attempts 1, 2, ... one after the other; what
    comes before the first and after the last holds no row, no callback and
    no call. *)
Definition attempts_in_order (t : list Event) : Prop :=
  exists before segs after,
    t = before ++ List.concat segs ++ after
    /\ logs before = [] /\ callbacks before = [] /\ sends before = []
    /\ logs after = [] /\ callbacks after = [] /\ sends after = []
    /\ Forall2 attempt_events (map Z.of_nat (seq 1 (List.length segs))) segs.

(** ** One pass of the loop in closed form *)

Section Attempt.

Variable cfg : QueueConfig.
Variable n8n : N8n.Service.
Variable w : World.
Variable p : WebhookPayload.
Variable mediaFilePaths : list string.

(** The third argument of [sendMessage]. *)
Definition sendArg : option (list string) :=
  match mediaFilePaths with [] => None | _ => Some mediaFilePaths end.

(** What [sendMessage] answers at attempt [k]. *)
Definition sendResult (k : Z) : Res MessageResult :=
  OpenPhone.sendMessage (w_browser w k) (phone p) (text p) sendArg.

(** The row [logAttempt] builds. *)
Definition logEntry (k : Z) (st : MessageStatus) (errCode errText : option string)
  (duration : option Z) (shot : option string) : MessageLog :=
  {| message_timestamp := w_logTime w k st; log_phone := phone p;
     text_hash := w_hashText w (text p); log_status := st; log_attempt := k;
     error_code := errCode; error_text := errText; screenshot_path := shot;
     log_external_id := external_id p; duration_ms := duration |}.

(** The events of one call of [sendCallback]. *)
Definition notify (c : N8nCallbackPayload) : list Event :=
  EvCallback c :: (if N8n.enabled n8n then [EvPost (N8n.webhookUrl n8n) c] else []).

(** The URLs [uploadScreenshots] returns for a result. *)
Definition urlsOf (r : MessageResult) : list string :=
  match snd (Queue.uploadAll w r) with Ok urls => urls | Throw _ => [] end.

Definition sentCallback (k : Z) (r : MessageResult) : N8nCallbackPayload :=
  {| cb_success := true; cb_status := SENT; cb_phone := phone p;
     cb_external_id := external_id p; cb_timestamp := w_callbackTime w k SENT;
     cb_attempt := k; cb_duration_ms := durationMs r; cb_error := None;
     cb_screenshot_url := None; cb_screenshot_urls := Some (urlsOf r) |}.

Definition failureCallback (k : Z) (st : MessageStatus) (r : MessageResult)
  : N8nCallbackPayload :=
  {| cb_success := false; cb_status := st; cb_phone := phone p;
     cb_external_id := external_id p; cb_timestamp := w_callbackTime w k st;
     cb_attempt := k; cb_duration_ms := durationMs r;
     cb_error := Some {| code := errorCode r; message := error r |};
     cb_screenshot_url := screenshotPath r;
     cb_screenshot_urls := Some (urlsOf r) |}.

Definition unexpectedCallback (k : Z) (e : JsError) : N8nCallbackPayload :=
  {| cb_success := false; cb_status := FAILED; cb_phone := phone p;
     cb_external_id := external_id p; cb_timestamp := w_callbackTime w k FAILED;
     cb_attempt := k; cb_duration_ms := None;
     cb_error := Some {| code := Some "UNEXPECTED_ERROR"%string;
                         message := Some (err_message e) |};
     cb_screenshot_url := None; cb_screenshot_urls := None |}.

(** What follows the call of [sendMessage] in pass [k], and how the pass
    ends. *)
Definition afterSend (k : Z) : list Event * Queue.LoopCtl :=
  match sendResult k with
  | Throw e =>
      (EvLog (logEntry k FAILED (Some "UNEXPECTED_ERROR"%string)
                (Some (err_message e)) None None)
       :: notify (unexpectedCallback k e), Queue.Return)
  | Ok r =>
      if success r then
        (EvLog (logEntry k SENT None None (durationMs r) None)
         :: map EvUpload (screenshotPaths r) ++ notify (sentCallback k r)
         ++ [EvSleep (randomDelay (w_random w k) (minDelay cfg) (maxDelay cfg))],
         Queue.Return)
      else if Queue.shouldRetry cfg k r then
        (EvLog (logEntry k RETRYING (errorCode r) (error r) (durationMs r)
                  (screenshotPath r))
         :: map EvUpload (screenshotPaths r) ++ notify (failureCallback k RETRYING r)
         ++ [EvSleep (Queue.retryDelay k)],
         Queue.Continue)
      else
        (EvLog (logEntry k FAILED (errorCode r) (error r) (durationMs r)
                  (screenshotPath r))
         :: map EvUpload (screenshotPaths r) ++ notify (failureCallback k FAILED r)
         ++ [EvSleep (randomDelay (w_random w k) (minDelay cfg) (maxDelay cfg))],
         Queue.Return)
  end.

(** The whole pass [k]. *)
Definition passTrace (k : Z) : list Event :=
  EvLog (logEntry k SENDING None None None None)
  :: EvSend k (phone p) (text p) sendArg
  :: fst (afterSend k).

Lemma logAttempt_run k st errCode errText duration shot :
  Queue.logAttempt w (phone p) (text p) (external_id p) k st errCode errText
    duration shot
  = ([EvLog (logEntry k st errCode errText duration shot)], Ok tt).
Proof. unfold Queue.logAttempt. rewrite logMessage_run. reflexivity. Qed.

Lemma uploadAll_run r :
  Queue.uploadAll w r = (map EvUpload (screenshotPaths r), Ok (urlsOf r)).
Proof.
  unfold urlsOf, Queue.uploadAll, Supabase.uploadScreenshots.
  destruct (screenshotPaths r) as [|path rest]; [reflexivity|].
  destruct (uploadLoop_run w (path :: rest) []) as [urls ->]. reflexivity.
Qed.

Lemma attemptBody_run k :
  Queue.attemptBody cfg n8n w p mediaFilePaths k
  = (passTrace k, Ok (snd (afterSend k))).
Proof.
  unfold Queue.attemptBody, passTrace, afterSend, sendResult, sendArg, Queue.sleep.
  rewrite !logAttempt_run. cbv zeta.
  destruct (OpenPhone.sendMessage _ _ _ _) as [r|e]; simpl.
  - destruct (success r); [|destruct (Queue.shouldRetry cfg k r)];
      rewrite logAttempt_run, uploadAll_run; unfold bind at 1 2;
      rewrite sendCallback_run; unfold bind, ret, emit, try_catch;
      cbn [app fst snd]; rewrite ?app_nil_r; reflexivity.
  - rewrite logAttempt_run, sendCallback_run. unfold bind, ret. cbn [app fst snd].
    rewrite ?app_nil_r. reflexivity.
Qed.

(** *** The runs of the loop as a relation

    [LoopRun a t c]: entered with [attempt = a], the loop produces the trace
    [t] and is left by [return] ([c = Return]) or through its guard
    ([c = Continue]). *)
Inductive LoopRun : Z -> list Event -> Queue.LoopCtl -> Prop :=
| run_guard a :
    maxRetries cfg <= a ->
    LoopRun a [] Queue.Continue
| run_return a :
    a < maxRetries cfg ->
    snd (afterSend (a + 1)) = Queue.Return ->
    LoopRun a (passTrace (a + 1)) Queue.Return
| run_continue a t c :
    a < maxRetries cfg ->
    snd (afterSend (a + 1)) = Queue.Continue ->
    LoopRun (a + 1) t c ->
    LoopRun a (passTrace (a + 1) ++ t) c.

(** With fuel for every remaining pass the loop ends, and its runs are those
    of [LoopRun]. *)
Lemma whileLoop_run fuel :
  forall a, (Z.to_nat (maxRetries cfg - a) <= fuel)%nat ->
  exists t c, Queue.whileLoop cfg n8n w fuel p mediaFilePaths a = Some (t, Ok c)
              /\ LoopRun a t c.
Proof.
  induction fuel as [|fuel IH]; intros a Hfuel; simpl.
  - destruct (Z.ltb_spec a (maxRetries cfg)); [lia|].
    exists [], Queue.Continue. split; [reflexivity|]. now constructor.
  - destruct (Z.ltb_spec a (maxRetries cfg)) as [Hlt|Hge].
    + rewrite attemptBody_run.
      destruct (snd (afterSend (a + 1))) eqn:E.
      * destruct (IH (a + 1)) as (t & c & -> & Hrun); [lia|].
        simpl. eexists _, c. split; [reflexivity|]. now constructor.
      * eexists _, Queue.Return. split; [reflexivity|]. now constructor.
    + exists [], Queue.Continue. split; [reflexivity|]. now constructor.
Qed.

(** *** What one pass contains *)

Definition nonterminalLogs (t : list Event) : Prop :=
  Forall (fun entry => terminal (log_status entry) = false) (logs t).

Definition nonterminalCallbacks (t : list Event) : Prop :=
  Forall (fun c => terminal (cb_status c) = false) (callbacks t).

Lemma notify_callbacks c : callbacks (notify c) = [c].
Proof. unfold notify. destruct (N8n.enabled n8n); reflexivity. Qed.

Lemma notify_posts c : posts (notify c) = if N8n.enabled n8n then [c] else [].
Proof. unfold notify. destruct (N8n.enabled n8n); reflexivity. Qed.

Lemma notify_silent c :
  logs (notify c) = [] /\ sends (notify c) = [] /\ sentMedia (notify c) = []
  /\ sleeps (notify c) = [].
Proof. unfold notify. destruct (N8n.enabled n8n); repeat split; reflexivity. Qed.

(** After [sendMessage] a pass writes one row, uploads, calls the notifier
    once with the status of that row, and sleeps at most once. *)
Lemma afterSend_shape k :
  exists entry c ups naps,
    fst (afterSend k) = EvLog entry :: map EvUpload ups ++ notify c ++ map EvSleep naps
    /\ log_status entry = cb_status c
    /\ log_attempt entry = k /\ cb_attempt c = k
    /\ match snd (afterSend k) with
       | Queue.Continue => log_status entry = RETRYING /\ naps = [Queue.retryDelay k]
       | Queue.Return => terminal (log_status entry) = true
       end.
Proof.
  unfold afterSend.
  destruct (sendResult k) as [r|e].
  - destruct (success r); [|destruct (Queue.shouldRetry cfg k r)];
      eexists _, _, (screenshotPaths r), [_]; simpl;
      repeat split; reflexivity.
  - eexists _, _, [], []. simpl. rewrite app_nil_r. repeat split; reflexivity.
Qed.

Ltac project_pass :=
  rewrite ?logs_app, ?callbacks_app, ?posts_app, ?sends_app, ?sentMedia_app,
    ?sleeps_app;
  repeat match goal with
  | |- context [logs (map EvUpload ?u)] =>
      rewrite (proj1 (uploads_silent u))
  | |- context [callbacks (map EvUpload ?u)] =>
      rewrite (proj1 (proj2 (uploads_silent u)))
  | |- context [posts (map EvUpload ?u)] =>
      rewrite (proj1 (proj2 (proj2 (uploads_silent u))))
  | |- context [sends (map EvUpload ?u)] =>
      rewrite (proj1 (proj2 (proj2 (proj2 (uploads_silent u)))))
  | |- context [sentMedia (map EvUpload ?u)] =>
      rewrite (proj1 (proj2 (proj2 (proj2 (proj2 (uploads_silent u))))))
  | |- context [sleeps (map EvUpload ?u)] =>
      rewrite (proj2 (proj2 (proj2 (proj2 (proj2 (uploads_silent u))))))
  | |- context [logs (notify ?c)] => rewrite (proj1 (notify_silent c))
  | |- context [sends (notify ?c)] => rewrite (proj1 (proj2 (notify_silent c)))
  | |- context [sentMedia (notify ?c)] =>
      rewrite (proj1 (proj2 (proj2 (notify_silent c))))
  | |- context [sleeps (notify ?c)] =>
      rewrite (proj2 (proj2 (proj2 (notify_silent c))))
  | |- context [callbacks (notify ?c)] => rewrite (notify_callbacks c)
  | |- context [posts (notify ?c)] => rewrite (notify_posts c)
  end.

Lemma naps_silent naps :
  logs (map EvSleep naps) = [] /\ callbacks (map EvSleep naps) = [] /\
  posts (map EvSleep naps) = [] /\ sends (map EvSleep naps) = [] /\
  sentMedia (map EvSleep naps) = [] /\ sleeps (map EvSleep naps) = naps.
Proof.
  repeat split; induction naps; simpl; auto. now f_equal.
Qed.

(** The projections of a pass. *)
Lemma pass_contents k :
  exists entry c,
    logs (passTrace k) = [logEntry k SENDING None None None None; entry]
    /\ callbacks (passTrace k) = [c]
    /\ posts (passTrace k) = (if N8n.enabled n8n then [c] else [])
    /\ sends (passTrace k) = [k]
    /\ sentMedia (passTrace k) = [sendArg]
    /\ log_status entry = cb_status c
    /\ log_attempt entry = k /\ cb_attempt c = k
    /\ match snd (afterSend k) with
       | Queue.Continue =>
           log_status entry = RETRYING /\ sleeps (fst (afterSend k)) = [Queue.retryDelay k]
       | Queue.Return => terminal (log_status entry) = true
       end.
Proof.
  destruct (afterSend_shape k) as (entry & c & ups & naps & E & Hst & Hk & Hk' & Hend).
  exists entry, c. unfold passTrace. rewrite E.
  destruct (naps_silent naps) as (N1 & N2 & N3 & N4 & N5 & N6).
  match goal with
  | |- context [?a :: ?b :: ?c :: ?rest] =>
      change (a :: b :: c :: rest) with ([a; b; c] ++ rest)
  end.
  repeat split; try assumption; project_pass;
    rewrite ?N1, ?N2, ?N3, ?N4, ?N5, ?N6; try reflexivity.
  - destruct (N8n.enabled n8n); reflexivity.
  - destruct (snd (afterSend k)); [|assumption].
    destruct Hend as [-> ->]. split; [reflexivity|].
    change (EvLog entry :: ?rest) with ([EvLog entry] ++ rest).
    project_pass. rewrite N6. reflexivity.
Qed.

(** *** Facts about the retry test *)

Lemma isRetryableError_empty : isRetryableError EmptyString = false.
Proof. reflexivity. Qed.

Lemma shouldRetry_spec k r :
  Queue.shouldRetry cfg k r = true <->
  k < maxRetries cfg /\ exists c, errorCode r = Some c /\ isRetryableError c = true.
Proof.
  unfold Queue.shouldRetry. rewrite !andb_true_iff, Z.ltb_lt. split.
  - intros [[Hk Ht] Hr]. split; [assumption|].
    destruct (errorCode r) as [c|]; [|discriminate]. now exists c.
  - intros [Hk (c & -> & Hr)]. repeat split; try assumption.
    simpl. destruct c; [discriminate|reflexivity].
Qed.

Lemma afterSend_continue k :
  snd (afterSend k) = Queue.Continue <->
  exists r, sendResult k = Ok r /\ success r = false
            /\ Queue.shouldRetry cfg k r = true.
Proof.
  unfold afterSend. split.
  - destruct (sendResult k) as [r|e]; [|discriminate].
    destruct (success r) eqn:Hs; [discriminate|].
    destruct (Queue.shouldRetry cfg k r) eqn:Hr; [|discriminate].
    intros _. now exists r.
  - intros (r & -> & -> & ->). reflexivity.
Qed.

Lemma afterSend_continue_lt k :
  snd (afterSend k) = Queue.Continue -> k < maxRetries cfg.
Proof.
  intros H. apply afterSend_continue in H. destruct H as (r & _ & _ & H).
  now apply shouldRetry_spec in H.
Qed.

(** *** Facts about the runs of the loop *)

(** A loop that is entered below the limit is left by [return]. *)
Lemma LoopRun_return a t c :
  LoopRun a t c -> a < maxRetries cfg -> c = Queue.Return.
Proof.
  induction 1 as [a Hge|a Hlt Hend|a t c Hlt Hend Hrun IH]; intros Ha.
  - lia.
  - reflexivity.
  - apply IH. now apply afterSend_continue_lt.
Qed.

(** A loop entered below the limit starts with a pass. *)
Lemma LoopRun_first a t c :
  LoopRun a t c -> a < maxRetries cfg ->
  exists rest, t = passTrace (a + 1) ++ rest.
Proof.
  destruct 1; intros Ha.
  - lia.
  - exists []. now rewrite app_nil_r.
  - now exists t.
Qed.

(** The attempts are numbered consecutively and stop at the limit. *)
Lemma LoopRun_sends a t c :
  LoopRun a t c ->
  exists n : nat,
    sends t = map (fun i => a + Z.of_nat i) (seq 1 n)
    /\ a + Z.of_nat n <= Z.max a (maxRetries cfg).
Proof.
  induction 1 as [a Hge|a Hlt Hend|a t c Hlt Hend Hrun IH].
  - exists 0%nat. split; [reflexivity|lia].
  - exists 1%nat. destruct (pass_contents (a + 1)) as (? & ? & _ & _ & _ & -> & _).
    split; [reflexivity|lia].
  - destruct IH as (n & Hs & Hn). exists (S n).
    rewrite sends_app, Hs.
    destruct (pass_contents (a + 1)) as (? & ? & _ & _ & _ & -> & _).
    split; [|lia].
    change (seq 1 (S n)) with (1%nat :: seq 2 n).
    rewrite <- (seq_shift n 1). cbn [map app]. rewrite map_map.
    f_equal; try lia. apply map_ext. intros i. lia.
Qed.

Lemma LoopRun_sends_range a t c k :
  LoopRun a t c -> In k (sends t) -> a < k <= maxRetries cfg.
Proof.
  intros Hrun Hin. apply LoopRun_sends in Hrun as (n & Hs & Hn).
  rewrite Hs in Hin. apply in_map_iff in Hin. destruct Hin as (i & <- & Hi).
  apply in_seq in Hi. lia.
Qed.

(** Every attempt that is made is a pass of the loop; what is before it are
    passes that ended in a retry, what is after it is the rest of the loop. *)
Lemma LoopRun_split a t c :
  LoopRun a t c -> forall k, In k (sends t) ->
  exists pre post,
    t = pre ++ passTrace k ++ post
    /\ nonterminalLogs pre /\ nonterminalCallbacks pre
    /\ Forall (fun j => j < k) (sends pre)
    /\ match snd (afterSend k) with
       | Queue.Return => post = [] /\ c = Queue.Return
       | Queue.Continue => LoopRun k post c
       end.
Proof.
  induction 1 as [a Hge|a Hlt Hend|a t c Hlt Hend Hrun IH]; intros k Hin.
  - destruct Hin.
  - destruct (pass_contents (a + 1)) as (? & ? & _ & _ & _ & Hs & _).
    rewrite Hs in Hin. destruct Hin as [<-|[]].
    exists [], []. rewrite Hend, app_nil_r. repeat split; constructor.
  - rewrite sends_app in Hin.
    destruct (pass_contents (a + 1))
      as (entry & cb & Hl & Hc & _ & Hs & _ & Hst & _ & _ & Hk).
    rewrite Hend in Hk. destruct Hk as [Hre _].
    rewrite Hs in Hin. destruct Hin as [<-|Hin].
    + exists [], t. rewrite Hend. repeat split; try constructor. assumption.
    + simpl in Hin. pose proof (LoopRun_sends_range (a + 1) t c k Hrun Hin) as Hrange.
      destruct (IH k Hin) as (pre & post & -> & Hnl & Hnc & Hlt' & Hpost).
      exists (passTrace (a + 1) ++ pre), post.
      rewrite <- app_assoc. repeat split.
      * unfold nonterminalLogs. rewrite logs_app, Hl.
        apply Forall_app. split; [|assumption].
        repeat constructor. now rewrite Hre.
      * unfold nonterminalCallbacks. rewrite callbacks_app, Hc.
        apply Forall_app. split; [|assumption].
        repeat constructor. now rewrite <- Hst, Hre.
      * rewrite sends_app, Hs. constructor; [lia|assumption].
      * assumption.
Qed.

Lemma LoopRun_posts a t c :
  LoopRun a t c -> posts t = (if N8n.enabled n8n then callbacks t else []).
Proof.
  induction 1 as [a Hge|a Hlt Hend|a t c Hlt Hend Hrun IH].
  - now destruct (N8n.enabled n8n).
  - destruct (pass_contents (a + 1)) as (? & ? & _ & -> & -> & _). reflexivity.
  - rewrite posts_app, callbacks_app, IH.
    destruct (pass_contents (a + 1)) as (? & ? & _ & -> & -> & _).
    now destruct (N8n.enabled n8n).
Qed.

Lemma LoopRun_outcome a t c :
  LoopRun a t c -> c = Queue.Return -> one_terminal_outcome n8n t.
Proof.
  intros Hrun. pose proof (LoopRun_posts a t c Hrun) as Hposts. revert Hposts.
  induction Hrun as [a Hge|a Hlt Hend|a t c Hlt Hend Hrun IH]; intros Hposts Hc.
  - discriminate.
  - destruct (pass_contents (a + 1))
      as (entry & cb & Hl & Hcb & _ & _ & _ & Hst & _ & _ & Hk).
    rewrite Hend in Hk.
    exists [logEntry (a + 1) SENDING None None None None], entry, [], cb.
    rewrite Hl, Hcb. repeat split; try assumption.
    + repeat constructor.
    + now rewrite <- Hst.
    + constructor.
    + now symmetry.
    + now rewrite Hposts, Hcb.
  - destruct (IH (LoopRun_posts _ _ _ Hrun) Hc)
      as (rows & entry & calls & cb & Hl & Ht & Hrows & Hcb & Ht' & Hcalls & Hst & _).
    destruct (pass_contents (a + 1))
      as (entry1 & cb1 & Hl1 & Hcb1 & _ & _ & _ & Hst1 & _ & _ & Hk).
    rewrite Hend in Hk. destruct Hk as [Hre _].
    exists ([logEntry (a + 1) SENDING None None None None; entry1] ++ rows), entry,
           ([cb1] ++ calls), cb.
    rewrite logs_app, callbacks_app, Hl, Hcb, Hl1, Hcb1, <- ?app_assoc.
    repeat split; try assumption.
    + repeat constructor; [now rewrite Hre|assumption].
    + constructor; [now rewrite <- Hst1, Hre|assumption].
    + now rewrite Hposts, callbacks_app, Hcb, Hcb1.
Qed.

Lemma LoopRun_notified a t c :
  LoopRun a t c -> notified_after_every_attempt t.
Proof.
  unfold notified_after_every_attempt.
  induction 1 as [a Hge|a Hlt Hend|a t c Hlt Hend Hrun IH].
  - repeat split; constructor.
  - destruct (pass_contents (a + 1))
      as (entry & cb & -> & -> & _ & -> & _ & Hst & Hk1 & Hk2 & Hk).
    rewrite Hend in Hk.
    assert (Hs : is_sending (log_status entry) = false)
      by (destruct (log_status entry); (discriminate || reflexivity)).
    simpl. rewrite Hs. simpl. unfold log_key, cb_key.
    rewrite Hst, Hk1, Hk2. repeat split.
    repeat constructor. now rewrite <- Hst.
  - destruct IH as (IH1 & IH2 & IH3).
    rewrite logs_app, callbacks_app, sends_app, !filter_app, !map_app, IH1, IH2.
    destruct (pass_contents (a + 1))
      as (entry & cb & -> & -> & _ & -> & _ & Hst & Hk1 & Hk2 & Hk).
    rewrite Hend in Hk. destruct Hk as [Hre _].
    assert (Hs : is_sending (log_status entry) = false) by now rewrite Hre.
    simpl. rewrite Hs. simpl. unfold log_key, cb_key.
    rewrite Hst, Hk1, Hk2. repeat split.
    constructor; [now rewrite <- Hst|assumption].
Qed.

(** A pass is the attempt of its number. *)
Lemma pass_attempt_events k : attempt_events k (passTrace k).
Proof.
  destruct (afterSend_shape k) as (entry & c & ups & naps & E & Hst & Hk & Hk' & Hend).
  destruct (naps_silent naps) as (N1 & N2 & _ & N4 & _).
  exists (logEntry k SENDING None None None None), (phone p), (text p), sendArg,
    entry, ups, c,
    ((if N8n.enabled n8n then [EvPost (N8n.webhookUrl n8n) c] else [])
     ++ map EvSleep naps).
  split; [unfold passTrace; rewrite E; reflexivity|].
  split; [reflexivity|]. split; [reflexivity|].
  split.
  { destruct (snd (afterSend k)).
    - destruct Hend as [-> _]. right. now left.
    - destruct (log_status entry); try discriminate; [now left|right; right; now left]. }
  split; [assumption|]. split; [now symmetry|]. split; [assumption|].
  rewrite logs_app, callbacks_app, sends_app, N1, N2, N4.
  destruct (N8n.enabled n8n); repeat split; reflexivity.
Qed.

(** A run of the loop entered with [attempt = a] is made of the attempts
    [a + 1], [a + 2], ... *)
Lemma LoopRun_attempts a t c :
  LoopRun a t c ->
  exists segs,
    t = List.concat segs
    /\ Forall2 attempt_events
         (map (fun i => a + Z.of_nat i) (seq 1 (List.length segs))) segs.
Proof.
  induction 1 as [a Hge|a Hlt Hend|a t c Hlt Hend Hrun IH].
  - exists []. split; [reflexivity|constructor].
  - exists [passTrace (a + 1)]. cbn [List.concat List.length seq map].
    split; [now rewrite app_nil_r|].
    constructor; [apply pass_attempt_events|constructor].
  - destruct IH as (segs & -> & IH).
    exists (passTrace (a + 1) :: segs). cbn [List.concat List.length seq map].
    split; [reflexivity|].
    constructor; [apply pass_attempt_events|].
    rewrite <- (seq_shift _ 1), map_map.
    erewrite map_ext; [exact IH|]. intros i. cbn beta. lia.
Qed.

Lemma LoopRun_media a t c :
  LoopRun a t c -> Forall (fun m => m = sendArg) (sentMedia t).
Proof.
  induction 1 as [a Hge|a Hlt Hend|a t c Hlt Hend Hrun IH].
  - constructor.
  - destruct (pass_contents (a + 1)) as (? & ? & _ & _ & _ & _ & -> & _).
    repeat constructor.
  - rewrite sentMedia_app.
    destruct (pass_contents (a + 1)) as (? & ? & _ & _ & _ & _ & -> & _).
    now constructor.
Qed.

End Attempt.

(** ** A whole message *)

Section Message.

Variable cfg : QueueConfig.
Variable n8n : N8n.Service.
Variable w : World.
Variable p : WebhookPayload.

(** The event of the staging step. *)
Definition stageTrace : list Event :=
  match media p with
  | Some ((_ :: _) as files) => [EvStage files]
  | _ => []
  end.

(** [mediaFilePaths] when the loop starts. *)
Definition stagedPaths : list string :=
  match media p with
  | Some ((_ :: _) as files) =>
      match w_saveMediaFiles w files with
      | Ok paths => paths
      | Throw _ => []
      end
  | _ => []
  end.

(** The event of the [finally] block. *)
Definition cleanupTrace : list Event :=
  match stagedPaths with [] => [] | paths => [EvCleanup paths] end.

(** What [sendMessage] answers at attempt [k] of this message. *)
Definition attemptResult (k : Z) : Res MessageResult :=
  sendResult w p stagedPaths k.

Lemma stageMedia_run : Queue.stageMedia w p = (stageTrace, Ok stagedPaths).
Proof.
  unfold Queue.stageMedia, stageTrace, stagedPaths.
  destruct (media p) as [[|f files]|]; try reflexivity.
  simpl. destruct (w_saveMediaFiles w (f :: files)); reflexivity.
Qed.

Lemma stage_silent :
  logs stageTrace = [] /\ callbacks stageTrace = [] /\ posts stageTrace = []
  /\ sends stageTrace = [] /\ sentMedia stageTrace = [] /\ sleeps stageTrace = [].
Proof.
  unfold stageTrace. destruct (media p) as [[|f files]|]; repeat split; reflexivity.
Qed.

Lemma cleanup_silent :
  logs cleanupTrace = [] /\ callbacks cleanupTrace = [] /\ posts cleanupTrace = []
  /\ sends cleanupTrace = [] /\ sentMedia cleanupTrace = [] /\ sleeps cleanupTrace = [].
Proof.
  unfold cleanupTrace. destruct stagedPaths; repeat split; reflexivity.
Qed.

(** [processMessage] always returns normally; between staging and cleanup its
    trace is a run of the loop entered with [attempt = 0]. *)
Lemma processMessage_run :
  exists t c,
    Queue.processMessage cfg n8n w p
    = Some (stageTrace ++ t ++ cleanupTrace, Ok tt)
    /\ LoopRun cfg n8n w p stagedPaths 0 t c.
Proof.
  unfold Queue.processMessage, Queue.processMessageWith.
  rewrite stageMedia_run.
  destruct (whileLoop_run cfg n8n w p stagedPaths (Z.to_nat (maxRetries cfg)) 0)
    as (t & c & -> & Hrun); [lia|].
  exists t, c. split; [|assumption].
  unfold cleanupTrace, Queue.cleanup.
  destruct stagedPaths; simpl; rewrite ?app_nil_r; reflexivity.
Qed.

(** The projections of the whole trace are those of the loop. *)
Lemma message_projections t :
  logs (stageTrace ++ t ++ cleanupTrace) = logs t
  /\ callbacks (stageTrace ++ t ++ cleanupTrace) = callbacks t
  /\ posts (stageTrace ++ t ++ cleanupTrace) = posts t
  /\ sends (stageTrace ++ t ++ cleanupTrace) = sends t
  /\ sentMedia (stageTrace ++ t ++ cleanupTrace) = sentMedia t.
Proof.
  destruct stage_silent as (S1 & S2 & S3 & S4 & S5 & _).
  destruct cleanup_silent as (C1 & C2 & C3 & C4 & C5 & _).
  rewrite !logs_app, !callbacks_app, !posts_app, !sends_app, !sentMedia_app.
  rewrite S1, S2, S3, S4, S5, C1, C2, C3, C4, C5, !app_nil_r.
  repeat split; reflexivity.
Qed.

End Message.

(** ** Sample data *)

Module Sample.

Definition okStep : StepOutcome := {| pushed := []; failure := None |}.

(** A browser in which every step works and no error element shows up. *)
Definition goodBrowser : Browser :=
  {| page_ready := true;
     clickNewConversation := okStep; enterPhoneNumber := okStep;
     enterMessageText := okStep; attachMediaFiles := okStep;
     clickSendButton := {| pushed := ["before.png"; "after.png"]%string; failure := None |};
     verify_screenshot := None;
     query := fun _ => QueryNull;
     error_screenshot_path := "error.png";
     error_screenshot := None;
     elapsed := 15234 |}.

(** A browser in which entering the phone number times out. *)
Definition timeoutBrowser : Browser :=
  {| page_ready := true;
     clickNewConversation := okStep;
     enterPhoneNumber :=
       {| pushed := [];
          failure := Some {| err_name := "TimeoutError";
                             err_message := "Timeout 30000ms exceeded" |} |};
     enterMessageText := okStep; attachMediaFiles := okStep;
     clickSendButton := okStep;
     verify_screenshot := None;
     query := fun _ => QueryNull;
     error_screenshot_path := "error.png";
     error_screenshot := None;
     elapsed := 30100 |}.

(** What [sendMessage] answers in that browser. *)
Definition timeoutResult : MessageResult :=
  {| success := false; status := FAILED;
     error := Some "Timeout 30000ms exceeded"%string;
     errorCode := Some "TimeoutError"%string;
     screenshotPath := Some "error.png"%string;
     screenshotPaths := ["error.png"%string];
     durationMs := Some 30100 |}.

(** A driver whose page was never opened. *)
Definition closedBrowser : Browser :=
  {| page_ready := false;
     clickNewConversation := okStep; enterPhoneNumber := okStep;
     enterMessageText := okStep; attachMediaFiles := okStep;
     clickSendButton := okStep;
     verify_screenshot := None;
     query := fun _ => QueryNull;
     error_screenshot_path := "error.png";
     error_screenshot := None;
     elapsed := 0 |}.

(** A world built around a browser schedule: the sinks work, the disk is
    full. *)
Definition worldOf (browser : Z -> Browser) : World :=
  {| w_browser := browser;
     w_insert := fun _ => InsertOk;
     w_fetch := fun _ => FetchResponse true 200 (Ok EmptyString);
     w_upload := fun path => Uploaded ("https://storage/" +++ path);
     w_saveMediaFiles := fun _ => Throw (newError "ENOSPC: no space left on device");
     w_hashText := fun body => body;
     w_logTime := fun _ _ => "2026-01-17T10:30:45.123Z"%string;
     w_callbackTime := fun _ _ => "2026-01-17T10:30:45.123Z"%string;
     w_random := fun _ => 0 |}.

(** Two timeouts, then success. *)
Definition flakyWorld : World :=
  worldOf (fun k => if k <? 3 then timeoutBrowser else goodBrowser).

Definition goodWorld : World := worldOf (fun _ => goodBrowser).

(** A timeout at the first attempt, a closed page at the second. *)
Definition crashingWorld : World :=
  worldOf (fun k => if k <? 2 then timeoutBrowser else closedBrowser).

Definition defaults : QueueConfig :=
  {| minDelay := 8000; maxDelay := 20000; maxRetries := 3 |}.

Definition noAttempts : QueueConfig :=
  {| minDelay := 8000; maxDelay := 20000; maxRetries := 0 |}.

Definition notifier : N8n.Service := {| N8n.webhookUrl := "https://n8n.example/webhook/x" |}.

Definition hello : WebhookPayload :=
  {| phone := "+15551234567"; text := "hello"; external_id := None; media := None |}.

Definition picture : MediaFile :=
  {| filename := "a.png"; mimeType := "image/png"; data := "AAAA" |}.

Definition helloWithPicture : WebhookPayload :=
  {| phone := "+15551234567"; text := "hello"; external_id := None;
     media := Some [picture] |}.

Definition twelvePictures : WebhookPayload :=
  {| phone := "+15551234567"; text := "hello"; external_id := None;
     media := Some (repeat picture 12) |}.

End Sample.

(** ** C1: one terminal record and one terminal callback *)

(** C1, as the claim states it: whatever the configuration, a processed
    message ends with exactly one terminal audit row and one terminal
    callback, with nothing terminal before them. *)
Definition C1_statement (cfg : QueueConfig) (n8n : N8n.Service) (w : World)
  (p : WebhookPayload) : Prop :=
  exists t, Queue.processMessage cfg n8n w p = Some (t, Ok tt)
            /\ one_terminal_outcome n8n t.

(** C1 (amended): when [maxRetries] is at least 1, [processMessage] returns
    normally and its trace has exactly one terminal audit row (the last
    one) and exactly one terminal callback (the last one) with the same
    status; every row and callback before them is non-terminal, and each
    callback is posted exactly when the notifier has a URL. *)
Theorem one_terminal_record_and_callback cfg n8n w p :
  1 <= maxRetries cfg -> C1_statement cfg n8n w p.
Proof.
  intros Hmax. unfold C1_statement.
  destruct (processMessage_run cfg n8n w p) as (t & c & -> & Hrun).
  eexists. split; [reflexivity|].
  assert (Hc : c = Queue.Return)
    by (eapply LoopRun_return; [exact Hrun|lia]).
  destruct (LoopRun_outcome _ _ _ _ _ _ _ _ Hrun Hc)
    as (rows & entry & calls & cb & H1 & H2 & H3 & H4 & H5 & H6 & H7 & H8).
  destruct (message_projections w p t) as (P1 & P2 & P3 & _).
  exists rows, entry, calls, cb. rewrite P1, P2, P3. repeat split; assumption.
Qed.

Lemma one_terminal_record_and_callback_witness :
  1 <= maxRetries Sample.defaults
  /\ C1_statement Sample.defaults Sample.notifier Sample.flakyWorld Sample.hello.
Proof.
  split; [simpl; lia|].
  apply one_terminal_record_and_callback. simpl. lia.
Defined.

(** C1 fails as stated: with [MAX_RETRIES=0] the loop body never runs, so
    the message gets no audit row and no callback at all. *)
Lemma no_record_without_attempts :
  Queue.processMessage Sample.noAttempts Sample.notifier Sample.goodWorld Sample.hello
  = Some ([], Ok tt)
  /\ ~ C1_statement Sample.noAttempts Sample.notifier Sample.goodWorld Sample.hello.
Proof.
  split; [reflexivity|].
  intros (t & Hrun & rows & entry & _ & _ & Hl & _).
  vm_compute in Hrun. injection Hrun as <-.
  destruct rows; discriminate.
Qed.

(** ** C2: the number of attempts *)

(** C2: [processMessage] returns; the attempts it makes are numbered
    1, 2, ..., n with n at most [maxRetries] (none when [maxRetries] is not
    positive); and attempt [k] is followed by attempt [k + 1] only if
    [k < maxRetries] and attempt [k] returned a failure whose error code is
    classified retryable. *)
Theorem attempts_bounded_by_maxRetries cfg n8n w p :
  exists t,
    Queue.processMessage cfg n8n w p = Some (t, Ok tt)
    /\ Z.of_nat (List.length (sends t)) <= Z.max 0 (maxRetries cfg)
    /\ sends t = map Z.of_nat (seq 1 (List.length (sends t)))
    /\ (forall k, In k (sends t) -> In (k + 1) (sends t) ->
        k < maxRetries cfg
        /\ exists r c, attemptResult w p k = Ok r /\ success r = false
                       /\ errorCode r = Some c /\ isRetryableError c = true).
Proof.
  destruct (processMessage_run cfg n8n w p) as (t & c & -> & Hrun).
  eexists. split; [reflexivity|].
  destruct (message_projections w p t) as (_ & _ & _ & -> & _).
  destruct (LoopRun_sends _ _ _ _ _ _ _ _ Hrun) as (n & Hs & Hn).
  assert (Hlen : List.length (sends t) = n)
    by (rewrite Hs; now rewrite length_map, length_seq).
  rewrite Hlen. repeat split.
  - lia.
  - rewrite Hs. apply map_ext. intros i. lia.
  - destruct (LoopRun_split _ _ _ _ _ _ _ _ Hrun k H)
      as (pre & post & -> & _ & _ & Hlt & Hend).
    destruct (snd (afterSend cfg n8n w p (stagedPaths w p) k)) eqn:E.
    + now apply afterSend_continue_lt in E.
    + exfalso. destruct Hend as [-> _].
      rewrite !sends_app, app_nil_r in H0.
      destruct (pass_contents cfg n8n w p (stagedPaths w p) k)
        as (? & ? & _ & _ & _ & Hk & _).
      rewrite Hk in H0. apply in_app_or in H0. destruct H0 as [H0|[H0|[]]]; [|lia].
      rewrite Forall_forall in Hlt. apply Hlt in H0. lia.
  - destruct (LoopRun_split _ _ _ _ _ _ _ _ Hrun k H)
      as (pre & post & -> & _ & _ & Hlt & Hend).
    destruct (snd (afterSend cfg n8n w p (stagedPaths w p) k)) eqn:E.
    + apply afterSend_continue in E. destruct E as (r & Hr & Hs' & Hre).
      apply shouldRetry_spec in Hre. destruct Hre as (_ & code & Hc & Hcl).
      now exists r, code.
    + exfalso. destruct Hend as [-> _].
      rewrite !sends_app, app_nil_r in H0.
      destruct (pass_contents cfg n8n w p (stagedPaths w p) k)
        as (? & ? & _ & _ & _ & Hk & _).
      rewrite Hk in H0. apply in_app_or in H0. destruct H0 as [H0|[H0|[]]]; [|lia].
      rewrite Forall_forall in Hlt. apply Hlt in H0. lia.
Qed.

(** ** C3: the backoff *)

(** What is slept after a retryable failure, on the values of the claim. *)
Example retryDelay_values :
  Queue.retryDelay 1 = 2000 /\ Queue.retryDelay 2 = 4000
  /\ Queue.retryDelay 4 = 16000 /\ Queue.retryDelay 5 = 30000.
Proof. repeat split; reflexivity. Qed.

(** C3: if attempt [k] of a message is made, fails with an error code that
    is classified retryable, and [k < maxRetries], then the trace has
    attempt [k + 1], and between the two calls of [sendMessage] the queue
    sleeps exactly once, for [min (1000 * 2^k) 30000] milliseconds. *)
Theorem backoff_between_attempts cfg n8n w p t k r c :
  Queue.processMessage cfg n8n w p = Some (t, Ok tt) ->
  In k (sends t) ->
  attemptResult w p k = Ok r ->
  success r = false ->
  errorCode r = Some c ->
  isRetryableError c = true ->
  k < maxRetries cfg ->
  exists pre mid post m m',
    t = pre ++ EvSend k (phone p) (text p) m
            :: mid ++ EvSend (k + 1) (phone p) (text p) m' :: post
    /\ sends mid = []
    /\ sleeps mid = [Z.min (1000 * 2 ^ k) 30000].
Proof.
  intros Hrun Hin Hr Hs Hc Hcl Hk.
  destruct (processMessage_run cfg n8n w p) as (lt & ctl & E & Hloop).
  rewrite E in Hrun. injection Hrun as <-.
  destruct (message_projections w p lt) as (_ & _ & _ & Hsends & _).
  rewrite Hsends in Hin.
  destruct (LoopRun_split _ _ _ _ _ _ _ _ Hloop k Hin)
    as (pre & post & -> & _ & _ & _ & Hend).
  assert (Hcont : snd (afterSend cfg n8n w p (stagedPaths w p) k) = Queue.Continue).
  { apply afterSend_continue. exists r. repeat split; try assumption.
    apply shouldRetry_spec. split; [assumption|]. now exists c. }
  rewrite Hcont in Hend.
  destruct (LoopRun_first _ _ _ _ _ _ _ _ Hend Hk) as (rest & ->).
  destruct (pass_contents cfg n8n w p (stagedPaths w p) k)
    as (? & ? & _ & _ & _ & Hsk & _ & _ & _ & _ & Hslept).
  rewrite Hcont in Hslept. destruct Hslept as [_ Hslept].
  unfold passTrace in *.
  exists (stageTrace p ++ pre
          ++ [EvLog (logEntry w p k SENDING None None None None)]),
         (fst (afterSend cfg n8n w p (stagedPaths w p) k)
          ++ [EvLog (logEntry w p (k + 1) SENDING None None None None)]),
         (fst (afterSend cfg n8n w p (stagedPaths w p) (k + 1)) ++ rest
          ++ cleanupTrace w p),
         (sendArg (stagedPaths w p)), (sendArg (stagedPaths w p)).
  repeat split.
  - repeat (rewrite <- ?app_assoc; cbn [app]). reflexivity.
  - rewrite sends_app, app_nil_r. now injection Hsk.
  - rewrite sleeps_app, app_nil_r. exact Hslept.
Qed.

Lemma backoff_between_attempts_witness :
  exists t pre mid post m m',
    Queue.processMessage Sample.defaults Sample.notifier Sample.flakyWorld Sample.hello
    = Some (t, Ok tt)
    /\ t = pre ++ EvSend 1 "+15551234567" "hello" m
              :: mid ++ EvSend 2 "+15551234567" "hello" m' :: post
    /\ sends mid = []
    /\ sleeps mid = [2000].
Proof.
  assert (E : exists t,
             Queue.processMessage Sample.defaults Sample.notifier Sample.flakyWorld
               Sample.hello = Some (t, Ok tt)
             /\ In 1 (sends t)).
  { eexists. split; [vm_compute; reflexivity|]. vm_compute. auto. }
  destruct E as (t & E & Hin).
  edestruct (backoff_between_attempts
               Sample.defaults Sample.notifier Sample.flakyWorld Sample.hello
               t 1 Sample.timeoutResult "TimeoutError" E Hin)
    as (pre & mid & post & m & m' & H1 & H2 & H3).
  - reflexivity.
  - reflexivity.
  - reflexivity.
  - reflexivity.
  - simpl. lia.
  - exists t, pre, mid, post, m, m'. repeat split; assumption.
Defined.

Lemma attempts_bounded_by_maxRetries_witness :
  exists t,
    Queue.processMessage Sample.defaults Sample.notifier Sample.flakyWorld Sample.hello
    = Some (t, Ok tt)
    /\ sends t = [1; 2; 3]
    /\ 1 < maxRetries Sample.defaults
    /\ exists r c, attemptResult Sample.flakyWorld Sample.hello 1 = Ok r
                   /\ success r = false /\ errorCode r = Some c
                   /\ isRetryableError c = true.
Proof.
  destruct (attempts_bounded_by_maxRetries
              Sample.defaults Sample.notifier Sample.flakyWorld Sample.hello)
    as (t & E & _ & _ & Hnext).
  assert (Hs : sends t = [1; 2; 3]).
  { vm_compute in E. injection E as <-. reflexivity. }
  exists t. split; [exact E|]. split; [exact Hs|].
  apply (Hnext 1); rewrite Hs; simpl; auto.
Defined.

(** ** C4: an exception out of [sendMessage] *)

Lemma no_failed_among_nonterminal (rows : list MessageLog) :
  Forall (fun e => terminal (log_status e) = false) rows ->
  filter (fun x => status_eqb (log_status x) FAILED) rows = [].
Proof.
  induction 1 as [|e rows He _ IH]; [reflexivity|].
  simpl. rewrite IH. destruct (log_status e); (discriminate || reflexivity).
Qed.

Lemma no_failed_among_nonterminal_callbacks (calls : list N8nCallbackPayload) :
  Forall (fun c => terminal (cb_status c) = false) calls ->
  filter (fun x => status_eqb (cb_status x) FAILED) calls = [].
Proof.
  induction 1 as [|c calls Hc _ IH]; [reflexivity|].
  simpl. rewrite IH. destruct (cb_status c); (discriminate || reflexivity).
Qed.

(** C4: if attempt [k] is made and [sendMessage] throws [e] instead of
    returning a result, the next two events are the audit row
    ([FAILED], [UNEXPECTED_ERROR], the message of [e]) and the callback
    ([failed], [UNEXPECTED_ERROR]); they are the only [FAILED] row and the
    only failed callback of the message; and nothing else follows: no
    further attempt, row, callback or sleep, whatever [maxRetries] is. *)
Theorem unexpected_exception_is_terminal cfg n8n w p t k e :
  Queue.processMessage cfg n8n w p = Some (t, Ok tt) ->
  In k (sends t) ->
  attemptResult w p k = Throw e ->
  exists pre post entry c m,
    t = pre ++ EvSend k (phone p) (text p) m :: EvLog entry :: EvCallback c :: post
    /\ log_status entry = FAILED /\ log_attempt entry = k
    /\ error_code entry = Some "UNEXPECTED_ERROR"%string
    /\ error_text entry = Some (err_message e)
    /\ cb_status c = FAILED /\ cb_success c = false /\ cb_attempt c = k
    /\ cb_error c = Some {| code := Some "UNEXPECTED_ERROR"%string;
                            message := Some (err_message e) |}
    /\ filter (fun x => status_eqb (log_status x) FAILED) (logs t) = [entry]
    /\ filter (fun x => status_eqb (cb_status x) FAILED) (callbacks t) = [c]
    /\ Forall (fun j => j < k) (sends pre)
    /\ sends post = [] /\ logs post = [] /\ callbacks post = [] /\ sleeps post = [].
Proof.
  intros Hrun Hin Hthrow.
  destruct (processMessage_run cfg n8n w p) as (lt & ctl & E & Hloop).
  rewrite E in Hrun. injection Hrun as <-.
  destruct (message_projections w p lt) as (Pl & Pc & _ & Ps & _).
  rewrite Ps in Hin. rewrite Pl, Pc.
  destruct (LoopRun_split _ _ _ _ _ _ _ _ Hloop k Hin)
    as (pre & post & -> & Hnl & Hnc & Hlt & Hend).
  unfold attemptResult in Hthrow.
  assert (Hafter : afterSend cfg n8n w p (stagedPaths w p) k
                   = (EvLog (logEntry w p k FAILED (Some "UNEXPECTED_ERROR"%string)
                               (Some (err_message e)) None None)
                      :: notify n8n (unexpectedCallback w p k e), Queue.Return))
    by (unfold afterSend; now rewrite Hthrow).
  rewrite Hafter in Hend. destruct Hend as [-> _].
  unfold passTrace. rewrite Hafter. cbn [fst].
  destruct (stage_silent p) as (_ & _ & _ & S4 & _).
  destruct (cleanup_silent w p) as (C1 & C2 & _ & C4 & _ & C6).
  exists (stageTrace p ++ pre ++ [EvLog (logEntry w p k SENDING None None None None)]),
         ((if N8n.enabled n8n
           then [EvPost (N8n.webhookUrl n8n) (unexpectedCallback w p k e)] else [])
          ++ cleanupTrace w p),
         (logEntry w p k FAILED (Some "UNEXPECTED_ERROR"%string)
            (Some (err_message e)) None None),
         (unexpectedCallback w p k e), (sendArg (stagedPaths w p)).
  repeat split.
  - unfold notify. repeat (rewrite <- ?app_assoc; cbn [app]). reflexivity.
  - rewrite !logs_app, app_nil_r, filter_app.
    rewrite (no_failed_among_nonterminal _ Hnl). unfold notify.
    destruct (N8n.enabled n8n); reflexivity.
  - rewrite !callbacks_app, app_nil_r, filter_app.
    rewrite (no_failed_among_nonterminal_callbacks _ Hnc). unfold notify.
    destruct (N8n.enabled n8n); reflexivity.
  - rewrite !sends_app, S4, app_nil_r. exact Hlt.
  - rewrite sends_app, C4. now destruct (N8n.enabled n8n).
  - rewrite logs_app, C1. now destruct (N8n.enabled n8n).
  - rewrite callbacks_app, C2. now destruct (N8n.enabled n8n).
  - rewrite sleeps_app, C6. now destruct (N8n.enabled n8n).
Qed.

Lemma unexpected_exception_is_terminal_witness :
  exists t pre post entry c m,
    Queue.processMessage Sample.defaults Sample.notifier Sample.crashingWorld
      Sample.hello = Some (t, Ok tt)
    /\ t = pre ++ EvSend 2 "+15551234567" "hello" m :: EvLog entry :: EvCallback c :: post
    /\ log_status entry = FAILED
    /\ error_code entry = Some "UNEXPECTED_ERROR"%string
    /\ filter (fun x => status_eqb (log_status x) FAILED) (logs t) = [entry]
    /\ filter (fun x => status_eqb (cb_status x) FAILED) (callbacks t) = [c]
    /\ sends post = [].
Proof.
  assert (E : exists t,
             Queue.processMessage Sample.defaults Sample.notifier Sample.crashingWorld
               Sample.hello = Some (t, Ok tt)
             /\ In 2 (sends t)).
  { eexists. split; [vm_compute; reflexivity|]. vm_compute. auto. }
  destruct E as (t & E & Hin).
  destruct (unexpected_exception_is_terminal
              Sample.defaults Sample.notifier Sample.crashingWorld Sample.hello
              t 2 (newError "Browser not initialized. Call initialize() first.")
              E Hin eq_refl)
    as (pre & post & entry & c & m & H).
  exists t, pre, post, entry, c, m. intuition.
Defined.

(** ** C7: which transitions reach which sink *)

(** C7 (amended): [processMessage] returns, and its trace is made of the
    attempts 1, 2, ... in order: each has its [SENDING] row, then the call
    of [sendMessage], then one row [SENT], [RETRYING] or [FAILED], then one
    callback with the status and the attempt number of that row, and no
    other row, callback or call; nothing before the first attempt or after
    the last is a row, a callback or a call.  So every audit row other than
    the [SENDING] ones is matched, in order, by a callback with the same
    status and attempt number, each call of [sendMessage] has its [SENDING]
    row, and no callback carries the status [SENDING]. *)
Theorem notifier_skips_sending cfg n8n w p :
  exists t,
    Queue.processMessage cfg n8n w p = Some (t, Ok tt)
    /\ attempts_in_order t
    /\ notified_after_every_attempt t.
Proof.
  destruct (processMessage_run cfg n8n w p) as (t & c & -> & Hrun).
  eexists. split; [reflexivity|]. split.
  - destruct (LoopRun_attempts _ _ _ _ _ _ _ _ Hrun) as (segs & -> & Hsegs).
    destruct (stage_silent p) as (S1 & S2 & _ & S4 & _).
    destruct (cleanup_silent w p) as (C1 & C2 & _ & C4 & _).
    exists (stageTrace p), segs, (cleanupTrace w p).
    repeat split; try assumption.
  - apply LoopRun_notified in Hrun. unfold notified_after_every_attempt in *.
    destruct (message_projections w p t) as (-> & -> & _ & -> & _). exact Hrun.
Qed.

(** C7 fails as stated: a message sent at the first attempt has the rows
    [SENDING] and [SENT] but the single callback [SENT]; the start of the
    attempt is not notified. *)
Lemma sending_is_not_notified :
  exists t,
    Queue.processMessage Sample.defaults Sample.notifier Sample.goodWorld Sample.hello
    = Some (t, Ok tt)
    /\ map log_key (logs t) = [(SENDING, 1); (SENT, 1)]
    /\ map cb_key (callbacks t) = [(SENT, 1)]
    /\ ~ notified_at_every_transition t.
Proof.
  eexists. split; [vm_compute; reflexivity|].
  split; [reflexivity|]. split; [reflexivity|].
  unfold notified_at_every_transition. vm_compute. discriminate.
Qed.

(** ** C10: attachments that cannot be staged *)

(** The same request without its attachments. *)
Definition without_media (p : WebhookPayload) : WebhookPayload :=
  {| phone := phone p; text := text p; external_id := external_id p; media := None |}.

Lemma whileLoop_ignores_media cfg n8n w p paths fuel :
  forall a,
    Queue.whileLoop cfg n8n w fuel (without_media p) paths a
    = Queue.whileLoop cfg n8n w fuel p paths a.
Proof.
  induction fuel as [|fuel IH]; intros a; simpl; [reflexivity|].
  rewrite IH. reflexivity.
Qed.

Lemma processMessage_unstaged cfg n8n w p file files e :
  media p = Some (file :: files) ->
  w_saveMediaFiles w (file :: files) = Throw e ->
  Queue.processMessage cfg n8n w p
  = option_map (fun m : M unit => (EvStage (file :: files) :: fst m, snd m))
               (Queue.processMessage cfg n8n w (without_media p)).
Proof.
  intros Hmedia Hsave.
  unfold Queue.processMessage, Queue.processMessageWith.
  unfold Queue.stageMedia. cbn [media without_media]. rewrite Hmedia.
  unfold try_catch, bind, emit, lift, ret. rewrite Hsave. cbn [app].
  rewrite whileLoop_ignores_media.
  destruct (Queue.whileLoop cfg n8n w _ p [] 0) as [[lt lr]|]; reflexivity.
Qed.

(** C10: if the request has attachments and [saveMediaFiles] throws,
    [processMessage] still returns normally; after the staging event its
    trace is, event for event, the trace of the same request without
    attachments: every call of [sendMessage] gets no media, nothing is
    cleaned up, the first attempt is made when [maxRetries] allows one, and
    a successful attempt [k] is recorded and reported as [SENT] by a row and
    a callback that do not mention the attachments. *)
Theorem staging_failure_sends_text_only cfg n8n w p file files e :
  media p = Some (file :: files) ->
  w_saveMediaFiles w (file :: files) = Throw e ->
  exists t,
    Queue.processMessage cfg n8n w p = Some (EvStage (file :: files) :: t, Ok tt)
    /\ Queue.processMessage cfg n8n w (without_media p) = Some (t, Ok tt)
    /\ Forall (fun m => m = None) (sentMedia t)
    /\ (1 <= maxRetries cfg ->
        exists rest,
          t = EvLog (logEntry w p 1 SENDING None None None None)
              :: EvSend 1 (phone p) (text p) None :: rest)
    /\ (forall k r, In k (sends t) ->
          OpenPhone.sendMessage (w_browser w k) (phone p) (text p) None = Ok r ->
          success r = true ->
          In (logEntry w p k SENT None None (durationMs r) None) (logs t)
          /\ In (sentCallback w p k r) (callbacks t)).
Proof.
  intros Hmedia Hsave.
  destruct (processMessage_run cfg n8n w (without_media p)) as (t & c & E & Hrun).
  change (stageTrace (without_media p)) with (@nil Event) in E.
  change (cleanupTrace w (without_media p)) with (@nil Event) in E.
  change (stagedPaths w (without_media p)) with (@nil string) in Hrun.
  rewrite app_nil_r in E. cbn [app] in E.
  exists t. split; [|split; [exact E|split; [|split]]].
  - rewrite (processMessage_unstaged cfg n8n w p file files e Hmedia Hsave), E.
    reflexivity.
  - apply (LoopRun_media _ _ _ _ _ _ _ _ Hrun).
  - intros Hmax.
    destruct (LoopRun_first _ _ _ _ _ _ _ _ Hrun) as (rest & ->); [lia|].
    eexists. unfold passTrace. cbn [app]. reflexivity.
  - intros k r Hin Hr Hs.
    destruct (LoopRun_split _ _ _ _ _ _ _ _ Hrun k Hin) as (pre & post & -> & _).
    assert (Hafter : fst (afterSend cfg n8n w (without_media p) [] k)
                     = EvLog (logEntry w p k SENT None None (durationMs r) None)
                       :: map EvUpload (screenshotPaths r)
                       ++ notify n8n (sentCallback w p k r)
                       ++ [EvSleep (randomDelay (w_random w k) (minDelay cfg)
                                      (maxDelay cfg))]).
    { unfold afterSend, sendResult. cbn [phone text without_media sendArg].
      rewrite Hr, Hs. reflexivity. }
    unfold passTrace. rewrite Hafter. split.
    + rewrite !logs_app. apply in_or_app. right. apply in_or_app. left.
      simpl. auto.
    + rewrite !callbacks_app. apply in_or_app. right. apply in_or_app. left.
      change (?a :: ?b :: ?c :: ?rest) with ([a; b; c] ++ rest).
      rewrite !callbacks_app, notify_callbacks.
      do 2 (apply in_or_app; right). apply in_or_app. left. simpl. auto.
Qed.

Lemma staging_failure_sends_text_only_witness :
  exists t,
    Queue.processMessage Sample.defaults Sample.notifier Sample.goodWorld
      Sample.helloWithPicture = Some (EvStage [Sample.picture] :: t, Ok tt)
    /\ Queue.processMessage Sample.defaults Sample.notifier Sample.goodWorld
         Sample.hello = Some (t, Ok tt)
    /\ sentMedia t = [None]
    /\ map cb_key (callbacks t) = [(SENT, 1)].
Proof.
  destruct (staging_failure_sends_text_only
              Sample.defaults Sample.notifier Sample.goodWorld Sample.helloWithPicture
              Sample.picture [] (newError "ENOSPC: no space left on device")
              eq_refl eq_refl)
    as (t & E1 & E2 & _).
  exists t. split; [exact E1|]. split; [exact E2|].
  vm_compute in E2. injection E2 as <-. split; reflexivity.
Defined.

(** ** C5: failures of the sinks *)

(** The world [w] with other answers from the database, the HTTP peer and
    the object store. *)
Definition with_sinks (w : World) (ins : MessageLog -> InsertOutcome)
  (fet : N8nCallbackPayload -> FetchOutcome) (upl : string -> UploadOutcome)
  : World :=
  {| w_browser := w_browser w; w_insert := ins; w_fetch := fet; w_upload := upl;
     w_saveMediaFiles := w_saveMediaFiles w; w_hashText := w_hashText w;
     w_logTime := w_logTime w; w_callbackTime := w_callbackTime w;
     w_random := w_random w |}.

(** A callback without the list of uploaded URLs, the one field that reports
    what the object store answered. *)
Definition without_urls (c : N8nCallbackPayload) : N8nCallbackPayload :=
  {| cb_success := cb_success c; cb_status := cb_status c; cb_phone := cb_phone c;
     cb_external_id := cb_external_id c; cb_timestamp := cb_timestamp c;
     cb_attempt := cb_attempt c; cb_duration_ms := cb_duration_ms c;
     cb_error := cb_error c; cb_screenshot_url := cb_screenshot_url c;
     cb_screenshot_urls := None |}.

Definition forget_urls (ev : Event) : Event :=
  match ev with
  | EvCallback c => EvCallback (without_urls c)
  | EvPost url c => EvPost url (without_urls c)
  | _ => ev
  end.

(** Everything a run does and how it ends, up to the uploaded URLs. *)
Definition behaviour {A} (run : option (M A)) : option (list Event * Res A) :=
  option_map (fun m : M A => (map forget_urls (fst m), snd m)) run.

Section Sinks.

Variable cfg : QueueConfig.
Variable n8n : N8n.Service.
Variable w : World.
Variable ins : MessageLog -> InsertOutcome.
Variable fet : N8nCallbackPayload -> FetchOutcome.
Variable upl : string -> UploadOutcome.
Variable p : WebhookPayload.
Variable paths : list string.

Lemma forget_uploads l : map forget_urls (map EvUpload l) = map EvUpload l.
Proof. induction l; simpl; congruence. Qed.

Lemma forget_notify c :
  map forget_urls (notify n8n c) = notify n8n (without_urls c).
Proof. unfold notify. destruct (N8n.enabled n8n); reflexivity. Qed.

Lemma afterSend_sinks k :
  map forget_urls (fst (afterSend cfg n8n (with_sinks w ins fet upl) p paths k))
  = map forget_urls (fst (afterSend cfg n8n w p paths k))
  /\ snd (afterSend cfg n8n (with_sinks w ins fet upl) p paths k)
     = snd (afterSend cfg n8n w p paths k).
Proof.
  unfold afterSend, sendResult. cbn [w_browser with_sinks].
  destruct (OpenPhone.sendMessage _ _ _ _) as [r|e].
  - destruct (success r); [|destruct (Queue.shouldRetry cfg k r)];
      cbn [fst snd map]; rewrite !map_app, !forget_uploads, !forget_notify;
      split; reflexivity.
  - cbn [fst snd map]. rewrite !forget_notify. split; reflexivity.
Qed.

Lemma passTrace_sinks k :
  map forget_urls (passTrace cfg n8n (with_sinks w ins fet upl) p paths k)
  = map forget_urls (passTrace cfg n8n w p paths k).
Proof.
  unfold passTrace. cbn [map]. rewrite (proj1 (afterSend_sinks k)). reflexivity.
Qed.

Lemma whileLoop_sinks fuel :
  forall a,
    behaviour (Queue.whileLoop cfg n8n (with_sinks w ins fet upl) fuel p paths a)
    = behaviour (Queue.whileLoop cfg n8n w fuel p paths a).
Proof.
  induction fuel as [|fuel IH]; intros a; simpl; [reflexivity|].
  destruct (a <? maxRetries cfg); [|reflexivity].
  rewrite !attemptBody_run, (proj2 (afterSend_sinks (a + 1))).
  destruct (snd (afterSend cfg n8n w p paths (a + 1))).
  - specialize (IH (a + 1)).
    destruct (Queue.whileLoop cfg n8n (with_sinks w ins fet upl) fuel p paths (a + 1))
      as [[t1 r1]|];
    destruct (Queue.whileLoop cfg n8n w fuel p paths (a + 1)) as [[t2 r2]|];
    unfold behaviour in *; cbn [option_map fst snd] in *; try discriminate;
      [|reflexivity].
    injection IH as Ht Hr. now rewrite !map_app, passTrace_sinks, Ht, Hr.
  - unfold behaviour. cbn [option_map fst snd]. now rewrite passTrace_sinks.
Qed.

End Sinks.

Lemma processMessage_sinks cfg n8n w ins fet upl p :
  behaviour (Queue.processMessage cfg n8n (with_sinks w ins fet upl) p)
  = behaviour (Queue.processMessage cfg n8n w p).
Proof.
  unfold Queue.processMessage, Queue.processMessageWith.
  change (Queue.stageMedia (with_sinks w ins fet upl) p) with (Queue.stageMedia w p).
  destruct (Queue.stageMedia w p) as [t0 [staged|e]]; [|reflexivity].
  pose proof (whileLoop_sinks cfg n8n w ins fet upl p staged
                (Z.to_nat (maxRetries cfg)) 0) as H.
  destruct (Queue.whileLoop cfg n8n (with_sinks w ins fet upl) _ p staged 0)
    as [[t1 r1]|];
  destruct (Queue.whileLoop cfg n8n w _ p staged 0) as [[t2 r2]|];
  unfold behaviour in *; cbn [option_map fst snd] in *; try discriminate;
    [|reflexivity].
  injection H as Ht Hr. subst r2.
  destruct r1 as [c|e]; destruct (Queue.cleanup staged) as [tc [[]|ec]];
    unfold try_finally, bind, ret; cbn [fst snd];
    rewrite ?app_nil_r, !map_app, ?Ht; reflexivity.
Qed.

(** C5: whatever the database, the HTTP peer and the object store answer
    (an error value, a rejected promise, a missing file), [logMessage],
    [logAttempt], [sendCallback], [uploadScreenshot] and [uploadScreenshots]
    return normally; and replacing all three by others leaves the run of
    [processMessage] unchanged, event for event and in its outcome, up to the
    URL list carried by the callbacks: the same attempts, the same rows, the
    same callbacks statuses, the same sleeps. *)
Theorem sink_failures_are_contained :
  (forall w entry, snd (Supabase.logMessage w entry) = Ok tt)
  /\ (forall w to body ext k st ec et d sh,
        snd (Queue.logAttempt w to body ext k st ec et d sh) = Ok tt)
  /\ (forall s w c, snd (N8n.sendCallback s w c) = Ok tt)
  /\ (forall w path, exists url, snd (Supabase.uploadScreenshot w path) = Ok url)
  /\ (forall w paths, exists urls, snd (Supabase.uploadScreenshots w paths) = Ok urls)
  /\ (forall cfg n8n w ins fet upl p,
        behaviour (Queue.processMessage cfg n8n (with_sinks w ins fet upl) p)
        = behaviour (Queue.processMessage cfg n8n w p)).
Proof.
  repeat split.
  - intros. now rewrite logMessage_run.
  - intros. unfold Queue.logAttempt. now rewrite logMessage_run.
  - intros. now rewrite sendCallback_run.
  - intros w path. destruct (uploadScreenshot_run w path) as [url ->]. now exists url.
  - intros w paths. unfold Supabase.uploadScreenshots.
    destruct (uploadLoop_run w paths []) as [urls ->]. now exists urls.
  - intros. apply processMessage_sinks.
Qed.

(** ** C9: errors inside the verification *)

(** The selector finds an element whose text can be read. *)
Definition shows_error (b : Browser) (selector : string) : bool :=
  match query b selector with
  | QueryElement (Ok _) => true
  | _ => false
  end.

(** Some step inside [verifyMessageSent] throws: the screenshot, a query, or
    the reading of an element's text. *)
Definition verification_step_throws (b : Browser) : Prop :=
  verify_screenshot b <> None
  \/ exists selector e,
       In selector OpenPhone.errorSelectors
       /\ (query b selector = QueryThrows e
           \/ query b selector = QueryElement (Throw e)).

(** C9, as the claim states it. *)
Definition C9_statement (b : Browser) (to body : string)
  (m : option (list string)) : Prop :=
  verification_step_throws b ->
  OpenPhone.verifyMessageSent b = Ok true
  /\ exists r, OpenPhone.sendMessage b to body m = Ok r
               /\ success r = true /\ status r = SENT.

(** An alert is on the page, but the first query fails. *)
Definition alertBehindBrokenQuery : Browser :=
  {| page_ready := true;
     clickNewConversation := Sample.okStep; enterPhoneNumber := Sample.okStep;
     enterMessageText := Sample.okStep; attachMediaFiles := Sample.okStep;
     clickSendButton := Sample.okStep;
     verify_screenshot := None;
     query := fun selector =>
       if String.eqb selector (nth 0 OpenPhone.errorSelectors EmptyString) then
         QueryThrows {| err_name := "Error"; err_message := "Execution context was destroyed" |}
       else if String.eqb selector (nth 1 OpenPhone.errorSelectors EmptyString) then
         QueryElement (Ok (Some "Message failed to send"%string))
       else QueryNull;
     error_screenshot_path := "error.png";
     error_screenshot := None;
     elapsed := 12000 |}.

Lemma scanSelectors_spec b selectors :
  OpenPhone.scanSelectors b selectors
  = Ok (negb (existsb (shows_error b) selectors)).
Proof.
  induction selectors as [|selector rest IH]; [reflexivity|].
  simpl. unfold shows_error at 1.
  destruct (query b selector) as [e| |[txt|e]]; simpl; try exact IH. reflexivity.
Qed.

(** C9 (amended): with the page open, (1) if the screenshot of
    [verifyMessageSent] throws, the method returns [true], and
    [sendMessage], its UI steps having succeeded, returns a success with status
    [SENT]; (2) otherwise a query or a text read that throws only skips its
    selector, and the method returns [true] exactly when no selector yields
    an element whose text can be read. *)
Theorem verification_errors b to body m :
  page_ready b = true ->
  failure (clickNewConversation b) = None ->
  failure (enterPhoneNumber b) = None ->
  failure (enterMessageText b) = None ->
  failure (attachMediaFiles b) = None ->
  failure (clickSendButton b) = None ->
  (verify_screenshot b <> None ->
     OpenPhone.verifyMessageSent b = Ok true
     /\ exists r, OpenPhone.sendMessage b to body m = Ok r
                  /\ success r = true /\ status r = SENT)
  /\ (verify_screenshot b = None ->
        OpenPhone.verifyMessageSent b
        = Ok (negb (existsb (shows_error b) OpenPhone.errorSelectors))).
Proof.
  intros Hpage H1 H2 H3 H4 H5. split.
  - intros Hshot.
    assert (Hv : OpenPhone.verifyMessageSent b = Ok true).
    { unfold OpenPhone.verifyMessageSent. rewrite Hpage. simpl.
      destruct (verify_screenshot b); [reflexivity|congruence]. }
    split; [exact Hv|].
    unfold OpenPhone.sendMessage. rewrite Hpage. cbn [negb].
    destruct m as [[|path paths]|]; cbn [app OpenPhone.runSteps];
      rewrite H1, H2, H3, ?H4, H5; cbn [rbind]; rewrite Hv; cbn [rbind];
      eexists; repeat split.
  - intros Hshot. unfold OpenPhone.verifyMessageSent.
    rewrite Hpage, Hshot. cbn [negb]. unfold rbind.
    now rewrite scanSelectors_spec.
Qed.

Lemma verification_errors_witness :
  OpenPhone.verifyMessageSent
    (mkBrowser true Sample.okStep Sample.okStep Sample.okStep Sample.okStep
       Sample.okStep (Some (newError "page.screenshot: Timeout 30000ms exceeded"))
       (fun _ => QueryNull) "error.png" None 9000) = Ok true
  /\ OpenPhone.verifyMessageSent alertBehindBrokenQuery = Ok false.
Proof.
  split.
  - destruct (verification_errors
                (mkBrowser true Sample.okStep Sample.okStep Sample.okStep Sample.okStep
                   Sample.okStep
                   (Some (newError "page.screenshot: Timeout 30000ms exceeded"))
                   (fun _ => QueryNull) "error.png" None 9000)
                "+15551234567" "hello" None
                eq_refl eq_refl eq_refl eq_refl eq_refl eq_refl) as [H _].
    destruct H as [Hv _]; [discriminate|]. exact Hv.
  - now rewrite (proj2 (verification_errors alertBehindBrokenQuery
                          "+15551234567" "hello" None
                          eq_refl eq_refl eq_refl eq_refl eq_refl eq_refl) eq_refl).
Defined.

(** C9 fails as stated: the first query throws, the second selector finds an
    alert, and [verifyMessageSent] returns [false]; [sendMessage] reports a
    failure. *)
Lemma broken_query_does_not_force_sent :
  verification_step_throws alertBehindBrokenQuery
  /\ OpenPhone.verifyMessageSent alertBehindBrokenQuery = Ok false
  /\ OpenPhone.sendMessage alertBehindBrokenQuery "+15551234567" "hello" None
     = Ok {| success := false; status := FAILED;
             error := Some "Message sending verification failed"%string;
             errorCode := Some "Error"%string;
             screenshotPath := Some "error.png"%string;
             screenshotPaths := ["error.png"%string];
             durationMs := Some 12000 |}
  /\ ~ C9_statement alertBehindBrokenQuery "+15551234567" "hello" None.
Proof.
  assert (Hthrows : verification_step_throws alertBehindBrokenQuery).
  { right. exists (nth 0 OpenPhone.errorSelectors EmptyString).
    eexists. split; [vm_compute; auto|]. left. reflexivity. }
  repeat split; try reflexivity; [exact Hthrows|].
  intros H. destruct (H Hthrows) as [Hv _]. discriminate.
Qed.

(** ** C6: media validation at the ingress *)

(** The size [validateMediaFiles] adds up: three quarters of the length of
    each base64 string, rounded up. *)
Definition estimatedSize (files : list MediaFile) : Z :=
  fold_right (fun f acc => ceil_three_quarters (len (data f)) + acc) 0 files.




(** A request that passes the checks made before the media validation. *)
Definition wellAddressed (payload : WebhookPayload) : Prop :=
  truthy (phone payload) = true /\ truthy (text payload) = true
  /\ App.phoneRegex_test (App.stripSeparators (phone payload)) = true.




(** The loop rejects exactly when some file is badly formatted, with a
    message that starts with the position of the file; otherwise it returns
    the sum of the estimated sizes. *)
Lemma validateLoop_spec files :
  forall i total,
    match validateLoop files i total with
    | inl r =>
        valid r = false
        /\ (exists msg, mv_error r = Some msg /\ startsWith "File " msg = true)
        /\ exists f, In f files /\ fv_valid (validateMediaFile f) = false
    | inr sum =>
        sum = total + estimatedSize files
        /\ Forall (fun f => fv_valid (validateMediaFile f) = true) files
    end.
Proof.
  induction files as [|f files IH]; intros i total.
  - simpl. split; [lia|constructor].
  - cbn [validateLoop].
    destruct (fv_valid (validateMediaFile f)) eqn:Hf; cbn [negb].
    + specialize (IH (i + 1) (total + ceil_three_quarters (len (data f)))).
      destruct (validateLoop files _ _) as [r|sum].
      * destruct IH as (Hv & Hmsg & g & Hg & Hbad).
        repeat split; try assumption. exists g. split; [now right|assumption].
      * destruct IH as [-> Hall]. split; [simpl; lia|now constructor].
    + split; [reflexivity|]. split.
      * eexists. split; reflexivity.
      * exists f. split; [now left|assumption].
Qed.






(** * The rest of the cited files *)

(** ** utils/helpers.ts: delays, masks and previews *)

Module HelpersText.

(** [randomDelay(30, 120)] and its two siblings, for the random number
    [rnd / 2^53]. *)
Definition randomTypingDelay (rnd : Z) : Z := randomDelay rnd 30 120.
Definition randomActionPause (rnd : Z) : Z := randomDelay rnd 300 1200.
Definition randomMicroPause (rnd : Z) : Z := randomDelay rnd 500 2500.

(** [s.substring(a, b)] for indices that are not negative: the two bounds
    are put in order and what lies beyond the end is cut off. *)
Definition substring (a b : nat) (s : string) : string :=
  String.substring (Nat.min a b) (Nat.max a b - Nat.min a b) s.

(** [s.substring(a)]. *)
Definition substringFrom (a : nat) (s : string) : string :=
  String.substring a (String.length s - a) s.

Definition sanitizePhone (phone : string) : string :=
  if (String.length phone <=? 4)%nat then phone
  else substring 0 3 phone +++ "***" +++ substringFrom (String.length phone - 2) phone.






End HelpersText.
Import HelpersText.

(** *** Strings *)

Lemma length_append s t :
  String.length (s +++ t) = (String.length s + String.length t)%nat.
Proof. induction s; simpl; congruence. Qed.

Lemma append_assoc s t u : (s +++ t) +++ u = s +++ t +++ u.
Proof. induction s; simpl; congruence. Qed.

Lemma append_empty_r s : s +++ EmptyString = s.
Proof. induction s; simpl; congruence. Qed.


(** What follows the first [length s] characters of [s +++ t] is [t]. *)
Lemma substring_suffix s t :
  String.substring (String.length s) (String.length t) (s +++ t) = t.
Proof.
  induction s; simpl; [|assumption].
  induction t; simpl; congruence.
Qed.




(** *** [randomDelay] *)

(** The rounding of the product never reaches the next integer above the
    exact product of the largest random number. *)
Lemma roundBinary64_below rnd n :
  0 <= rnd < 2 ^ 53 -> 1 <= n ->
  0 <= roundBinary64 (rnd * n) < n * 2 ^ 53.
Proof.
  intros Hrnd Hn. unfold roundBinary64.
  set (K := 2 ^ 53) in *. assert (HK : 0 < K) by (subst K; lia).
  assert (Hp : 0 <= rnd * n <= n * K - n) by nia.
  set (p := rnd * n) in *.
  rewrite (Z.abs_eq p) by lia.
  destruct (Z.leb_spec (Z.log2 p + 1 - 53) 0) as [Hs|Hs]; [nia|].
  set (s := Z.log2 p + 1 - 53) in *.
  assert (Hpos : 0 < p).
  { destruct (Z.eq_dec p 0) as [E|E]; [|lia].
    subst s. rewrite E in Hs. cbn in Hs. lia. }
  rewrite (Z.sgn_pos p Hpos), Z.mul_1_l.
  assert (Hpow : 2 ^ s = 2 * 2 ^ (s - 1)).
  { replace s with (1 + (s - 1)) at 1 by lia. rewrite Z.pow_add_r by lia. reflexivity. }
  assert (Hlog : 2 ^ (s - 1) * K <= p).
  { subst K. rewrite <- Z.pow_add_r by lia.
    replace (s - 1 + 53) with (Z.log2 p) by (subst s; lia).
    apply Z.log2_spec. assumption. }
  assert (Hhalf : 0 < 2 ^ (s - 1)) by (apply Z.pow_pos_nonneg; lia).
  set (H := 2 ^ (s - 1)) in *. rewrite Hpow.
  pose proof (Z.div_mod p (2 * H) ltac:(lia)) as Hdiv.
  pose proof (Z.mod_pos_bound p (2 * H) ltac:(lia)) as Hmod.
  set (q := p / (2 * H)) in *. set (r := p mod (2 * H)) in *.
  assert (Hq : 0 <= q) by (subst q; apply Z.div_pos; lia).
  destruct ((H <? r) || ((r =? H) && Z.odd q)) eqn:Hup.
  - assert (Hr : H <= r).
    { apply orb_true_iff in Hup as [Hup|Hup].
      - apply Z.ltb_lt in Hup. lia.
      - apply andb_true_iff in Hup as [Hup _]. apply Z.eqb_eq in Hup. lia. }
    split; [nia|].
    destruct (Z.le_gt_cases n H) as [Hle|Hgt].
    + assert (n * K <= H * K) by (apply Z.mul_le_mono_nonneg_r; lia). lia.
    + nia.
  - split; nia.
Qed.

(** X1: for a random number in [0, 1) that is a multiple of [2^-53], and
    [min <= max], [randomDelay] returns an integer between [min] and [max],
    both included, although the product is rounded before [Math.floor]
    sees it (the delay can be one more than the exact product gives, never
    more than [max]); so a typing delay is between 30 and 120 ms, an action
    pause between 300 and 1200 ms and a micro-pause between 500 and
    2500 ms. *)
Theorem randomDelay_in_range rnd min max :
  0 <= rnd < 2 ^ 53 ->
  min <= max ->
  min <= randomDelay rnd min max <= max
  /\ 30 <= randomTypingDelay rnd <= 120
  /\ 300 <= randomActionPause rnd <= 1200
  /\ 500 <= randomMicroPause rnd <= 2500.
Proof.
  intros Hrnd Hle.
  assert (Hgen : forall lo hi, lo <= hi -> lo <= randomDelay rnd lo hi <= hi).
  { intros lo hi H. unfold randomDelay.
    destruct (roundBinary64_below rnd (hi - lo + 1) Hrnd ltac:(lia)) as [H0 H1].
    assert (0 <= roundBinary64 (rnd * (hi - lo + 1)) / 2 ^ 53 < hi - lo + 1); [|lia].
    split.
    - apply Z.div_pos; [assumption|lia].
    - apply Z.div_lt_upper_bound; lia. }
  repeat split; apply Hgen; lia.
Qed.

Lemma randomDelay_in_range_witness :
  8000 <= randomDelay 273946148485998 8000 20000 <= 20000
  /\ randomDelay 273946148485998 8000 20000 = 8365
  /\ 273946148485998 * (20000 - 8000 + 1) / 2 ^ 53 + 8000 = 8364.
Proof.
  split; [|split; reflexivity].
  apply (randomDelay_in_range 273946148485998 8000 20000); [split|]; lia.
Defined.

(** *** [isRetryableError] *)

Lemma toLowerCase_append s t : toLowerCase (s +++ t) = toLowerCase s +++ toLowerCase t.
Proof. induction s; simpl; congruence. Qed.

Lemma lower_char_idempotent c : lower_char (lower_char c) = lower_char c.
Proof.
  destruct c as [[] [] [] [] [] [] [] []]; reflexivity.
Qed.

Lemma toLowerCase_idempotent s : toLowerCase (toLowerCase s) = toLowerCase s.
Proof. induction s; simpl; [reflexivity|]. now rewrite lower_char_idempotent, IHs. Qed.

Lemma startsWith_append p s t : startsWith p s = true -> startsWith p (s +++ t) = true.
Proof.
  revert s. induction p as [|a p IH]; intros [|b s]; simpl; try discriminate; auto.
  rewrite !andb_true_iff. intros [H1 H2]. auto.
Qed.

Lemma includes_append_r p s t : includes p s = true -> includes p (s +++ t) = true.
Proof.
  induction s as [|c s IH]; simpl.
  - rewrite orb_false_r. intros H. destruct p; [|discriminate].
    destruct t; reflexivity.
  - rewrite !orb_true_iff. intros [H|H].
    + left. now apply (startsWith_append p (String c s) t).
    + right. auto.
Qed.

Lemma includes_append_l p s t : includes p t = true -> includes p (s +++ t) = true.
Proof.
  induction s as [|c s IH]; simpl; [auto|].
  intros H. rewrite orb_true_iff. right. auto.
Qed.

(** X2: the classification looks for its key words without regard to case
    and anywhere in the text: lower-casing the text does not change the
    verdict, and a text that contains a retryable text is retryable. *)
Theorem isRetryableError_substring before s after :
  isRetryableError (toLowerCase s) = isRetryableError s
  /\ (isRetryableError s = true ->
      isRetryableError (before +++ s +++ after) = true).
Proof.
  unfold isRetryableError. split.
  - now rewrite toLowerCase_idempotent.
  - rewrite !existsb_exists. intros (msg & Hin & Hmsg).
    exists msg. split; [assumption|].
    rewrite !toLowerCase_append.
    apply includes_append_l. now apply includes_append_r.
Qed.

Lemma isRetryableError_substring_witness :
  isRetryableError "page.goto: net::ERR_NETWORK_CHANGED at https://my.openphone.com/inbox"
  = true.
Proof.
  apply (proj2 (isRetryableError_substring "page.goto: net::ERR_"
                  "NETWORK" "_CHANGED at https://my.openphone.com/inbox")).
  reflexivity.
Defined.

(** *** [sanitizePhone] and [createMessagePreview] *)





(** ** utils/helpers.ts: what the media validation accepts *)

Fixpoint allChars (f : ascii -> bool) (s : string) : bool :=
  match s with
  | EmptyString => true
  | String c r => f c && allChars f r
  end.

(** A file that passes [validateMediaFile]. *)
Definition wellFormed (f : MediaFile) : bool :=
  truthy (filename f) && truthy (mimeType f) && truthy (data f)
  && existsb (String.eqb (mimeType f)) SUPPORTED_MIME_TYPES
  && base64Regex_test (data f).

(** X5: the base64 test accepts exactly the strings made of characters of
    the base64 alphabet followed by at most two equal signs; neither the
    length nor the place of the padding in a group of four is checked, and a
    string with any other character (a line break, the prefix of a data
    URL) is refused. *)
Theorem base64Regex_test_spec s :
  (base64Regex_test s = true <->
   exists body pad,
     s = body +++ pad
     /\ allChars is_base64_char body = true
     /\ (pad = EmptyString \/ pad = "="%string \/ pad = "=="%string))
  /\ (base64Regex_test s = true ->
      allChars (fun c => is_base64_char c || Ascii.eqb c "=") s = true).
Proof.
  split; [split|].
  - induction s as [|c s IH]; cbn [base64Regex_test].
    + intros _. exists EmptyString, EmptyString. auto.
    + destruct (is_base64_char c) eqn:Hc.
      * intros H. destruct (IH H) as (body & pad & -> & Hb & Hp).
        exists (String c body), pad. simpl. rewrite Hc. auto.
      * rewrite orb_true_iff, !String.eqb_eq. intros H.
        exists EmptyString, (String c s). simpl. intuition.
  - intros (body & pad & -> & Hb & Hp).
    induction body as [|c body IH]; simpl in *.
    + destruct Hp as [-> | [-> | ->]]; reflexivity.
    + apply andb_true_iff in Hb. destruct Hb as [Hc Hb]. rewrite Hc. auto.
  - induction s as [|c s IH]; cbn [base64Regex_test allChars]; [reflexivity|].
    destruct (is_base64_char c) eqn:Hc; cbn [orb andb].
    + exact IH.
    + rewrite orb_true_iff, !String.eqb_eq.
      intros [H|H]; injection H as -> ->; reflexivity.
Qed.

Lemma base64Regex_test_spec_witness :
  base64Regex_test "aGVsbG8=" = true
  /\ allChars (fun c => is_base64_char c || Ascii.eqb c "=") "aGVsbG8=" = true.
Proof.
  assert (H : base64Regex_test "aGVsbG8=" = true).
  { apply (proj1 (base64Regex_test_spec "aGVsbG8=")).
    exists "aGVsbG8"%string, "="%string. repeat split. right. left. reflexivity. }
  split; [exact H|].
  exact (proj2 (base64Regex_test_spec "aGVsbG8=") H).
Defined.

Lemma validateMediaFile_wellFormed f :
  fv_valid (validateMediaFile f) = wellFormed f.
Proof.
  unfold validateMediaFile, wellFormed.
  destruct (existsb (String.eqb (mimeType f)) SUPPORTED_MIME_TYPES),
    (base64Regex_test (data f)),
    (truthy (filename f)), (truthy (mimeType f)), (truthy (data f));
    reflexivity.
Qed.

(** X6: [validateMediaFiles] accepts a list exactly when it has at most 10
    files, every file has its three fields, a supported MIME type and data
    that pass the base64 test, and the estimated size is at most 5 MiB; an
    accepted list comes back without error, with the estimated size and the
    number of files, and with a warning exactly when the size is above
    600 KiB.  The empty list is accepted with size 0. *)
Theorem validateMediaFiles_accepts files :
  let r := validateMediaFiles files in
  (valid r = true <->
   Z.of_nat (List.length files) <= QUO_MAX_ATTACHMENTS
   /\ forallb wellFormed files = true
   /\ estimatedSize files <= QUO_MAX_TOTAL_SIZE)
  /\ (valid r = true ->
      mv_error r = None
      /\ totalSizeBytes r = Some (estimatedSize files)
      /\ fileCount r = Some (Z.of_nat (List.length files))
      /\ (warning r = None <-> estimatedSize files <= RECOMMENDED_SIZE)).
Proof.
  cbv zeta. unfold validateMediaFiles.
  destruct (Z.eqb_spec (Z.of_nat (List.length files)) 0) as [H0|Hn0].
  { destruct files; [|simpl in H0; lia]. simpl.
    unfold QUO_MAX_ATTACHMENTS, QUO_MAX_TOTAL_SIZE, RECOMMENDED_SIZE.
    repeat split; auto; lia. }
  destruct (Z.gtb_spec (Z.of_nat (List.length files)) QUO_MAX_ATTACHMENTS) as [Hmany|Hfew].
  { simpl. split; [split|]; try discriminate. intros (H & _). lia. }
  pose proof (validateLoop_spec files 0 0) as Hloop.
  destruct (validateLoop files 0 0) as [r|sum].
  - destruct Hloop as (Hv & _ & f & Hin & Hf). rewrite Hv.
    split; [split|]; try discriminate.
    intros (_ & Hall & _). rewrite forallb_forall in Hall.
    apply Hall in Hin. rewrite <- validateMediaFile_wellFormed in Hin. congruence.
  - destruct Hloop as [-> Hall]. rewrite Z.add_0_l.
    assert (Hwf : forallb wellFormed files = true).
    { rewrite forallb_forall. rewrite Forall_forall in Hall.
      intros f Hin. rewrite <- validateMediaFile_wellFormed. auto. }
    destruct (Z.gtb_spec (estimatedSize files) QUO_MAX_TOTAL_SIZE) as [Hlarge|Hsmall];
      simpl.
    + split; [split|]; try discriminate. intros (_ & _ & H). lia.
    + split; [split; auto|]. intros _. repeat split.
      * destruct (Z.gtb_spec (estimatedSize files) RECOMMENDED_SIZE); [discriminate|lia].
      * destruct (Z.gtb_spec (estimatedSize files) RECOMMENDED_SIZE); [lia|reflexivity].
Qed.

Lemma validateMediaFiles_accepts_witness :
  valid (validateMediaFiles [Sample.picture]) = true
  /\ warning (validateMediaFiles [Sample.picture]) = None
  /\ totalSizeBytes (validateMediaFiles [Sample.picture]) = Some 3.
Proof.
  assert (H : valid (validateMediaFiles [Sample.picture]) = true).
  { apply (proj1 (validateMediaFiles_accepts [Sample.picture])).
    repeat split; vm_compute; congruence. }
  destruct (proj2 (validateMediaFiles_accepts [Sample.picture]) H)
    as (_ & Hsize & _ & Hwarn).
  split; [exact H|]. split; [|exact Hsize].
  apply Hwarn. vm_compute. congruence.
Defined.

(** ** server/app.ts: the decisions of the two endpoints *)

Module AppBatch.

(** One entry of [results]. *)
Record BatchResult : Type := mkBatchResult {
  b_phone : string;
  b_success : bool;
  b_error : option string;
  b_external_id : option string
}.

(** What POST /webhook/send-batch did: answered 400, or called
    [queueService.addMessage] for the payloads of [enqueued], in that order,
    and answered with [results] and [message]. *)
Inductive BatchHandled : Type :=
| BatchRejected (http_status : Z) (error : string)
| BatchAccepted (enqueued : list WebhookPayload) (results : list BatchResult)
    (message : string).

(** The [for] loop over the messages. *)
Fixpoint batchLoop (messages : list WebhookPayload)
  : list WebhookPayload * list BatchResult :=
  match messages with
  | [] => ([], [])
  | message :: rest =>
      let (enqueued, results) := batchLoop rest in
      if negb (truthy (phone message)) || negb (truthy (text message)) then
        (enqueued,
         {| b_phone := phone message; b_success := false;
            b_error := Some "Missing required fields"%string;
            b_external_id := None |} :: results)
      else
        (message :: enqueued,
         {| b_phone := sanitizePhone (phone message); b_success := true;
            b_error := None; b_external_id := external_id message |} :: results)
  end.

(** The handler; [None] stands for a body whose [messages] is missing or is
    not an array. *)
Definition webhookSendBatch (messages : option (list WebhookPayload)) : BatchHandled :=
  match messages with
  | None | Some [] => BatchRejected 400 "Missing or invalid messages array"
  | Some messages =>
      let (enqueued, results) := batchLoop messages in
      BatchAccepted enqueued results
        (show (Z.of_nat (List.length (filter b_success results)))
         +++ " messages added to queue")
  end.

End AppBatch.

(** The answer of POST /webhook/send to an accepted request. *)
Definition acceptedResponse : App.Response :=
  {| App.http_status := 200; App.r_success := true;
     App.r_message := "Message added to queue";
     App.r_error := None; App.r_error_code := None |}.

(** The attachments of the request, if any, pass [validateMediaFiles]. *)
Definition acceptableMedia (payload : WebhookPayload) : Prop :=
  match media payload with
  | Some ((_ :: _) as files) => valid (validateMediaFiles files) = true
  | _ => True
  end.

(** X7: POST /webhook/send puts a request on the queue exactly when phone
    and text are present, the phone has the accepted format and the
    attachments, if any, pass the validation; the payload is enqueued
    unchanged.  Every other request is answered with 400 and one of three
    codes, tried in this order: [VALIDATION_ERROR] when phone or text is
    missing, [INVALID_PHONE] when the format is wrong, [INVALID_MEDIA]. *)
Theorem webhookSend_decision payload :
  (wellAddressed payload /\ acceptableMedia payload ->
   App.webhookSend payload = App.Enqueued payload acceptedResponse)
  /\ (forall q r, App.webhookSend payload = App.Enqueued q r ->
        q = payload /\ r = acceptedResponse
        /\ wellAddressed payload /\ acceptableMedia payload)
  /\ (forall r, App.webhookSend payload = App.Rejected r ->
        App.http_status r = 400 /\ App.r_success r = false
        /\ (App.r_error_code r = Some "VALIDATION_ERROR"%string
            <-> truthy (phone payload) = false \/ truthy (text payload) = false)
        /\ (App.r_error_code r = Some "INVALID_PHONE"%string
            <-> truthy (phone payload) = true /\ truthy (text payload) = true
                /\ App.phoneRegex_test (App.stripSeparators (phone payload)) = false)
        /\ (App.r_error_code r = Some "INVALID_MEDIA"%string
            <-> wellAddressed payload /\ ~ acceptableMedia payload)).
Proof.
  unfold App.webhookSend, wellAddressed, acceptableMedia.
  assert (Haccept : forall (P Q : Prop), P -> Q ->
            (P /\ Q -> App.Enqueued payload acceptedResponse
                       = App.Enqueued payload acceptedResponse)
            /\ (forall q r, App.Enqueued payload acceptedResponse = App.Enqueued q r ->
                  q = payload /\ r = acceptedResponse /\ P /\ Q)
            /\ (forall r, App.Enqueued payload acceptedResponse = App.Rejected r ->
                  App.http_status r = 400 /\ App.r_success r = false
                  /\ (App.r_error_code r = Some "VALIDATION_ERROR"%string
                      <-> truthy (phone payload) = false \/ truthy (text payload) = false)
                  /\ (App.r_error_code r = Some "INVALID_PHONE"%string
                      <-> truthy (phone payload) = true /\ truthy (text payload) = true
                          /\ App.phoneRegex_test (App.stripSeparators (phone payload))
                             = false)
                  /\ (App.r_error_code r = Some "INVALID_MEDIA"%string <-> P /\ ~ Q))).
  { intros P Q HP HQ. split; [reflexivity|]. split.
    - intros q r [= <- <-]. auto.
    - intros r H. discriminate H. }
  destruct (truthy (phone payload)) eqn:Hp; cbn [negb orb].
  2:{ split; [intros [(? & _) _]; discriminate|]. split; [discriminate|].
      intros r [= <-]. cbn. repeat split; auto; try discriminate.
      - intros (? & _); discriminate.
      - intros [(? & _) _]; discriminate. }
  destruct (truthy (text payload)) eqn:Ht; cbn [negb orb].
  2:{ split; [intros [(_ & ? & _) _]; discriminate|]. split; [discriminate|].
      intros r [= <-]. cbn. repeat split; auto; try discriminate.
      - intros (_ & ? & _); discriminate.
      - intros [(_ & ? & _) _]; discriminate. }
  destruct (App.phoneRegex_test (App.stripSeparators (phone payload))) eqn:Hf;
    cbn [negb].
  2:{ split; [intros [(_ & _ & ?) _]; discriminate|]. split; [discriminate|].
      intros r [= <-]. cbn. repeat split; auto; try discriminate.
      - intros [?|?]; discriminate.
      - intros [(_ & _ & ?) _]. discriminate. }
  destruct (media payload) as [[|f files]|].
  - apply Haccept; auto.
  - destruct (valid (validateMediaFiles (f :: files))) eqn:Hv; cbn [negb].
    + apply Haccept; auto.
    + split; [intros [_ ?]; discriminate|]. split; [discriminate|].
      intros r [= <-]. cbn. repeat split; auto; try discriminate.
      * intros [?|?]; discriminate.
      * intros (_ & _ & ?); discriminate.
  - apply Haccept; auto.
Qed.

Lemma webhookSend_decision_witness :
  App.webhookSend Sample.helloWithPicture
  = App.Enqueued Sample.helloWithPicture acceptedResponse.
Proof.
  apply (proj1 (webhookSend_decision Sample.helloWithPicture)).
  split; [repeat split; reflexivity|]. reflexivity.
Defined.

(** *** The phone format *)

(** The number of digits among the code units. *)
Definition countDigits (units : list Z) : nat :=
  List.length (filter App.is_digit units).

Lemma removeSeparators_app a b :
  App.removeSeparators (a ++ b) = App.removeSeparators a ++ App.removeSeparators b.
Proof. apply filter_app. Qed.

Lemma removeSeparators_separators seps :
  forallb App.is_separator seps = true -> App.removeSeparators seps = [].
Proof.
  induction seps as [|u seps IH]; cbn [forallb App.removeSeparators filter];
    [reflexivity|].
  intros H. apply andb_prop in H as [-> H]. cbn [negb]. now apply IH.
Qed.

Lemma separator_not_digit u : App.is_separator u = true -> App.is_digit u = false.
Proof.
  unfold App.is_separator, is_whitespace, App.is_digit.
  rewrite !orb_true_iff, !andb_true_iff, !Z.leb_le, !Z.eqb_eq, andb_false_iff,
    !Z.leb_gt.
  lia.
Qed.

Lemma countDigits_removeSeparators units :
  countDigits (App.removeSeparators units) = countDigits units.
Proof.
  unfold countDigits, App.removeSeparators.
  induction units as [|u units IH]; cbn [filter]; [reflexivity|].
  destruct (App.is_separator u) eqn:Hu; cbn [negb filter].
  - rewrite (separator_not_digit u Hu). exact IH.
  - destruct (App.is_digit u); cbn [List.length]; congruence.
Qed.

Lemma countDigits_all_digits units :
  App.all_digits units = true -> countDigits units = List.length units.
Proof.
  unfold countDigits, App.all_digits.
  induction units as [|u units IH]; cbn [forallb filter]; [reflexivity|].
  intros H. apply andb_prop in H as [-> H]. cbn [List.length]. now rewrite IH.
Qed.

(** The code units of an ASCII text are its characters. *)
Lemma codeUnits_ascii s :
  allChars (fun c => byte c <? 128) s = true -> codeUnits s = map byte (list_ascii_of_string s).
Proof.
  induction s as [|c s IH]; cbn [allChars codeUnits list_ascii_of_string map];
    [reflexivity|].
  intros H. apply andb_prop in H as [-> H]. now rewrite IH.
Qed.

(** A text in which every byte belongs to a well-formed sequence ends at
    the end of a character: what is appended to it is read on its own. *)
Lemma codeUnits_append_bounded n : forall s t,
  (String.length s <= n)%nat ->
  ~ In 65533 (codeUnits s) ->
  codeUnits (s +++ t) = codeUnits s ++ codeUnits t.
Proof.
  induction n as [|n IH]; intros s t Hlen Hclean.
  - destruct s; [reflexivity|cbn in Hlen; lia].
  - destruct s as [|c1 r1]; [reflexivity|].
    cbn [String.length] in Hlen.
    cbn [String.append]. cbn [codeUnits] in Hclean |- *.
    destruct (byte c1 <? 128).
    { cbn [app]. f_equal. apply IH; [lia|]. intros H. apply Hclean. now right. }
    destruct r1 as [|c2 r2]; [exfalso; apply Hclean; now left|].
    cbn [String.length] in Hlen. cbn [String.append].
    destruct ((194 <=? byte c1) && (byte c1 <? 224) && continuation (byte c2)).
    { cbn [app]. f_equal. apply IH; [lia|]. intros H. apply Hclean. now right. }
    destruct r2 as [|c3 r3]; [exfalso; apply Hclean; now left|].
    cbn [String.length] in Hlen. cbn [String.append]. cbv zeta in Hclean |- *.
    match goal with |- context [if ?b then _ :: codeUnits (r3 +++ t) else _] =>
      destruct b end.
    { cbn [app]. f_equal. apply IH; [lia|]. intros H. apply Hclean. now right. }
    destruct r3 as [|c4 r4]; [exfalso; apply Hclean; now left|].
    cbn [String.length] in Hlen. cbn [String.append].
    match goal with |- context [if ?b then _ :: _ :: codeUnits (r4 +++ t) else _] =>
      destruct b end.
    { cbn [app]. do 2 f_equal. apply IH; [lia|].
      intros H. apply Hclean. right. now right. }
    exfalso. apply Hclean. now left.
Qed.

Lemma codeUnits_append s t :
  ~ In 65533 (codeUnits s) -> codeUnits (s +++ t) = codeUnits s ++ codeUnits t.
Proof. apply (codeUnits_append_bounded (String.length s)). lia. Qed.

(** The white space beyond ASCII, as the decoder reads it. *)
Lemma codeUnits_white_space :
  map (fun bytes => codeUnits (string_of_list_ascii (map ascii_of_nat bytes)))
    [ [194; 160]; [225; 154; 128]; [226; 128; 128]; [226; 128; 138];
      [226; 128; 168]; [226; 128; 169]; [226; 128; 175]; [226; 129; 159];
      [227; 128; 128]; [239; 187; 191] ]%nat
  = [ [160]; [5760]; [8192]; [8202]; [8232]; [8233]; [8239]; [8287];
      [12288]; [65279] ].
Proof. reflexivity. Qed.

(** X8: the phone check does not see white space (that of ECMAScript's
    [\s], beyond ASCII too), hyphens and parentheses: a run of them put
    between any two characters of a phone changes nothing to its
    acceptance, be the phone taken as its code units or as the text that
    holds them; and an accepted phone has between 10 and 15 digits. *)
Theorem phone_format_ignores_separators before separators after :
  forallb App.is_separator separators = true ->
  App.phoneRegex_test (App.removeSeparators (before ++ separators ++ after))
  = App.phoneRegex_test (App.removeSeparators (before ++ after))
  /\ (App.phoneRegex_test (App.removeSeparators (before ++ after)) = true ->
      (10 <= countDigits (before ++ separators ++ after) <= 15)%nat)
  /\ (forall head blanks tail,
        ~ In 65533 (codeUnits head) ->
        codeUnits blanks = separators ->
        App.phoneRegex_test (App.stripSeparators (head +++ blanks +++ tail))
        = App.phoneRegex_test (App.stripSeparators (head +++ tail))).
Proof.
  intros Hsep.
  assert (Hgen : forall a b,
            App.removeSeparators (a ++ separators ++ b) = App.removeSeparators (a ++ b)).
  { intros a b. rewrite !removeSeparators_app, (removeSeparators_separators _ Hsep).
    reflexivity. }
  split; [now rewrite Hgen|]. split.
  - rewrite <- countDigits_removeSeparators, Hgen.
    unfold App.phoneRegex_test.
    set (s := App.removeSeparators (before ++ after)).
    destruct s as [|u r].
    + rewrite !andb_true_iff, !Z.leb_le. cbn. lia.
    + destruct (Z.eqb_spec u 43) as [->|Hu];
        rewrite !andb_true_iff, !Z.leb_le; intros [[Hd H10] H15];
        rewrite <- (countDigits_all_digits _ Hd) in H10, H15.
      * change (countDigits (43 :: r)) with (countDigits r). lia.
      * lia.
  - intros head blanks tail Hhead Hblanks. unfold App.stripSeparators.
    assert (Hclean : ~ In 65533 (codeUnits blanks)).
    { rewrite Hblanks. intros Hin.
      rewrite forallb_forall in Hsep. specialize (Hsep _ Hin). discriminate. }
    rewrite !(codeUnits_append head) by assumption.
    rewrite (codeUnits_append blanks) by assumption.
    rewrite Hblanks. now rewrite Hgen.
Qed.

(** The phone [+1 (555) 123-4567], with a no-break space after the [1]. *)
Lemma phone_format_ignores_separators_witness :
  App.phoneRegex_test
    (App.stripSeparators
       ("+1" +++ String (ascii_of_nat 194) (String (ascii_of_nat 160) "(")
        +++ "555) 123-4567"))
  = true.
Proof.
  refine (eq_trans
            (proj2 (proj2 (phone_format_ignores_separators
                     [43; 49] [160; 40] [53; 53; 53; 41; 32; 49; 50; 51; 45; 52; 53; 54; 55]
                     eq_refl))
               "+1"%string (String (ascii_of_nat 194) (String (ascii_of_nat 160) "("))
               "555) 123-4567"%string _ eq_refl)
            eq_refl).
  vm_compute. intuition discriminate.
Defined.

(** *** The batch endpoint *)

Definition hasPhoneAndText (m : WebhookPayload) : bool :=
  truthy (phone m) && truthy (text m).

Lemma batchLoop_spec messages :
  fst (AppBatch.batchLoop messages) = filter hasPhoneAndText messages
  /\ map AppBatch.b_success (snd (AppBatch.batchLoop messages))
     = map hasPhoneAndText messages.
Proof.
  unfold hasPhoneAndText.
  induction messages as [|m rest [IH1 IH2]]; [split; reflexivity|].
  simpl. destruct (AppBatch.batchLoop rest) as [enqueued results].
  simpl in IH1, IH2.
  destruct (truthy (phone m)), (truthy (text m)); simpl; rewrite IH1, IH2;
    split; reflexivity.
Qed.

Lemma count_true_filter {A} (f : A -> bool) l :
  List.length (filter (fun b : bool => b) (map f l)) = List.length (filter f l).
Proof. induction l as [|a l IH]; simpl; [reflexivity|]. destruct (f a); simpl; lia. Qed.

(** POST /webhook/send refuses a message without phone or text with the
    code [VALIDATION_ERROR]. *)
Lemma missing_fields_code m r :
  hasPhoneAndText m = false ->
  App.webhookSend m = App.Rejected r ->
  App.r_error_code r = Some "VALIDATION_ERROR"%string.
Proof.
  unfold hasPhoneAndText, App.webhookSend.
  destruct (truthy (phone m)), (truthy (text m)); cbn [andb negb orb];
    try discriminate; intros _ [= <-]; reflexivity.
Qed.

(** X9: POST /webhook/send-batch answers 400 to a missing list and to an
    empty one, and puts nothing on the queue; to any other list it answers
    by putting on the queue, in their order and unchanged, exactly the
    messages that have a phone and a text, with one result per message that
    tells whether it was enqueued, and it announces the number it enqueued.
    Neither the phone format nor the attachments are checked: a message
    that POST /webhook/send refuses for one of them is enqueued. *)
Theorem batch_enqueues_without_validation messages :
  AppBatch.webhookSendBatch None
  = AppBatch.BatchRejected 400 "Missing or invalid messages array"
  /\ AppBatch.webhookSendBatch (Some [])
     = AppBatch.BatchRejected 400 "Missing or invalid messages array"
  /\ (messages <> [] ->
      exists results,
        AppBatch.webhookSendBatch (Some messages)
        = AppBatch.BatchAccepted (filter hasPhoneAndText messages) results
            (show (Z.of_nat (List.length (filter hasPhoneAndText messages)))
             +++ " messages added to queue")
        /\ List.length results = List.length messages
        /\ map AppBatch.b_success results = map hasPhoneAndText messages
        /\ (forall m r, In m messages ->
              App.webhookSend m = App.Rejected r ->
              App.r_error_code r <> Some "VALIDATION_ERROR"%string ->
              In m (filter hasPhoneAndText messages))).
Proof.
  split; [reflexivity|]. split; [reflexivity|].
  intros Hne. destruct messages as [|m0 rest]; [congruence|].
  unfold AppBatch.webhookSendBatch.
  destruct (batchLoop_spec (m0 :: rest)) as [H1 H2].
  destruct (AppBatch.batchLoop (m0 :: rest)) as [enqueued results].
  cbn [fst snd] in H1, H2. exists results. subst enqueued.
  assert (Hcount : List.length (filter AppBatch.b_success results)
                   = List.length (filter hasPhoneAndText (m0 :: rest))).
  { rewrite <- (count_true_filter AppBatch.b_success results), H2.
    apply count_true_filter. }
  rewrite Hcount. split; [reflexivity|]. split; [|split; [exact H2|]].
  - rewrite <- (length_map AppBatch.b_success), H2. apply length_map.
  - intros m r Hin Hrej Hcode. apply filter_In. split; [assumption|].
    destruct (hasPhoneAndText m) eqn:Hm; [reflexivity|].
    exfalso. apply Hcode. now apply (missing_fields_code m).
Qed.

Lemma batch_enqueues_without_validation_witness :
  exists results message,
    AppBatch.webhookSendBatch
      (Some [ {| phone := "12345"; text := "hi"; external_id := None; media := None |};
              Sample.twelvePictures ])
    = AppBatch.BatchAccepted
        [ {| phone := "12345"; text := "hi"; external_id := None; media := None |};
          Sample.twelvePictures ] results message.
Proof.
  destruct (proj2 (proj2 (batch_enqueues_without_validation
              [ {| phone := "12345"; text := "hi"; external_id := None; media := None |};
                Sample.twelvePictures ]))) as (results & E & _).
  - discriminate.
  - exists results. eexists. exact E.
Defined.

(** ** services/supabase.service.ts: what the uploads return *)

(** The public URL of a screenshot, when every step of its upload works and
    the URL is not empty. *)
Definition uploadedUrl (w : World) (path : string) : list string :=
  if truthy path then
    match w_upload w path with
    | Uploaded publicUrl => if truthy publicUrl then [publicUrl] else []
    | _ => []
    end
  else [].

Lemma uploadLoop_urls w paths :
  forall urls,
    Supabase.uploadLoop w paths urls
    = (map EvUpload paths, Ok (urls ++ flat_map (uploadedUrl w) paths)).
Proof.
  induction paths as [|path rest IH]; intros urls; cbn [Supabase.uploadLoop].
  - cbn. now rewrite app_nil_r.
  - unfold Supabase.uploadScreenshot, uploadedUrl at 1.
    cbn [flat_map map].
    destruct (truthy path); cbn [negb].
    + destruct (w_upload w path) as [|e|e|e|url];
        unfold bind, emit, try_catch, ret, throw; cbn [app];
        rewrite IH; cbn [app]; try (now rewrite ?app_nil_r).
      destruct (truthy url); now rewrite <- ?app_assoc, ?app_nil_r.
    + unfold bind, emit, try_catch, ret. cbn [app]. rewrite IH. reflexivity.
Qed.

(** X10: [uploadScreenshots] tries every path once, in order, and returns
    the public URLs of those whose upload worked, in the same order; a path
    that is empty or missing on disk, a read error, an upload error, a
    rejected upload and an empty URL are skipped without a trace in the
    result, so the list may be shorter than the list of paths. *)
Theorem uploadScreenshots_returns_successes w paths :
  Supabase.uploadScreenshots w paths
  = (map EvUpload paths, Ok (flat_map (uploadedUrl w) paths))
  /\ (List.length (flat_map (uploadedUrl w) paths) <= List.length paths)%nat.
Proof.
  split.
  - unfold Supabase.uploadScreenshots. now rewrite uploadLoop_urls.
  - induction paths as [|path rest IH]; simpl; [lia|].
    rewrite length_app. unfold uploadedUrl at 1.
    destruct (truthy path); [|simpl; lia].
    destruct (w_upload w path) as [| | | |url]; simpl; try lia.
    destruct (truthy url); simpl; lia.
Qed.

(** ** services/n8n-webhook.service.ts: the masked URL *)

Module N8nMask.

(** [url.slice(-8)] for a URL of more than eight characters. *)
Definition lastEight (url : string) : string :=
  substringFrom (String.length url - 8) url.

Definition maskUrl (url : string) : string :=
  if (String.length url <=? 8)%nat then url else "***" +++ lastEight url.

End N8nMask.

(** X11: of a webhook URL of more than eight characters the log shows three
    stars and the last eight characters, whatever comes before them; a URL
    of at most eight characters is logged whole. *)
Theorem maskUrl_keeps_last_eight hidden shown :
  hidden <> EmptyString ->
  String.length shown = 8%nat ->
  N8nMask.maskUrl (hidden +++ shown) = "***" +++ shown
  /\ forall short, (String.length short <= 8)%nat -> N8nMask.maskUrl short = short.
Proof.
  intros Hh Hs. split.
  - unfold N8nMask.maskUrl, N8nMask.lastEight, substringFrom.
    rewrite length_append, Hs.
    assert (0 < String.length hidden)%nat by (destruct hidden; [congruence|simpl; lia]).
    destruct (Nat.leb_spec (String.length hidden + 8) 8); [lia|].
    f_equal.
    replace (String.length hidden + 8 - 8)%nat with (String.length hidden) by lia.
    replace (String.length hidden + 8 - String.length hidden)%nat
      with (String.length shown) by lia.
    apply substring_suffix.
  - intros short H. unfold N8nMask.maskUrl.
    destruct (Nat.leb_spec (String.length short) 8); [reflexivity|lia].
Qed.

Lemma maskUrl_keeps_last_eight_witness :
  N8nMask.maskUrl "https://n8n.example/webhook/4f2a9c1e" = "***4f2a9c1e"%string.
Proof.
  apply (proj1 (maskUrl_keeps_last_eight "https://n8n.example/webhook/" "4f2a9c1e"
                  ltac:(discriminate) eq_refl)).
Defined.

(** ** services/openphone.service.ts: what [sendMessage] returns *)

(** The UI steps [sendMessage] awaits before the verification, in order. *)
Definition uiSteps (b : Browser) (mediaFilePaths : option (list string))
  : list StepOutcome :=
  [clickNewConversation b; enterPhoneNumber b; enterMessageText b]
  ++ (match mediaFilePaths with
      | Some (_ :: _) => [attachMediaFiles b]
      | _ => []
      end)
  ++ [clickSendButton b].

(** The result built in the [catch] block for the error [e], [shots] being
    the screenshots taken so far. *)
Definition failureResult (b : Browser) (shots : list string) (e : JsError)
  : MessageResult :=
  {| success := false; status := FAILED;
     error := Some (err_message e);
     errorCode := Some (or_else (err_name e) "UNKNOWN_ERROR");
     screenshotPath := Some (error_screenshot_path b);
     screenshotPaths :=
       match error_screenshot b with
       | None => shots ++ [error_screenshot_path b]
       | Some _ => shots
       end;
     durationMs := Some (elapsed b) |}.

Lemma or_else_truthy a : truthy (or_else a "UNKNOWN_ERROR") = true.
Proof. unfold or_else. destruct (truthy a) eqn:E; [exact E|reflexivity]. Qed.

(** [sendMessage] with the page open, in terms of its steps and of the
    verification. *)
Lemma sendMessage_open b to body m :
  page_ready b = true ->
  OpenPhone.sendMessage b to body m
  = let (shots, stepped) := OpenPhone.runSteps (uiSteps b m) [] in
    match stepped with
    | Throw e => Ok (failureResult b shots e)
    | Ok _ =>
        match OpenPhone.verifyMessageSent b with
        | Ok true =>
            Ok {| success := true; status := SENT; error := None; errorCode := None;
                  screenshotPath := None; screenshotPaths := shots;
                  durationMs := Some (elapsed b) |}
        | Ok false =>
            Ok (failureResult b shots (newError "Message sending verification failed"))
        | Throw e => Ok (failureResult b shots e)
        end
    end.
Proof.
  intros Hpage. unfold OpenPhone.sendMessage, uiSteps. rewrite Hpage. cbn [negb].
  destruct (OpenPhone.runSteps _ []) as [shots [[]|e]]; cbn [rbind].
  - destruct (OpenPhone.verifyMessageSent b) as [[|]|e]; reflexivity.
  - reflexivity.
Qed.

(** X12: [sendMessage] throws only when the page was never opened, and then
    before touching the browser; with an open page every error of a step or
    of the verification comes back as a result.  A result is either a
    success with status [SENT] and no error, or a failure with status
    [FAILED], a message, a non-empty error code and the path of the error
    screenshot; both carry the duration. *)
Theorem sendMessage_throws_only_without_page b to body m :
  (page_ready b = false ->
   OpenPhone.sendMessage b to body m
   = Throw (newError "Browser not initialized. Call initialize() first."))
  /\ (page_ready b = true ->
      exists r,
        OpenPhone.sendMessage b to body m = Ok r
        /\ durationMs r = Some (elapsed b)
        /\ (success r = true ->
            status r = SENT /\ error r = None /\ errorCode r = None
            /\ screenshotPath r = None)
        /\ (success r = false ->
            status r = FAILED
            /\ screenshotPath r = Some (error_screenshot_path b)
            /\ exists c msg, errorCode r = Some c /\ truthy c = true
                             /\ error r = Some msg)).
Proof.
  split.
  - intros Hpage. unfold OpenPhone.sendMessage. now rewrite Hpage.
  - intros Hpage. rewrite (sendMessage_open b to body m Hpage).
    assert (Hfail : forall shots e,
              let r := failureResult b shots e in
              durationMs r = Some (elapsed b)
              /\ (success r = true ->
                  status r = SENT /\ error r = None /\ errorCode r = None
                  /\ screenshotPath r = None)
              /\ (success r = false ->
                  status r = FAILED
                  /\ screenshotPath r = Some (error_screenshot_path b)
                  /\ exists c msg, errorCode r = Some c /\ truthy c = true
                                   /\ error r = Some msg)).
    { intros shots e. cbn. split; [reflexivity|]. split; [discriminate|].
      intros _. repeat split. eexists _, _. split; [reflexivity|].
      split; [apply or_else_truthy|reflexivity]. }
    destruct (OpenPhone.runSteps _ []) as [shots [[]|e]].
    + destruct (OpenPhone.verifyMessageSent b) as [[|]|e];
        eexists; (split; [reflexivity|]); try apply Hfail.
      cbn. split; [reflexivity|]. split; [auto|discriminate].
    + eexists. split; [reflexivity|]. apply Hfail.
Qed.

Lemma sendMessage_throws_only_without_page_witness :
  OpenPhone.sendMessage Sample.closedBrowser "+15551234567" "hello" None
  = Throw (newError "Browser not initialized. Call initialize() first.")
  /\ OpenPhone.sendMessage Sample.timeoutBrowser "+15551234567" "hello" None
     = Ok Sample.timeoutResult.
Proof.
  split.
  - apply (proj1 (sendMessage_throws_only_without_page
                    Sample.closedBrowser "+15551234567" "hello" None)).
    reflexivity.
  - reflexivity.
Defined.

(** X13: when a UI step of [sendMessage] throws, the steps after it and the
    verification have no part in the result: it is the failure built from
    that error ([error] its message, [errorCode] its name or
    [UNKNOWN_ERROR]), with the screenshots pushed up to and by the failing
    step and, if it could be taken, the error screenshot. *)
Theorem failed_step_decides_result b to body m before s after e :
  page_ready b = true ->
  uiSteps b m = before ++ s :: after ->
  Forall (fun x => failure x = None) before ->
  failure s = Some e ->
  OpenPhone.sendMessage b to body m
  = Ok (failureResult b (flat_map pushed before ++ pushed s) e).
Proof.
  intros Hpage Hsteps Hbefore Hs.
  rewrite (sendMessage_open b to body m Hpage), Hsteps.
  assert (Hrun : forall shots,
            OpenPhone.runSteps (before ++ s :: after) shots
            = (shots ++ flat_map pushed before ++ pushed s, Throw e)).
  { clear Hsteps. induction Hbefore as [|x before Hx _ IH]; intros shots; simpl.
    - now rewrite Hs.
    - rewrite Hx, IH. now rewrite <- !app_assoc. }
  now rewrite Hrun.
Qed.

Lemma failed_step_decides_result_witness :
  OpenPhone.sendMessage Sample.timeoutBrowser "+15551234567" "hello" None
  = Ok (failureResult Sample.timeoutBrowser []
          {| err_name := "TimeoutError"; err_message := "Timeout 30000ms exceeded" |}).
Proof.
  apply (failed_step_decides_result Sample.timeoutBrowser "+15551234567" "hello" None
           [clickNewConversation Sample.timeoutBrowser]
           (enterPhoneNumber Sample.timeoutBrowser)
           [enterMessageText Sample.timeoutBrowser;
            clickSendButton Sample.timeoutBrowser]).
  - reflexivity.
  - reflexivity.
  - repeat constructor.
  - reflexivity.
Defined.

(** ** services/queue.service.ts: how a message ends *)

(** The status a returned result is recorded with when it is not retried. *)
Definition finalStatus (r : MessageResult) : MessageStatus :=
  if success r then SENT else FAILED.

(** The row written for such a result. *)
Definition finalRow (w : World) (p : WebhookPayload) (k : Z) (r : MessageResult)
  : MessageLog :=
  if success r then logEntry w p k SENT None None (durationMs r) None
  else logEntry w p k FAILED (errorCode r) (error r) (durationMs r) (screenshotPath r).

(** The callback sent for it. *)
Definition finalCallback (w : World) (p : WebhookPayload) (k : Z) (r : MessageResult)
  : N8nCallbackPayload :=
  if success r then sentCallback w p k r else failureCallback w p k FAILED r.

(** A result that the loop does not retry: a success, a failure at the last
    allowed attempt, or a failure whose code is not classified retryable. *)
Definition notRetried (cfg : QueueConfig) (k : Z) (r : MessageResult) : Prop :=
  success r = true
  \/ maxRetries cfg <= k
  \/ (forall c, errorCode r = Some c -> isRetryableError c = false).

Lemma notRetried_afterSend cfg n8n w p paths k r :
  sendResult w p paths k = Ok r ->
  notRetried cfg k r ->
  afterSend cfg n8n w p paths k
  = (EvLog (finalRow w p k r)
     :: map EvUpload (screenshotPaths r) ++ notify n8n (finalCallback w p k r)
     ++ [EvSleep (randomDelay (w_random w k) (minDelay cfg) (maxDelay cfg))],
     Queue.Return).
Proof.
  intros Hr Hnot. unfold afterSend, finalRow, finalCallback. rewrite Hr.
  destruct (success r) eqn:Hs; [reflexivity|].
  destruct (Queue.shouldRetry cfg k r) eqn:Hre; [|reflexivity].
  exfalso. apply shouldRetry_spec in Hre. destruct Hre as (Hk & c & Hc & Hcl).
  destruct Hnot as [H|[H|H]]; [congruence|lia|].
  rewrite (H c Hc) in Hcl. discriminate.
Qed.

(** The trace of a message around an attempt whose result is not retried. *)
Lemma terminal_result_trace cfg n8n w p t k r :
  Queue.processMessage cfg n8n w p = Some (t, Ok tt) ->
  In k (sends t) ->
  attemptResult w p k = Ok r ->
  notRetried cfg k r ->
  exists pre,
    t = pre ++ EvSend k (phone p) (text p) (sendArg (stagedPaths w p))
            :: EvLog (finalRow w p k r)
            :: map EvUpload (screenshotPaths r)
            ++ notify n8n (finalCallback w p k r)
            ++ EvSleep (randomDelay (w_random w k) (minDelay cfg) (maxDelay cfg))
            :: cleanupTrace w p
    /\ Forall (fun j => j < k) (sends pre)
    /\ nonterminalLogs pre /\ nonterminalCallbacks pre.
Proof.
  intros Hrun Hin Hr Hnot.
  destruct (processMessage_run cfg n8n w p) as (lt & ctl & E & Hloop).
  rewrite E in Hrun. injection Hrun as <-.
  destruct (message_projections w p lt) as (_ & _ & _ & Ps & _).
  rewrite Ps in Hin.
  destruct (LoopRun_split _ _ _ _ _ _ _ _ Hloop k Hin)
    as (pre & post & -> & Hnl & Hnc & Hlt & Hend).
  rewrite (notRetried_afterSend cfg n8n w p _ k r Hr Hnot) in Hend.
  destruct Hend as [-> _].
  destruct (stage_silent p) as (S1 & S2 & _ & S4 & _).
  exists (stageTrace p ++ pre ++ [EvLog (logEntry w p k SENDING None None None None)]).
  unfold passTrace. rewrite (notRetried_afterSend cfg n8n w p _ k r Hr Hnot).
  cbn [fst]. repeat split.
  - repeat (rewrite <- ?app_assoc; cbn [app]). reflexivity.
  - rewrite !sends_app, S4, app_nil_r. exact Hlt.
  - unfold nonterminalLogs in *. rewrite !logs_app, S1. cbn [app].
    apply Forall_app. split; [assumption|]. repeat constructor.
  - unfold nonterminalCallbacks in *. rewrite !callbacks_app, S2, app_nil_r.
    exact Hnc.
Qed.

(** X14: when attempt [k] returns a result that is not retried (a success;
    or a failure at attempt [maxRetries] or with a code that is not
    retryable), the message ends there: the row ([SENT] with the duration;
    or [FAILED] with the code, message, duration and screenshot of the
    result), the uploads of its screenshots, the callback, one pause of
    [randomDelay minDelay maxDelay], the cleanup, and nothing else; all
    other attempts come before and are numbered below [k]. *)
Theorem result_ends_message cfg n8n w p t k r :
  Queue.processMessage cfg n8n w p = Some (t, Ok tt) ->
  In k (sends t) ->
  attemptResult w p k = Ok r ->
  notRetried cfg k r ->
  exists pre,
    t = pre ++ EvSend k (phone p) (text p) (sendArg (stagedPaths w p))
            :: EvLog (finalRow w p k r)
            :: map EvUpload (screenshotPaths r)
            ++ notify n8n (finalCallback w p k r)
            ++ EvSleep (randomDelay (w_random w k) (minDelay cfg) (maxDelay cfg))
            :: cleanupTrace w p
    /\ log_status (finalRow w p k r) = finalStatus r
    /\ cb_status (finalCallback w p k r) = finalStatus r
    /\ cb_success (finalCallback w p k r) = success r
    /\ Forall (fun j => j < k) (sends pre)
    /\ nonterminalLogs pre /\ nonterminalCallbacks pre.
Proof.
  intros Hrun Hin Hr Hnot.
  destruct (terminal_result_trace cfg n8n w p t k r Hrun Hin Hr Hnot)
    as (pre & E & H1 & H2 & H3).
  exists pre. split; [exact E|].
  unfold finalRow, finalCallback, finalStatus.
  destruct (success r); repeat split; assumption.
Qed.

Lemma result_ends_message_witness :
  exists t pre r,
    Queue.processMessage Sample.defaults Sample.notifier Sample.flakyWorld Sample.hello
    = Some (t, Ok tt)
    /\ attemptResult Sample.flakyWorld Sample.hello 3 = Ok r
    /\ success r = true
    /\ t = pre ++ EvSend 3 "+15551234567" "hello" None
             :: EvLog (finalRow Sample.flakyWorld Sample.hello 3 r)
             :: map EvUpload ["before.png"; "after.png"]%string
             ++ notify Sample.notifier (finalCallback Sample.flakyWorld Sample.hello 3 r)
             ++ [EvSleep 8000].
Proof.
  assert (E : exists t,
             Queue.processMessage Sample.defaults Sample.notifier Sample.flakyWorld
               Sample.hello = Some (t, Ok tt)
             /\ In 3 (sends t)).
  { eexists. split; [vm_compute; reflexivity|]. vm_compute. auto. }
  destruct E as (t & E & Hin).
  destruct (result_ends_message
              Sample.defaults Sample.notifier Sample.flakyWorld Sample.hello t 3
              _ E Hin eq_refl (or_introl eq_refl)) as (pre & Ht & _).
  eexists t, pre, _. split; [exact E|]. split; [reflexivity|].
  split; [reflexivity|]. exact Ht.
Defined.

Lemma runSteps_all_ok steps :
  Forall (fun x => failure x = None) steps ->
  forall shots,
    OpenPhone.runSteps steps shots = (shots ++ flat_map pushed steps, Ok tt).
Proof.
  induction 1 as [|s steps Hs _ IH]; intros shots; simpl.
  - now rewrite app_nil_r.
  - rewrite Hs, IH. now rewrite <- app_assoc.
Qed.

(** X15: an error element found by the verification ends the message at
    once.  If at attempt [k] every UI step works, the screenshot of the
    verification is taken and some selector yields an element whose text can
    be read, the attempt is recorded [FAILED] with the code [Error] and the
    text [Message sending verification failed], and no further attempt is
    made, however many retries are left. *)
Theorem detected_error_is_not_retried cfg n8n w p t k :
  Queue.processMessage cfg n8n w p = Some (t, Ok tt) ->
  In k (sends t) ->
  page_ready (w_browser w k) = true ->
  Forall (fun x => failure x = None)
         (uiSteps (w_browser w k) (sendArg (stagedPaths w p))) ->
  verify_screenshot (w_browser w k) = None ->
  existsb (shows_error (w_browser w k)) OpenPhone.errorSelectors = true ->
  exists pre post row c,
    t = pre ++ EvSend k (phone p) (text p) (sendArg (stagedPaths w p))
            :: EvLog row :: post
    /\ log_status row = FAILED /\ log_attempt row = k
    /\ error_code row = Some "Error"%string
    /\ error_text row = Some "Message sending verification failed"%string
    /\ callbacks post = [c] /\ cb_status c = FAILED /\ cb_success c = false
    /\ sends post = [] /\ logs post = []
    /\ Forall (fun j => j < k) (sends pre).
Proof.
  intros Hrun Hin Hpage Hsteps Hshot Hfound.
  set (b := w_browser w k) in *.
  set (shots := flat_map pushed (uiSteps b (sendArg (stagedPaths w p)))).
  assert (Hr : attemptResult w p k
               = Ok (failureResult b shots
                       (newError "Message sending verification failed"))).
  { unfold attemptResult, sendResult. fold b.
    rewrite (sendMessage_open b _ _ _ Hpage), (runSteps_all_ok _ Hsteps).
    unfold OpenPhone.verifyMessageSent. rewrite Hpage, Hshot.
    cbn [negb]. unfold rbind. rewrite scanSelectors_spec, Hfound. reflexivity. }
  assert (Hnot : notRetried cfg k
                   (failureResult b shots
                      (newError "Message sending verification failed"))).
  { right. right. intros c [= <-]. reflexivity. }
  destruct (terminal_result_trace cfg n8n w p t k _ Hrun Hin Hr Hnot)
    as (pre & -> & Hlt & _).
  destruct (cleanup_silent w p) as (C1 & C2 & _ & C4 & _).
  set (r := failureResult b shots (newError "Message sending verification failed")).
  exists pre,
    (map EvUpload (screenshotPaths r) ++ notify n8n (failureCallback w p k FAILED r)
     ++ EvSleep (randomDelay (w_random w k) (minDelay cfg) (maxDelay cfg))
     :: cleanupTrace w p),
    (logEntry w p k FAILED (errorCode r) (error r) (durationMs r) (screenshotPath r)),
    (failureCallback w p k FAILED r).
  split; [reflexivity|].
  do 4 (split; [reflexivity|]).
  split.
  { rewrite !callbacks_app, (proj1 (proj2 (uploads_silent _))), notify_callbacks.
    change (callbacks (EvSleep ?d :: ?rest)) with (callbacks rest).
    rewrite C2. reflexivity. }
  do 2 (split; [reflexivity|]).
  split.
  { rewrite !sends_app, (proj1 (proj2 (proj2 (proj2 (uploads_silent _))))),
      (proj1 (proj2 (notify_silent _ _))).
    change (sends (EvSleep ?d :: ?rest)) with (sends rest).
    rewrite C4. reflexivity. }
  split; [|exact Hlt].
  rewrite !logs_app, (proj1 (uploads_silent _)), (proj1 (notify_silent _ _)).
  change (logs (EvSleep ?d :: ?rest)) with (logs rest).
  rewrite C1. reflexivity.
Qed.

Lemma detected_error_is_not_retried_witness :
  exists t pre post row,
    Queue.processMessage Sample.defaults Sample.notifier
      (Sample.worldOf (fun _ => alertBehindBrokenQuery)) Sample.hello
    = Some (t, Ok tt)
    /\ t = pre ++ EvSend 1 "+15551234567" "hello" None :: EvLog row :: post
    /\ log_status row = FAILED
    /\ error_code row = Some "Error"%string
    /\ sends post = [].
Proof.
  assert (E : exists t,
             Queue.processMessage Sample.defaults Sample.notifier
               (Sample.worldOf (fun _ => alertBehindBrokenQuery)) Sample.hello
             = Some (t, Ok tt)
             /\ In 1 (sends t)).
  { eexists. split; [vm_compute; reflexivity|]. vm_compute. auto. }
  destruct E as (t & E & Hin).
  destruct (detected_error_is_not_retried
              Sample.defaults Sample.notifier
              (Sample.worldOf (fun _ => alertBehindBrokenQuery)) Sample.hello t 1
              E Hin eq_refl)
    as (pre & post & row & c & H1 & H2 & _ & H4 & _ & _ & _ & _ & H9 & _).
  - repeat constructor.
  - reflexivity.
  - vm_compute. reflexivity.
  - exists t, pre, post, row. repeat split; assumption.
Defined.

(** *** Retries used up *)

Lemma sleeps_after_result n8n row paths c d rest :
  sleeps (EvLog row :: map EvUpload paths ++ notify n8n c ++ EvSleep d :: rest)
  = d :: sleeps rest.
Proof.
  change (EvLog row :: ?x) with ([EvLog row] ++ x).
  rewrite !sleeps_app.
  rewrite (proj2 (proj2 (proj2 (proj2 (proj2 (uploads_silent paths)))))).
  rewrite (proj2 (proj2 (proj2 (notify_silent n8n c)))). reflexivity.
Qed.

Lemma logs_after_result n8n row paths c d rest :
  logs (EvLog row :: map EvUpload paths ++ notify n8n c ++ EvSleep d :: rest)
  = row :: logs rest.
Proof.
  change (EvLog row :: ?x) with ([EvLog row] ++ x).
  rewrite !logs_app, (proj1 (uploads_silent paths)), (proj1 (notify_silent n8n c)).
  reflexivity.
Qed.

(** Every attempt up to the limit returns a failure with a retryable code. *)
Definition alwaysRetryable (cfg : QueueConfig) (w : World) (p : WebhookPayload)
  (paths : list string) (from : Z) : Prop :=
  forall k, from < k <= maxRetries cfg ->
  exists r c, sendResult w p paths k = Ok r /\ success r = false
              /\ errorCode r = Some c /\ isRetryableError c = true.

Lemma LoopRun_exhausted cfg n8n w p paths a t c :
  LoopRun cfg n8n w p paths a t c ->
  alwaysRetryable cfg w p paths a ->
  a < maxRetries cfg ->
  sends t = map (fun i => a + Z.of_nat i) (seq 1 (Z.to_nat (maxRetries cfg - a)))
  /\ sleeps t
     = map (fun i => Queue.retryDelay (a + Z.of_nat i))
           (seq 1 (Z.to_nat (maxRetries cfg - a) - 1))
       ++ [randomDelay (w_random w (maxRetries cfg)) (minDelay cfg) (maxDelay cfg)].
Proof.
  induction 1 as [a Hge|a Hlt Hend|a t c Hlt Hend Hrun IH]; intros Hall Ha.
  - lia.
  - destruct (Hall (a + 1)) as (r & code & Hr & Hs & Hc & Hcl); [lia|].
    assert (Hlast : a + 1 = maxRetries cfg).
    { destruct (Z.eq_dec (a + 1) (maxRetries cfg)) as [|Hne]; [assumption|].
      exfalso.
      assert (Hcont : snd (afterSend cfg n8n w p paths (a + 1)) = Queue.Continue).
      { apply afterSend_continue. exists r. repeat split; try assumption.
        apply shouldRetry_spec. split; [lia|]. now exists code. }
      congruence. }
    replace (Z.to_nat (maxRetries cfg - a)) with 1%nat by lia.
    destruct (pass_contents cfg n8n w p paths (a + 1)) as (? & ? & _ & _ & _ & -> & _).
    split; [reflexivity|].
    unfold passTrace.
    rewrite (notRetried_afterSend cfg n8n w p paths (a + 1) r Hr);
      [|right; left; lia].
    cbn [fst seq map Nat.sub app].
    change (sleeps (EvLog ?x :: EvSend ?k ?y ?z ?m :: ?rest)) with (sleeps rest).
    rewrite sleeps_after_result, Hlast. reflexivity.
  - pose proof (afterSend_continue_lt _ _ _ _ _ _ Hend) as Hlt'.
    destruct IH as [IHs IHz]; [intros k Hk; apply Hall; lia|assumption|].
    replace (Z.to_nat (maxRetries cfg - a))
      with (S (Z.to_nat (maxRetries cfg - (a + 1)))) by lia.
    destruct (pass_contents cfg n8n w p paths (a + 1))
      as (? & ? & _ & _ & _ & Hsk & _ & _ & _ & _ & Hz).
    rewrite Hend in Hz. destruct Hz as [_ Hz].
    rewrite sends_app, sleeps_app, Hsk, IHs, IHz. split.
    + change (seq 1 (S ?n)) with (1%nat :: seq 2 n).
      rewrite <- (seq_shift _ 1). cbn [map app]. rewrite map_map.
      f_equal; try lia. apply map_ext. intros i. lia.
    + unfold passTrace.
      change (sleeps (EvLog ?x :: EvSend ?k ?y ?z ?m :: ?rest)) with (sleeps rest).
      rewrite Hz.
      replace (S (Z.to_nat (maxRetries cfg - (a + 1))) - 1)%nat
        with (S (Z.to_nat (maxRetries cfg - (a + 1)) - 1)) by lia.
      change (seq 1 (S ?n)) with (1%nat :: seq 2 n).
      rewrite <- (seq_shift _ 1). cbn [map app]. rewrite map_map.
      f_equal; try (f_equal; lia). f_equal. apply map_ext. intros i. f_equal. lia.
Qed.

(** X16: when [maxRetries] is at least 1 and every attempt returns a failure
    with a retryable code, the message is attempted exactly [maxRetries]
    times; between the attempts the queue sleeps the backoffs of attempts
    1 to [maxRetries - 1], then once more for the pause after the message;
    and the failure of the last attempt, retryable as it is, is the
    [FAILED] row that ends the audit trail. *)
Theorem retries_exhausted cfg n8n w p :
  1 <= maxRetries cfg ->
  (forall k, 1 <= k <= maxRetries cfg ->
     exists r c, attemptResult w p k = Ok r /\ success r = false
                 /\ errorCode r = Some c /\ isRetryableError c = true) ->
  exists t rows r,
    Queue.processMessage cfg n8n w p = Some (t, Ok tt)
    /\ sends t = map Z.of_nat (seq 1 (Z.to_nat (maxRetries cfg)))
    /\ sleeps t
       = map (fun i => Queue.retryDelay (Z.of_nat i))
             (seq 1 (Z.to_nat (maxRetries cfg) - 1))
         ++ [randomDelay (w_random w (maxRetries cfg)) (minDelay cfg) (maxDelay cfg)]
    /\ attemptResult w p (maxRetries cfg) = Ok r
    /\ logs t = rows ++ [logEntry w p (maxRetries cfg) FAILED (errorCode r) (error r)
                           (durationMs r) (screenshotPath r)]
    /\ Forall (fun e => terminal (log_status e) = false) rows.
Proof.
  intros Hmax Hall.
  destruct (processMessage_run cfg n8n w p) as (lt & ctl & E & Hloop).
  assert (Hall' : alwaysRetryable cfg w p (stagedPaths w p) 0)
    by (intros k Hk; apply Hall; lia).
  destruct (LoopRun_exhausted _ _ _ _ _ _ _ _ Hloop Hall') as [Hs Hz]; [lia|].
  rewrite Z.sub_0_r in Hs, Hz.
  destruct (message_projections w p lt) as (_ & _ & _ & Ps & _).
  destruct (Hall (maxRetries cfg)) as (r & code & Hr & Hsr & Hc & Hcl); [lia|].
  assert (Hin : In (maxRetries cfg)
                   (sends (stageTrace p ++ lt ++ cleanupTrace w p))).
  { rewrite Ps, Hs. apply in_map_iff. exists (Z.to_nat (maxRetries cfg)).
    split; [lia|]. apply in_seq. lia. }
  destruct (terminal_result_trace cfg n8n w p _ (maxRetries cfg) r E Hin Hr)
    as (pre & Ht & _ & Hnl & _); [right; left; lia|].
  exists (stageTrace p ++ lt ++ cleanupTrace w p), (logs pre), r.
  split; [exact E|]. split; [rewrite Ps, Hs; apply map_ext; intros; lia|].
  destruct (stage_silent p) as (_ & _ & _ & _ & _ & S6).
  destruct (cleanup_silent w p) as (C1 & _ & _ & _ & _ & C6).
  split.
  { rewrite !sleeps_app, S6, C6, app_nil_r, Hz. reflexivity. }
  split; [exact Hr|]. split; [|exact Hnl].
  rewrite Ht, logs_app.
  change (logs (EvSend ?k ?y ?z ?m :: ?rest)) with (logs rest).
  unfold finalRow. rewrite Hsr, logs_after_result, C1. reflexivity.
Qed.

Lemma retries_exhausted_witness :
  exists t,
    Queue.processMessage Sample.defaults Sample.notifier
      (Sample.worldOf (fun _ => Sample.timeoutBrowser)) Sample.hello
    = Some (t, Ok tt)
    /\ sends t = [1; 2; 3]
    /\ sleeps t = [2000; 4000; 8000].
Proof.
  destruct (retries_exhausted Sample.defaults Sample.notifier
              (Sample.worldOf (fun _ => Sample.timeoutBrowser)) Sample.hello)
    as (t & rows & r & E & Hs & Hz & _).
  - simpl. lia.
  - intros k _. exists Sample.timeoutResult, "TimeoutError"%string.
    repeat split; reflexivity.
  - exists t. split; [exact E|]. split; [exact Hs|exact Hz].
Defined.

(** *** Staged files *)

(** The staging and cleanup events of a trace. *)
Definition housekeeping (t : list Event) : list Event :=
  flat_map (fun ev => match ev with
                      | EvStage _ | EvCleanup _ => [ev]
                      | _ => []
                      end) t.

Lemma housekeeping_app t u : housekeeping (t ++ u) = housekeeping t ++ housekeeping u.
Proof. apply flat_map_app. Qed.

Lemma housekeeping_uploads ups : housekeeping (map EvUpload ups) = [].
Proof. induction ups as [|? ? IH]; [reflexivity|exact IH]. Qed.

Lemma housekeeping_naps naps : housekeeping (map EvSleep naps) = [].
Proof. induction naps as [|? ? IH]; [reflexivity|exact IH]. Qed.

Lemma pass_no_housekeeping cfg n8n w p paths k :
  housekeeping (passTrace cfg n8n w p paths k) = [].
Proof.
  destruct (afterSend_shape cfg n8n w p paths k) as (entry & c & ups & naps & E & _).
  unfold passTrace. rewrite E.
  change (housekeeping (EvLog ?a :: EvSend ?k ?x ?y ?m :: EvLog ?b :: ?rest))
    with (housekeeping rest).
  rewrite !housekeeping_app.
  rewrite housekeeping_uploads, housekeeping_naps. unfold notify. now destruct (N8n.enabled n8n).
Qed.

Lemma LoopRun_no_housekeeping cfg n8n w p paths a t c :
  LoopRun cfg n8n w p paths a t c -> housekeeping t = [].
Proof.
  induction 1 as [a Hge|a Hlt Hend|a t c Hlt Hend Hrun IH].
  - reflexivity.
  - apply pass_no_housekeeping.
  - now rewrite housekeeping_app, pass_no_housekeeping, IH.
Qed.

(** X17: when the attachments are staged to the paths [paths],
    [processMessage] hands exactly these paths to every call of
    [sendMessage] and calls [cleanupMediaFiles] on them once, as its very
    last action, however the loop ended (sent, failed, or an exception out
    of [sendMessage]); it stages and cleans nothing in between. *)
Theorem staged_files_are_cleaned_last cfg n8n w p file files path paths :
  media p = Some (file :: files) ->
  w_saveMediaFiles w (file :: files) = Ok (path :: paths) ->
  exists mid,
    Queue.processMessage cfg n8n w p
    = Some (EvStage (file :: files) :: mid ++ [EvCleanup (path :: paths)], Ok tt)
    /\ housekeeping mid = []
    /\ Forall (fun m => m = Some (path :: paths)) (sentMedia mid).
Proof.
  intros Hmedia Hsave.
  destruct (processMessage_run cfg n8n w p) as (t & c & E & Hrun).
  assert (Hpaths : stagedPaths w p = path :: paths)
    by (unfold stagedPaths; now rewrite Hmedia, Hsave).
  exists t. split; [|split].
  - rewrite E. unfold stageTrace, cleanupTrace. now rewrite Hmedia, Hpaths.
  - apply (LoopRun_no_housekeeping _ _ _ _ _ _ _ _ Hrun).
  - pose proof (LoopRun_media _ _ _ _ _ _ _ _ Hrun) as H.
    unfold sendArg in H. now rewrite Hpaths in H.
Qed.

(** The world [w] with another file system under [saveMediaFiles]. *)
Definition with_staging (w : World) (save : list MediaFile -> Res (list string))
  : World :=
  {| w_browser := w_browser w; w_insert := w_insert w; w_fetch := w_fetch w;
     w_upload := w_upload w; w_saveMediaFiles := save; w_hashText := w_hashText w;
     w_logTime := w_logTime w; w_callbackTime := w_callbackTime w;
     w_random := w_random w |}.

Lemma staged_files_are_cleaned_last_witness :
  exists mid,
    Queue.processMessage Sample.defaults Sample.notifier
      (with_staging Sample.crashingWorld (fun _ => Ok ["/tmp/1_0_a.png"%string]))
      Sample.helloWithPicture
    = Some (EvStage [Sample.picture] :: mid ++ [EvCleanup ["/tmp/1_0_a.png"%string]],
            Ok tt)
    /\ housekeeping mid = []
    /\ Forall (fun m => m = Some ["/tmp/1_0_a.png"%string]) (sentMedia mid).
Proof.
  destruct (staged_files_are_cleaned_last Sample.defaults Sample.notifier
              (with_staging Sample.crashingWorld (fun _ => Ok ["/tmp/1_0_a.png"%string]))
              Sample.helloWithPicture Sample.picture [] "/tmp/1_0_a.png" []
              eq_refl eq_refl) as (mid & E & H).
  exists mid. split; [exact E|exact H].
Defined.

(** *** What every row and callback carries *)

(** A row of the message [p]: its phone, its external id, the hash of its
    text, and an attempt number between 1 and [maxRetries]. *)
Definition rowOf (cfg : QueueConfig) (w : World) (p : WebhookPayload)
  (e : MessageLog) : Prop :=
  log_phone e = phone p /\ log_external_id e = external_id p
  /\ text_hash e = w_hashText w (text p)
  /\ 1 <= log_attempt e <= maxRetries cfg.

(** A callback of the message [p]: its phone, its external id, an attempt
    number in range; [success] is set exactly on [SENT], an [error] object
    exactly otherwise. *)
Definition callbackOf (cfg : QueueConfig) (p : WebhookPayload)
  (c : N8nCallbackPayload) : Prop :=
  cb_phone c = phone p /\ cb_external_id c = external_id p
  /\ 1 <= cb_attempt c <= maxRetries cfg
  /\ (cb_success c = true <-> cb_status c = SENT)
  /\ (cb_error c = None <-> cb_status c = SENT).

Lemma pass_rows cfg n8n w p paths k :
  1 <= k <= maxRetries cfg ->
  Forall (rowOf cfg w p) (logs (passTrace cfg n8n w p paths k))
  /\ Forall (callbackOf cfg p) (callbacks (passTrace cfg n8n w p paths k)).
Proof.
  intros Hk. unfold passTrace, afterSend.
  assert (Hrow : forall st a b c d, rowOf cfg w p (logEntry w p k st a b c d))
    by (intros; repeat split; simpl; lia).
  assert (Hlogs : forall row ups c d,
            logs (EvLog row :: map EvUpload ups ++ notify n8n c ++ [EvSleep d])
            = [row]).
  { intros. now rewrite logs_after_result. }
  assert (Hcalls : forall row ups c d,
            callbacks (EvLog row :: map EvUpload ups ++ notify n8n c ++ [EvSleep d])
            = [c]).
  { intros. change (EvLog row :: ?x) with ([EvLog row] ++ x).
    rewrite !callbacks_app, (proj1 (proj2 (uploads_silent _))), notify_callbacks.
    reflexivity. }
  change (logs (EvLog ?a :: EvSend ?j ?x ?y ?m :: ?rest)) with (a :: logs rest).
  change (callbacks (EvLog ?a :: EvSend ?j ?x ?y ?m :: ?rest)) with (callbacks rest).
  destruct (sendResult w p paths k) as [r|e];
    [destruct (success r) eqn:Hs; [|destruct (Queue.shouldRetry cfg k r)]|];
    cbn [fst].
  1-3: (rewrite Hlogs, Hcalls; split; [repeat constructor; apply Hrow|];
        repeat constructor; simpl; try lia; try discriminate; try reflexivity).
  change (logs (EvLog ?a :: ?rest)) with (a :: logs rest).
  change (callbacks (EvLog ?a :: ?rest)) with (callbacks rest).
  rewrite (proj1 (notify_silent _ _)), notify_callbacks.
  split; [repeat constructor; apply Hrow|].
  repeat constructor; simpl; try lia; try discriminate; try reflexivity.
Qed.

(** X18: every audit row of a message carries its phone, its external id
    and the hash of its text, and every callback its phone and external id;
    their attempt numbers lie between 1 and [maxRetries]; a callback says
    [success] exactly when its status is [SENT] and has an [error] object
    exactly when it is not. *)
Theorem rows_and_callbacks_belong_to_message cfg n8n w p :
  exists t,
    Queue.processMessage cfg n8n w p = Some (t, Ok tt)
    /\ Forall (rowOf cfg w p) (logs t)
    /\ Forall (callbackOf cfg p) (callbacks t).
Proof.
  destruct (processMessage_run cfg n8n w p) as (t & c & -> & Hrun).
  eexists. split; [reflexivity|].
  destruct (message_projections w p t) as (-> & -> & _).
  assert (Hrange : forall a lt lc,
            LoopRun cfg n8n w p (stagedPaths w p) a lt lc -> 0 <= a ->
            Forall (rowOf cfg w p) (logs lt)
            /\ Forall (callbackOf cfg p) (callbacks lt)).
  { induction 1 as [a Hge|a Hlt Hend|a lt lc Hlt Hend Hloop IH]; intros Ha.
    - split; constructor.
    - apply pass_rows. lia.
    - rewrite logs_app, callbacks_app.
      destruct (pass_rows cfg n8n w p (stagedPaths w p) (a + 1)) as [H1 H2]; [lia|].
      destruct IH as [H3 H4]; [lia|].
      split; apply Forall_app; auto. }
  apply (Hrange 0 t c Hrun). lia.
Qed.

(** ** utils/helpers.ts: staging the attachments and cleaning up *)

Module Staging.

(** The class [[a-zA-Z0-9_-]]. *)
Definition is_safe_char (c : ascii) : bool :=
  let n := nat_of_ascii c in
  ((97 <=? n) && (n <=? 122) || (65 <=? n) && (n <=? 90) ||
   (48 <=? n) && (n <=? 57) || (n =? 95) || (n =? 45))%nat.

(** [baseName.replace(/[^a-zA-Z0-9_-]/g, '_')]. *)
Fixpoint safeBaseName (baseName : string) : string :=
  match baseName with
  | EmptyString => EmptyString
  | String c r => String (if is_safe_char c then c else "_"%char) (safeBaseName r)
  end.

(** The temp directory is the list of the paths that exist in it. *)
Definition existsSync (fs : list string) (path : string) : bool :=
  existsb (String.eqb path) fs.

Definition unlinkSync (fs : list string) (path : string) : list string :=
  filter (fun q => negb (String.eqb path q)) fs.

(** [cleanupMediaFiles(filePaths)]; [unlinkFails] tells for which paths
    [unlinkSync] throws, an error that the loop swallows. *)
Fixpoint cleanupMediaFiles (unlinkFails : string -> bool) (fs : list string)
  (filePaths : list string) : list string :=
  match filePaths with
  | [] => fs
  | filePath :: rest =>
      let fs' :=
        if existsSync fs filePath then
          if unlinkFails filePath then fs else unlinkSync fs filePath
        else fs in
      cleanupMediaFiles unlinkFails fs' rest
  end.

Section Files.

(** The parts of [saveMediaFile] that belong to Node's [path] and [fs]. *)
Variable extOf : MediaFile -> string.
  (* path.extname(media.filename) || getExtensionFromMimeType(media.mimeType) *)
Variable baseOf : MediaFile -> string.
  (* path.basename(media.filename, ext) *)
Variable tempPath : string -> string.
  (* path.join(TEMP_MEDIA_DIR, fileName) *)
Variable writeFails : string -> option JsError.
  (* ensureTempMediaDir() and fs.writeFileSync(filePath, buffer) *)

Definition fileName (media : MediaFile) (uniqueId : string) : string :=
  uniqueId +++ "_" +++ safeBaseName (baseOf media) +++ extOf media.

Definition saveMediaFile (fs : list string) (media : MediaFile) (uniqueId : string)
  : list string * Res string :=
  let filePath := tempPath (fileName media uniqueId) in
  match writeFails filePath with
  | Some e => (fs, Throw e)
  | None => (if existsSync fs filePath then fs else fs ++ [filePath], Ok filePath)
  end.

(** [mediaFiles.map((media, index) => ...)] from the index [index] on. *)
Fixpoint saveLoop (fs : list string) (mediaFiles : list MediaFile) (index : nat)
  (uniqueId : string) : list string * Res (list string) :=
  match mediaFiles with
  | [] => (fs, Ok [])
  | media :: rest =>
      let indexedId := uniqueId +++ "_" +++ show (Z.of_nat index) in
      match saveMediaFile fs media indexedId with
      | (fs', Throw e) => (fs', Throw e)
      | (fs', Ok filePath) =>
          match saveLoop fs' rest (S index) uniqueId with
          | (fs'', Ok paths) => (fs'', Ok (filePath :: paths))
          | (fs'', Throw e) => (fs'', Throw e)
          end
      end
  end.

Definition saveMediaFiles (fs : list string) (mediaFiles : list MediaFile)
  (uniqueId : string) : list string * Res (list string) :=
  saveLoop fs mediaFiles 0 uniqueId.

End Files.

End Staging.

(** *** Cleaning up *)

Lemma existsSync_In fs path : Staging.existsSync fs path = true <-> In path fs.
Proof.
  unfold Staging.existsSync. rewrite existsb_exists. split.
  - intros (q & Hq & E). apply String.eqb_eq in E. now subst.
  - intros H. exists path. split; [assumption|apply String.eqb_refl].
Qed.

Lemma unlinkSync_In fs path q :
  In q (Staging.unlinkSync fs path) <-> In q fs /\ q <> path.
Proof.
  unfold Staging.unlinkSync. rewrite filter_In, negb_true_iff.
  destruct (String.eqb_spec path q); intuition congruence.
Qed.

(** X19: [cleanupMediaFiles] never creates a file and never touches a file
    that is not in its list; after it, a listed file is gone unless its
    deletion failed, and a listed file whose deletion failed is still
    there, without any error reaching the caller. *)
Theorem cleanupMediaFiles_removes_listed unlinkFails filePaths :
  forall fs q,
    let fs' := Staging.cleanupMediaFiles unlinkFails fs filePaths in
    (In q fs' -> In q fs)
    /\ (~ In q filePaths -> In q fs -> In q fs')
    /\ (In q filePaths -> unlinkFails q = false -> ~ In q fs')
    /\ (In q filePaths -> unlinkFails q = true -> In q fs -> In q fs').
Proof.
  induction filePaths as [|f rest IH]; intros fs q; cbn zeta.
  - simpl. intuition.
  - cbn [Staging.cleanupMediaFiles].
    set (fs1 := if Staging.existsSync fs f
                then if unlinkFails f then fs else Staging.unlinkSync fs f
                else fs).
    assert (H1 : In q fs1 -> In q fs).
    { subst fs1. destruct (Staging.existsSync fs f), (unlinkFails f); auto.
      intros H. now apply unlinkSync_In in H. }
    assert (H2 : q <> f -> In q fs -> In q fs1).
    { subst fs1. destruct (Staging.existsSync fs f), (unlinkFails f); auto.
      intros. now apply unlinkSync_In. }
    assert (H3 : unlinkFails f = false -> ~ In f fs1).
    { subst fs1. intros Hf. rewrite Hf.
      destruct (Staging.existsSync fs f) eqn:E.
      - intros H. apply unlinkSync_In in H. intuition.
      - intros H. apply existsSync_In in H. congruence. }
    assert (H4 : unlinkFails f = true -> In f fs -> In f fs1).
    { subst fs1. intros Hf Hin. rewrite Hf.
      now destruct (Staging.existsSync fs f). }
    destruct (IH fs1 q) as (I1 & I2 & I3 & I4). cbn zeta in *.
    repeat split.
    + auto.
    + intros Hn Hin. apply I2; [|apply H2; auto]; intros H; apply Hn; simpl; auto.
    + intros [->|Hin] Hf.
      * intros H. destruct (in_dec string_dec q rest) as [Hr|Hr].
        -- now apply (I3 Hr Hf).
        -- apply I1 in H. now apply (H3 Hf).
      * now apply I3.
    + intros [->|Hin] Hf Hfs.
      * destruct (in_dec string_dec q rest) as [Hr|Hr].
        -- apply I4; auto.
        -- apply I2; auto.
      * destruct (string_dec q f) as [->|Hne].
        -- apply I4; auto.
        -- apply I4; auto.
Qed.

Lemma cleanupMediaFiles_removes_listed_witness :
  Staging.cleanupMediaFiles (fun _ => false)
    ["/tmp/1_0_a.png"; "/tmp/2_0_b.png"]%string ["/tmp/1_0_a.png"]%string
  = ["/tmp/2_0_b.png"]%string
  /\ ~ In "/tmp/1_0_a.png"%string
       (Staging.cleanupMediaFiles (fun _ => false)
          ["/tmp/1_0_a.png"; "/tmp/2_0_b.png"]%string ["/tmp/1_0_a.png"]%string).
Proof.
  split; [reflexivity|].
  apply (proj1 (proj2 (proj2 (cleanupMediaFiles_removes_listed (fun _ => false)
           ["/tmp/1_0_a.png"%string] ["/tmp/1_0_a.png"; "/tmp/2_0_b.png"]%string
           "/tmp/1_0_a.png")))).
  - simpl. auto.
  - reflexivity.
Defined.

(** *** Naming the staged files *)

From Stdlib Require DecimalPos DecimalZ.

(** A decimal digit. *)
Definition is_decimal (c : ascii) : bool :=
  let n := nat_of_ascii c in ((48 <=? n) && (n <=? 57))%nat.

Lemma string_of_uint_digits d :
  allChars is_decimal (NilEmpty.string_of_uint d) = true.
Proof. induction d; cbn [NilEmpty.string_of_uint allChars]; auto. Qed.

(** The decimal rendering of a natural number has only digits. *)
Lemma show_digits (n : nat) : allChars is_decimal (show (Z.of_nat n)) = true.
Proof.
  unfold show. destruct n as [|n].
  - reflexivity.
  - cbn [Z.of_nat Z.to_int NilZero.string_of_int]. unfold NilZero.string_of_uint.
    pose proof (string_of_uint_digits (Pos.to_uint (Pos.of_succ_nat n))) as H.
    destruct (Pos.to_uint (Pos.of_succ_nat n)); exact H.
Qed.

Lemma show_inj (i j : nat) : show (Z.of_nat i) = show (Z.of_nat j) -> i = j.
Proof.
  unfold show. intros E.
  assert (Hok : forall n : nat,
            NilZero.int_of_string (NilZero.string_of_int (Z.to_int (Z.of_nat n)))
            = Some (Z.to_int (Z.of_nat n))).
  { intros n. apply NilZero.isi.
    - destruct n; cbn [Z.of_nat Z.to_int]; [discriminate|].
      intros H. injection H as H. now apply DecimalPos.Unsigned.to_uint_nonnil in H.
    - destruct n; cbn [Z.of_nat Z.to_int]; discriminate. }
  pose proof (Hok i) as Hi. pose proof (Hok j) as Hj.
  rewrite E in Hi. rewrite Hi in Hj. injection Hj as Hj.
  apply DecimalZ.to_int_inj in Hj. lia.
Qed.

(** Two runs of digits that are each followed by an underscore and agree as
    a whole are the same run. *)
Lemma digits_then_underscore d1 : forall d2 r1 r2,
  allChars is_decimal d1 = true -> allChars is_decimal d2 = true ->
  d1 +++ String "_" r1 = d2 +++ String "_" r2 -> d1 = d2.
Proof.
  induction d1 as [|c d1 IH]; intros [|c' d2] r1 r2 H1 H2 E;
    cbn [String.append allChars] in *.
  - reflexivity.
  - injection E as Ec _. subst c'. apply andb_prop in H2 as [H2 _]. discriminate.
  - injection E as Ec _. subst c. apply andb_prop in H1 as [H1 _]. discriminate.
  - injection E as Ec E. subst c'.
    apply andb_prop in H1 as [_ H1]. apply andb_prop in H2 as [_ H2].
    f_equal. eapply IH; eauto.
Qed.

Lemma append_inj_l s : forall t u, s +++ t = s +++ u -> t = u.
Proof. induction s; cbn [String.append]; intros t u E; [assumption|]. injection E. auto. Qed.

Lemma unlinkSync_if_exists fs f :
  (if Staging.existsSync fs f then Staging.unlinkSync fs f else fs)
  = Staging.unlinkSync fs f.
Proof.
  destruct (Staging.existsSync fs f) eqn:Ex; [reflexivity|].
  unfold Staging.unlinkSync. symmetry.
  induction fs as [|x fs IHfs]; cbn [filter]; [reflexivity|].
  unfold Staging.existsSync in Ex. cbn [existsb] in Ex.
  apply orb_false_iff in Ex as [Ex1 Ex2].
  rewrite Ex1. cbn [negb]. f_equal. now apply IHfs.
Qed.

Lemma filter_unlinkSync rest f fs :
  filter (fun q => negb (existsb (String.eqb q) rest)) (Staging.unlinkSync fs f)
  = filter (fun q => negb (existsb (String.eqb q) (f :: rest))) fs.
Proof.
  unfold Staging.unlinkSync.
  induction fs as [|x fs IHfs]; cbn [filter]; [reflexivity|].
  cbn [existsb]. rewrite (String.eqb_sym x f).
  destruct (String.eqb f x); cbn [negb orb filter].
  - apply IHfs.
  - destruct (existsb (String.eqb x) rest); cbn [negb]; [apply IHfs|f_equal; apply IHfs].
Qed.

Section StagedFiles.

Variable extOf : MediaFile -> string.
Variable baseOf : MediaFile -> string.
Variable tempPath : string -> string.
Variable writeFails : string -> option JsError.

(** The path that [saveMediaFiles] gives the file at position [index]. *)
Definition pathAt (uniqueId : string) (index : nat) (media : MediaFile) : string :=
  tempPath (Staging.fileName extOf baseOf media (uniqueId +++ "_" +++ show (Z.of_nat index))).

Fixpoint pathsFrom (uniqueId : string) (index : nat) (mediaFiles : list MediaFile)
  : list string :=
  match mediaFiles with
  | [] => []
  | media :: rest => pathAt uniqueId index media :: pathsFrom uniqueId (S index) rest
  end.

Lemma pathsFrom_app uniqueId done : forall index rest,
  pathsFrom uniqueId index (done ++ rest)
  = pathsFrom uniqueId index done ++ pathsFrom uniqueId (index + List.length done) rest.
Proof.
  induction done as [|m done IH]; intros index rest; cbn [pathsFrom app List.length].
  - now rewrite Nat.add_0_r.
  - rewrite IH. do 3 f_equal. lia.
Qed.

Lemma saveLoop_spec uniqueId mediaFiles : forall fs index,
  match Staging.saveLoop extOf baseOf tempPath writeFails fs mediaFiles index uniqueId with
  | (fs', Ok paths) =>
      paths = pathsFrom uniqueId index mediaFiles
      /\ (exists added, fs' = fs ++ added /\ incl added paths)
      /\ incl paths fs'
      /\ (forall q, In q paths -> writeFails q = None)
  | (fs', Throw e) =>
      exists done failing rest,
        mediaFiles = done ++ failing :: rest
        /\ writeFails (pathAt uniqueId (index + List.length done) failing) = Some e
        /\ (exists added, fs' = fs ++ added /\ incl added (pathsFrom uniqueId index done))
        /\ incl (pathsFrom uniqueId index done) fs'
  end.
Proof.
  induction mediaFiles as [|m rest IH]; intros fs index; cbn [Staging.saveLoop].
  - repeat split.
    + exists []. split; [now rewrite app_nil_r|intros q []].
    + intros q [].
    + intros q [].
  - unfold Staging.saveMediaFile. fold (pathAt uniqueId index m).
    destruct (writeFails (pathAt uniqueId index m)) as [e|] eqn:W.
    + exists [], m, rest. cbn [app List.length pathsFrom]. rewrite Nat.add_0_r.
      repeat split; auto.
      * exists []. split; [now rewrite app_nil_r|intros q []].
      * intros q [].
    + set (fs1 := if Staging.existsSync fs (pathAt uniqueId index m) then fs
                  else fs ++ [pathAt uniqueId index m]).
      assert (H1 : exists a, fs1 = fs ++ a /\ incl a [pathAt uniqueId index m]).
      { subst fs1. destruct (Staging.existsSync fs (pathAt uniqueId index m)).
        - exists []. split; [now rewrite app_nil_r|intros q []].
        - eexists. split; [reflexivity|]. intros q Hq. exact Hq. }
      assert (H2 : In (pathAt uniqueId index m) fs1).
      { subst fs1. destruct (Staging.existsSync fs (pathAt uniqueId index m)) eqn:E.
        - now apply existsSync_In.
        - apply in_or_app. right. now left. }
      specialize (IH fs1 (S index)).
      destruct (Staging.saveLoop extOf baseOf tempPath writeFails fs1 rest (S index) uniqueId)
        as [fs2 [paths|e]].
      * destruct IH as (-> & (added & -> & Hadd) & Hincl & Hw).
        destruct H1 as (a & Ha & Hain).
        cbn [pathsFrom]. repeat split.
        -- exists (a ++ added). split; [rewrite Ha; now rewrite app_assoc|].
           intros q Hq. apply in_app_or in Hq as [Hq|Hq].
           ++ apply Hain in Hq. destruct Hq as [<-|[]]. now left.
           ++ right. now apply Hadd.
        -- intros q [<-|Hq].
           ++ apply in_or_app. now left.
           ++ now apply Hincl.
        -- intros q [<-|Hq]; [assumption|now apply Hw].
      * destruct IH as (done & failing & rest' & -> & Hw & (added & -> & Hadd) & Hincl).
        destruct H1 as (a & Ha & Hain).
        exists (m :: done), failing, rest'. cbn [app List.length pathsFrom].
        repeat split.
        -- rewrite <- Hw. do 2 f_equal. lia.
        -- exists (a ++ added). split; [rewrite Ha; now rewrite app_assoc|].
           intros q Hq. apply in_app_or in Hq as [Hq|Hq].
           ++ apply Hain in Hq. destruct Hq as [<-|[]]. now left.
           ++ right. now apply Hadd.
        -- intros q [<-|Hq].
           ++ apply in_or_app. now left.
           ++ now apply Hincl.
Qed.

Lemma cleanup_is_filter paths : forall fs,
  Staging.cleanupMediaFiles (fun _ => false) fs paths
  = filter (fun q => negb (existsb (String.eqb q) paths)) fs.
Proof.
  induction paths as [|f rest IH]; intros fs; cbn [Staging.cleanupMediaFiles].
  - cbn [existsb negb]. induction fs as [|x fs IHfs]; cbn [filter]; congruence.
  - rewrite unlinkSync_if_exists, IH. apply filter_unlinkSync.
Qed.

End StagedFiles.

(** The names of two files of one message differ as soon as their positions
    differ, whatever their own file names and extensions are. *)
Lemma fileName_index_inj extOf baseOf uniqueId i j m1 m2 :
  Staging.fileName extOf baseOf m1 (uniqueId +++ "_" +++ show (Z.of_nat i))
  = Staging.fileName extOf baseOf m2 (uniqueId +++ "_" +++ show (Z.of_nat j)) ->
  i = j.
Proof.
  unfold Staging.fileName. rewrite !append_assoc. intros E.
  apply append_inj_l in E. cbn [String.append] in E. injection E as E.
  apply show_inj. eapply digits_then_underscore; eauto using show_digits.
Qed.

Lemma pathsFrom_In extOf baseOf tempPath uniqueId mediaFiles : forall index q,
  In q (pathsFrom extOf baseOf tempPath uniqueId index mediaFiles) ->
  exists k m, (index <= k)%nat /\ q = pathAt extOf baseOf tempPath uniqueId k m.
Proof.
  induction mediaFiles as [|m rest IH]; intros index q; cbn [pathsFrom].
  - intros [].
  - intros [<-|H].
    + exists index, m. split; [lia|reflexivity].
    + apply IH in H as (k & m' & Hk & ->). exists k, m'. split; [lia|reflexivity].
Qed.

(** X20: when [saveMediaFiles] returns, the paths it returns are pairwise
    different (the position of a file is part of its name), so no
    attachment of a message overwrites another one; this holds for any file
    names, as long as joining the directory and a name loses nothing. *)
Theorem staged_files_do_not_collide extOf baseOf tempPath writeFails
  fs mediaFiles uniqueId fs' paths :
  (forall a b, tempPath a = tempPath b -> a = b) ->
  Staging.saveMediaFiles extOf baseOf tempPath writeFails fs mediaFiles uniqueId
  = (fs', Ok paths) ->
  NoDup paths /\ List.length paths = List.length mediaFiles.
Proof.
  intros Hinj E. unfold Staging.saveMediaFiles in E.
  pose proof (saveLoop_spec extOf baseOf tempPath writeFails uniqueId mediaFiles fs 0) as H.
  rewrite E in H. destruct H as (-> & _). clear E. generalize 0%nat as index.
  induction mediaFiles as [|m rest IH]; intros index; cbn [pathsFrom List.length].
  - split; [constructor|reflexivity].
  - destruct (IH (S index)) as [Hnd Hlen]. split; [|now rewrite Hlen].
    constructor; [|assumption].
    intros Hin. apply pathsFrom_In in Hin as (k & m' & Hk & Eq).
    unfold pathAt in Eq. apply Hinj in Eq. apply fileName_index_inj in Eq. lia.
Qed.

Lemma staged_files_do_not_collide_witness :
  exists fs' paths,
    Staging.saveMediaFiles (fun _ => ".png"%string) (fun _ => "photo"%string)
      (fun n => "/tmp/" +++ n) (fun _ => None) [] [Sample.picture; Sample.picture]
      "1700000000000_15551234567"%string = (fs', Ok paths)
    /\ paths = ["/tmp/1700000000000_15551234567_0_photo.png";
                "/tmp/1700000000000_15551234567_1_photo.png"]%string
    /\ NoDup paths.
Proof.
  eexists. eexists. split; [vm_compute; reflexivity|]. split; [reflexivity|].
  apply (staged_files_do_not_collide (fun _ => ".png"%string) (fun _ => "photo"%string)
           (fun n => "/tmp/" +++ n) (fun _ => None) [] [Sample.picture; Sample.picture]
           "1700000000000_15551234567"%string
           ["/tmp/1700000000000_15551234567_0_photo.png";
            "/tmp/1700000000000_15551234567_1_photo.png"]%string).
  - intros a b H. now apply append_inj_l in H.
  - vm_compute. reflexivity.
Defined.

(** X21: when [saveMediaFiles] throws, it is the write of one file that
    failed, with the error thrown; the files before it have been written
    and are still in the directory, nothing that was there before is lost,
    and the caller receives no path with which to remove them. *)
Theorem failed_staging_leaves_files extOf baseOf tempPath writeFails
  fs mediaFiles uniqueId fs' e :
  Staging.saveMediaFiles extOf baseOf tempPath writeFails fs mediaFiles uniqueId
  = (fs', Throw e) ->
  exists done failing rest,
    mediaFiles = done ++ failing :: rest
    /\ writeFails (pathAt extOf baseOf tempPath uniqueId (List.length done) failing) = Some e
    /\ (forall q, In q (pathsFrom extOf baseOf tempPath uniqueId 0 done) -> In q fs')
    /\ (forall q, In q fs -> In q fs').
Proof.
  intros E. unfold Staging.saveMediaFiles in E.
  pose proof (saveLoop_spec extOf baseOf tempPath writeFails uniqueId mediaFiles fs 0) as H.
  rewrite E in H. destruct H as (done & failing & rest & -> & Hw & (added & -> & Hadd) & Hincl).
  exists done, failing, rest. repeat split; auto.
  intros q Hq. apply in_or_app. now left.
Qed.

Lemma failed_staging_leaves_files_witness :
  exists fs',
    Staging.saveMediaFiles (fun _ => ".png"%string) (fun _ => "photo"%string)
      (fun n => "/tmp/" +++ n)
      (fun q => if String.eqb q "/tmp/17_1_1_photo.png" then Some (newError "ENOSPC") else None)
      [] [Sample.picture; Sample.picture] "17_1"%string
    = (fs', Throw (newError "ENOSPC"))
    /\ fs' = ["/tmp/17_1_0_photo.png"%string]
    /\ exists done failing rest,
         [Sample.picture; Sample.picture] = done ++ failing :: rest
         /\ forall q, In q (pathsFrom (fun _ => ".png"%string) (fun _ => "photo"%string)
                              (fun n => "/tmp/" +++ n) "17_1"%string 0 done) -> In q fs'.
Proof.
  eexists. split; [vm_compute; reflexivity|]. split; [reflexivity|].
  destruct (failed_staging_leaves_files (fun _ => ".png"%string) (fun _ => "photo"%string)
           (fun n => "/tmp/" +++ n)
           (fun q => if String.eqb q "/tmp/17_1_1_photo.png" then Some (newError "ENOSPC") else None)
           [] [Sample.picture; Sample.picture] "17_1"%string
           ["/tmp/17_1_0_photo.png"%string] (newError "ENOSPC"))
    as (done & failing & rest & H1 & _ & H3 & _).
  - vm_compute. reflexivity.
  - exists done, failing, rest. split; assumption.
Defined.

Lemma filter_none {A} (f : A -> bool) l :
  (forall x, In x l -> f x = false) -> filter f l = [].
Proof.
  induction l as [|x l IH]; cbn [filter]; intros H; [reflexivity|].
  rewrite (H x (or_introl eq_refl)). apply IH. intros y Hy. apply H. now right.
Qed.

Lemma filter_all {A} (f : A -> bool) l :
  (forall x, In x l -> f x = true) -> filter f l = l.
Proof.
  induction l as [|x l IH]; cbn [filter]; intros H; [reflexivity|].
  rewrite (H x (or_introl eq_refl)). f_equal. apply IH. intros y Hy. apply H. now right.
Qed.

(** X22: staging and then cleaning up is a round trip: if every write
    succeeds, none of the new paths existed before and no deletion fails,
    [cleanupMediaFiles] applied to what [saveMediaFiles] returned leaves the
    directory exactly as it was. *)
Theorem save_then_cleanup_restores extOf baseOf tempPath writeFails
  fs mediaFiles uniqueId fs' paths :
  Staging.saveMediaFiles extOf baseOf tempPath writeFails fs mediaFiles uniqueId
  = (fs', Ok paths) ->
  (forall q, In q paths -> ~ In q fs) ->
  (forall q, In q paths -> In q fs')
  /\ Staging.cleanupMediaFiles (fun _ => false) fs' paths = fs.
Proof.
  intros E Hfresh. unfold Staging.saveMediaFiles in E.
  pose proof (saveLoop_spec extOf baseOf tempPath writeFails uniqueId mediaFiles fs 0) as H.
  rewrite E in H. destruct H as (_ & (added & -> & Hadd) & Hincl & _).
  split; [exact Hincl|].
  rewrite cleanup_is_filter, filter_app.
  rewrite filter_all, filter_none; [apply app_nil_r| |].
  - intros q Hq. apply Hadd in Hq. apply negb_false_iff, existsb_exists.
    exists q. split; [assumption|apply String.eqb_refl].
  - intros q Hq. apply negb_true_iff.
    destruct (existsb (String.eqb q) paths) eqn:Ex; [|reflexivity].
    apply existsb_exists in Ex as (y & Hy & Eq). apply String.eqb_eq in Eq. subst y.
    now apply Hfresh in Hy.
Qed.

Lemma save_then_cleanup_restores_witness :
  exists fs' paths,
    Staging.saveMediaFiles (fun _ => ".png"%string) (fun _ => "photo"%string)
      (fun n => "/tmp/" +++ n) (fun _ => None) ["/tmp/old.bin"%string]
      [Sample.picture; Sample.picture] "17_1"%string = (fs', Ok paths)
    /\ fs' = ["/tmp/old.bin"; "/tmp/17_1_0_photo.png"; "/tmp/17_1_1_photo.png"]%string
    /\ Staging.cleanupMediaFiles (fun _ => false) fs' paths = ["/tmp/old.bin"%string].
Proof.
  eexists. eexists. split; [vm_compute; reflexivity|]. split; [reflexivity|].
  apply (save_then_cleanup_restores (fun _ => ".png"%string) (fun _ => "photo"%string)
           (fun n => "/tmp/" +++ n) (fun _ => None) ["/tmp/old.bin"%string]
           [Sample.picture; Sample.picture] "17_1"%string).
  - vm_compute. reflexivity.
  - intros q Hq [<-|[]]. vm_compute in Hq. intuition discriminate.
Defined.

(** ** services/openphone.service.ts: the steps on the page *)

Module Ui.

(** What a step does to the page, to the list of screenshots and to the
    clock. *)
Inductive Action : Type :=
| Press (key : string)                          (* page.keyboard.press(key) *)
| TypeText (text : string)                      (* page.keyboard.type(text, ...) *)
| Click (selector : string)                     (* click() of the element found by selector *)
| SetInputFiles (selector : string) (filePaths : list string)
| DropFile (filePath : string)                  (* readFileSync and the evaluated drop script *)
| Screenshot (path : string)                    (* page.screenshot({ path, fullPage: true }) *)
| Push (path : string)                          (* this.currentScreenshots.push(path) *)
| WaitFor (selector : string) (timeout : Z)     (* waitForSelector(...).catch(() => null) *)
| Sleep (ms : Z).

(** An action with the error it threw, if any. *)
Definition Entry : Type := (Action * option JsError)%type.
Definition History : Type := list Entry.

(** The page answers according to all that has been done to it so far. *)
Record Page : Type := mkPage {
  ready : bool;                                   (* this.page is not null *)
  act : History -> Action -> option JsError;
  found : History -> string -> Res bool;          (* page.$(selector): element or null *)
  visible : History -> string -> Res bool;        (* element.isVisible() *)
  shotPath : History -> string -> string          (* path.join(screenshotsDir, `kind-${Date.now()}.png`) *)
}.

(** A step reads the history and yields what it adds to it. *)
Definition U (A : Type) : Type := History -> list Entry * Res A.

Definition uret {A} (a : A) : U A := fun _ => ([], Ok a).
Definition uthrow {A} (e : JsError) : U A := fun _ => ([], Throw e).

Definition ubind {A B} (m : U A) (k : A -> U B) : U B :=
  fun h =>
    match m h with
    | (t, Ok a) => let (t', r) := k a (h ++ t) in (t ++ t', r)
    | (t, Throw e) => (t, Throw e)
    end.

Definition ucatch {A} (m : U A) (handler : JsError -> U A) : U A :=
  fun h =>
    match m h with
    | (t, Ok a) => (t, Ok a)
    | (t, Throw e) => let (t', r) := handler e (h ++ t) in (t ++ t', r)
    end.

Local Notation "x <~ m ;; k" := (ubind m (fun x => k))
  (at level 61, m at next level, right associativity).
Local Notation "m ~> k" := (ubind m (fun _ => k))
  (at level 61, right associativity).

Definition phoneFieldSelectors : list string :=
  [ "div._184fmnq3";
    "div._184fmnq2 > div._184fmnq3";
    "#main-container > div > main > div.esdmfr4.esdmfr5.xwhz9w0.xwhz9w6 > div.monzvo0 > div.monzvo1 > div.g4ubtn0 > div._160c0eh1.xw761z0 > div > div._184fmnq2 > div._184fmnq3";
    "input[aria-label=" +++ OpenPhone.dq +++ "participant input" +++ OpenPhone.dq +++ "]";
    "input._10wipo31" ]%string.

Definition messageFieldSelectors : list string :=
  [ "p[aria-label=" +++ OpenPhone.dq +++ "message input" +++ OpenPhone.dq +++ "]";
    "[aria-label=" +++ OpenPhone.dq +++ "message input" +++ OpenPhone.dq +++ "]";
    "p[role=" +++ OpenPhone.dq +++ "paragraph" +++ OpenPhone.dq +++ "]" ]%string.

Definition attachButtonSelectors : list string :=
  [ "button[aria-label=" +++ OpenPhone.dq +++ "Attach" +++ OpenPhone.dq +++ "]";
    "button[aria-label=" +++ OpenPhone.dq +++ "Attachment" +++ OpenPhone.dq +++ "]";
    "button[aria-label=" +++ OpenPhone.dq +++ "Add attachment" +++ OpenPhone.dq +++ "]";
    "[data-testid=" +++ OpenPhone.dq +++ "attachment-button" +++ OpenPhone.dq +++ "]";
    "[data-testid=" +++ OpenPhone.dq +++ "attach-button" +++ OpenPhone.dq +++ "]";
    "button svg[data-testid=" +++ OpenPhone.dq +++ "AttachmentIcon" +++ OpenPhone.dq +++ "]";
    "button:has(svg[class*=" +++ OpenPhone.dq +++ "attachment" +++ OpenPhone.dq +++ "])";
    "button:has(svg path[d*=" +++ OpenPhone.dq +++ "M16.5" +++ OpenPhone.dq +++ "])";
    "button._1rh31vu1" ]%string.

Definition fileInputSelectors : list string :=
  [ "input[type=" +++ OpenPhone.dq +++ "file" +++ OpenPhone.dq +++ "]";
    "input[accept*=" +++ OpenPhone.dq +++ "image" +++ OpenPhone.dq +++ "]";
    "input[accept*=" +++ OpenPhone.dq +++ "video" +++ OpenPhone.dq +++ "]";
    "input[accept*=" +++ OpenPhone.dq +++ "pdf" +++ OpenPhone.dq +++ "]" ]%string.

Definition dropZoneSelectors : list string :=
  [ "[aria-label=" +++ OpenPhone.dq +++ "message input" +++ OpenPhone.dq +++ "]";
    "div[contenteditable=" +++ OpenPhone.dq +++ "true" +++ OpenPhone.dq +++ "]";
    ".message-composer";
    "[data-testid=" +++ OpenPhone.dq +++ "message-input" +++ OpenPhone.dq +++ "]" ]%string.

Section Steps.

Variable pg : Page.

Definition perform (a : Action) : U unit :=
  fun h =>
    let r := act pg h a in
    ([(a, r)], match r with Some e => Throw e | None => Ok tt end).

Definition sleep (ms : Z) : U unit := fun _ => ([(Sleep ms, None)], Ok tt).

Definition waitForSelector (selector : string) (timeout : Z) : U unit :=
  fun _ => ([(WaitFor selector timeout, None)], Ok tt).

Definition query (selector : string) : U bool := fun h => ([], found pg h selector).
Definition isVisible (selector : string) : U bool := fun h => ([], visible pg h selector).

Definition push (path : string) : U unit := fun _ => ([(Push path, None)], Ok tt).

(** [const p = path.join(...); await page.screenshot({ path: p });
    this.currentScreenshots.push(p)]. *)
Definition screenshot (kind : string) : U unit :=
  fun h => (perform (Screenshot (shotPath pg h kind)) ~> push (shotPath pg h kind)) h.

Definition pageGuard : U unit :=
  fun _ => if ready pg then ([], Ok tt) else ([], Throw (newError "Page not initialized")).

Definition clickNewConversation : U unit :=
  pageGuard ~> perform (Press "Alt+N") ~> sleep 1500.

(** The loop of [enterPhoneNumber]; the value is [phoneFieldClicked]. *)
Fixpoint phoneLoop (selectors : list string) : U bool :=
  match selectors with
  | [] => uret false
  | selector :: rest =>
      clicked <~ ucatch
        (waitForSelector selector 3000 ~>
         element <~ query selector ;;
         if element then
           shown <~ isVisible selector ;;
           if shown then perform (Click selector) ~> sleep 500 ~> uret true
           else uret false
         else uret false)
        (fun _ => uret false) ;;
      if clicked then uret true else phoneLoop rest
  end.

Definition enterPhoneNumber (phone : string) : U unit :=
  pageGuard ~> sleep 1500 ~>
  phoneLoop phoneFieldSelectors ~>
  perform (TypeText phone) ~> sleep 2000.

(** The loop of [enterMessageText]; the value tells that the method has
    returned from inside the loop. *)
Fixpoint messageLoop (text : string) (selectors : list string) : U bool :=
  match selectors with
  | [] => uret false
  | selector :: rest =>
      returned <~ ucatch
        (waitForSelector selector 5000 ~>
         element <~ query selector ;;
         if element then
           shown <~ isVisible selector ;;
           if shown then
             perform (Click selector) ~> sleep 500 ~>
             perform (TypeText text) ~> sleep 500 ~> uret true
           else uret false
         else uret false)
        (fun _ => uret false) ;;
      if returned then uret true else messageLoop text rest
  end.

Definition enterMessageText (text : string) : U unit :=
  pageGuard ~> sleep 1500 ~>
  returned <~ messageLoop text messageFieldSelectors ;;
  if returned then uret tt
  else perform (Press "Tab") ~> sleep 500 ~> perform (TypeText text) ~> sleep 500.

(** [let el = null; for (selector) { try { el = await page.$(selector);
    if (el && await el.isVisible()) break; } catch { continue; } }]: the
    variable keeps what was assigned last.  An element is named by the
    selector that found it. *)
Fixpoint scanVisible (selectors : list string) (current : option string)
  : U (option string) :=
  fun h =>
    match selectors with
    | [] => ([], Ok current)
    | selector :: rest =>
        match found pg h selector with
        | Throw _ => scanVisible rest current h
        | Ok false => scanVisible rest None h
        | Ok true =>
            match visible pg h selector with
            | Ok true => ([], Ok (Some selector))
            | _ => scanVisible rest (Some selector) h
            end
        end
    end.

(** The same without the test of visibility. *)
Fixpoint scanFound (selectors : list string) (current : option string)
  : U (option string) :=
  fun h =>
    match selectors with
    | [] => ([], Ok current)
    | selector :: rest =>
        match found pg h selector with
        | Throw _ => scanFound rest current h
        | Ok false => scanFound rest None h
        | Ok true => ([], Ok (Some selector))
        end
    end.

Fixpoint dropLoop (filePaths : list string) : U unit :=
  match filePaths with
  | [] => uret tt
  | filePath :: rest => perform (DropFile filePath) ~> dropLoop rest
  end.

Definition attachMediaFiles (filePaths : list string) : U unit :=
  pageGuard ~>
  attachButton <~ scanVisible attachButtonSelectors None ;;
  (match attachButton with
   | Some button => perform (Click button) ~> sleep 1000
   | None => uret tt
   end) ~>
  fileInput <~ scanFound fileInputSelectors None ;;
  match fileInput with
  | Some input =>
      perform (SetInputFiles input filePaths) ~> sleep 2000 ~>
      screenshot "after-attach"
  | None =>
      dropZone <~ scanVisible dropZoneSelectors None ;;
      match dropZone with
      | Some _ => dropLoop filePaths ~> sleep 2000
      | None => uthrow (newError "No attachment method available")
      end
  end.

Definition clickSendButton : U unit :=
  pageGuard ~> sleep 1000 ~>
  screenshot "before-send" ~>
  perform (Press "Enter") ~> sleep 500 ~>
  screenshot "after-send" ~>
  sleep 1500.

End Steps.

(** The screenshots that a run has pushed. *)
Definition pushes (t : list Entry) : list string :=
  flat_map (fun x => match x with (Push path, _) => [path] | _ => [] end) t.

(** The texts that were typed, with the error of each typing. *)
Definition typings (t : list Entry) : list (string * option JsError) :=
  flat_map (fun x => match x with (TypeText s, r) => [(s, r)] | _ => [] end) t.

(** The keys that were pressed, with the error of each. *)
Definition presses (t : list Entry) : list (string * option JsError) :=
  flat_map (fun x => match x with (Press k, r) => [(k, r)] | _ => [] end) t.

(** The clicks, with the error of each. *)
Definition clicks (t : list Entry) : list (string * option JsError) :=
  flat_map (fun x => match x with (Click s, r) => [(s, r)] | _ => [] end) t.

(** The files handed to the page: all at once to a file input, or one at a
    time by a drop. *)
Definition handed (t : list Entry) : list (list string * option JsError) :=
  flat_map (fun x => match x with
                     | (SetInputFiles _ fs, r) => [(fs, r)]
                     | (DropFile f, r) => [([f], r)]
                     | _ => []
                     end) t.

(** A step as [sendMessage] sees it. *)
Definition outcomeOf (run : list Entry * Res unit) : StepOutcome :=
  {| pushed := pushes (fst run);
     failure := match snd run with Throw e => Some e | Ok _ => None end |}.

End Ui.

(** *** Looking for an element *)

(** The selector yields an element that is visible. *)
Definition shown (pg : Ui.Page) (h : Ui.History) (selector : string) : bool :=
  match Ui.found pg h selector, Ui.visible pg h selector with
  | Ok true, Ok true => true
  | _, _ => false
  end.

(** What the variable of the loop holds when no pass leaves the loop. *)
Fixpoint lastAssigned (pg : Ui.Page) (h : Ui.History) (selectors : list string)
  (current : option string) : option string :=
  match selectors with
  | [] => current
  | selector :: rest =>
      lastAssigned pg h rest
        (match Ui.found pg h selector with
         | Throw _ => current
         | Ok false => None
         | Ok true => Some selector
         end)
  end.

Lemma scanVisible_run pg h selectors : forall current,
  Ui.scanVisible pg selectors current h
  = ([], Ok (match find (shown pg h) selectors with
             | Some selector => Some selector
             | None => lastAssigned pg h selectors current
             end)).
Proof.
  induction selectors as [|s rest IH]; intros current;
    cbn [Ui.scanVisible find lastAssigned]; [reflexivity|].
  unfold shown at 1.
  destruct (Ui.found pg h s) as [[|]|e]; [|apply IH|apply IH].
  destruct (Ui.visible pg h s) as [[|]|e]; [reflexivity|apply IH|apply IH].
Qed.

Lemma lastAssigned_found pg h selectors : forall current s,
  lastAssigned pg h selectors current = Some s ->
  current = Some s \/ (In s selectors /\ Ui.found pg h s = Ok true).
Proof.
  induction selectors as [|x rest IH]; intros current s; cbn [lastAssigned].
  - auto.
  - intros H. apply IH in H as [H|[H1 H2]].
    + destruct (Ui.found pg h x) as [[|]|e] eqn:E.
      * injection H as <-. right. split; [now left|assumption].
      * discriminate.
      * now left.
    + right. split; [now right|assumption].
Qed.

Lemma lastAssigned_last pg h init last current :
  lastAssigned pg h (init ++ [last]) current
  = match Ui.found pg h last with
    | Throw _ => lastAssigned pg h init current
    | Ok false => None
    | Ok true => Some last
    end.
Proof.
  revert current. induction init as [|x init IH]; intros current; cbn [app lastAssigned].
  - reflexivity.
  - apply IH.
Qed.

(** X23: the search for a visible element (attachment button, drop zone)
    never throws and touches nothing.  It returns the first selector whose
    element is visible; when there is none it returns what the last
    answered query gave, so an element that is found but hidden is
    returned when it comes from the last selector, and is forgotten when a
    later selector finds nothing. *)
Theorem scanVisible_keeps_last_answer pg h selectors :
  exists r,
    Ui.scanVisible pg selectors None h = ([], Ok r)
    /\ (forall s, r = Some s -> In s selectors /\ Ui.found pg h s = Ok true)
    /\ (forall s, find (shown pg h) selectors = Some s -> r = Some s)
    /\ (find (shown pg h) selectors = None ->
        forall init last, selectors = init ++ [last] ->
          (Ui.found pg h last = Ok true -> r = Some last /\ shown pg h last = false)
          /\ (Ui.found pg h last = Ok false -> r = None)).
Proof.
  eexists. split; [apply scanVisible_run|]. split; [|split].
  - intros s. destruct (find (shown pg h) selectors) as [x|] eqn:F.
    + intros E. injection E as ->. apply find_some in F as [Hin Hs]. split; [assumption|].
      unfold shown in Hs. destruct (Ui.found pg h s) as [[|]|]; try discriminate. reflexivity.
    + intros E. apply lastAssigned_found in E as [E|E]; [discriminate|assumption].
  - intros s ->. reflexivity.
  - intros F init last ->. rewrite F, lastAssigned_last. split.
    + intros ->. split; [reflexivity|].
      apply (find_none _ _ F). apply in_or_app. right. now left.
    + intros ->. reflexivity.
Qed.

(** The search for a file input returns the first selector that finds an
    element. *)
Lemma scanFound_run pg h selectors :
  exists r,
    Ui.scanFound pg selectors None h = ([], Ok r)
    /\ (r = None -> forall s, In s selectors -> Ui.found pg h s <> Ok true).
Proof.
  induction selectors as [|s rest IH]; cbn [Ui.scanFound].
  - exists None. split; [reflexivity|]. intros _ s [].
  - destruct (Ui.found pg h s) as [[|]|e] eqn:E.
    + exists (Some s). split; [reflexivity|discriminate].
    + destruct IH as (r & -> & Hr). exists r. split; [reflexivity|].
      intros Hn x [<-|Hx]; [congruence|now apply Hr].
    + destruct IH as (r & -> & Hr). exists r. split; [reflexivity|].
      intros Hn x [<-|Hx]; [congruence|now apply Hr].
Qed.

(** *** Attaching the files *)

Lemma pushes_app t u : Ui.pushes (t ++ u) = Ui.pushes t ++ Ui.pushes u.
Proof. apply flat_map_app. Qed.

Lemma handed_app t u : Ui.handed (t ++ u) = Ui.handed t ++ Ui.handed u.
Proof. apply flat_map_app. Qed.

Lemma typings_app t u : Ui.typings (t ++ u) = Ui.typings t ++ Ui.typings u.
Proof. apply flat_map_app. Qed.

Lemma presses_app t u : Ui.presses (t ++ u) = Ui.presses t ++ Ui.presses u.
Proof. apply flat_map_app. Qed.

Lemma clicks_app t u : Ui.clicks (t ++ u) = Ui.clicks t ++ Ui.clicks u.
Proof. apply flat_map_app. Qed.

Lemma pushes_cons x t :
  Ui.pushes (x :: t)
  = match x with (Ui.Push path, _) => [path] | _ => [] end ++ Ui.pushes t.
Proof. reflexivity. Qed.

Lemma typings_cons x t :
  Ui.typings (x :: t)
  = match x with (Ui.TypeText s, r) => [(s, r)] | _ => [] end ++ Ui.typings t.
Proof. reflexivity. Qed.

Lemma presses_cons x t :
  Ui.presses (x :: t)
  = match x with (Ui.Press k, r) => [(k, r)] | _ => [] end ++ Ui.presses t.
Proof. reflexivity. Qed.

Lemma clicks_cons x t :
  Ui.clicks (x :: t)
  = match x with (Ui.Click s, r) => [(s, r)] | _ => [] end ++ Ui.clicks t.
Proof. reflexivity. Qed.

(** Pushes the projections of a run through its entries. *)
Ltac project_run :=
  rewrite ?clicks_app, ?typings_app, ?presses_app, ?pushes_app,
          ?clicks_cons, ?typings_cons, ?presses_cons, ?pushes_cons;
  rewrite ?clicks_app, ?typings_app, ?presses_app, ?pushes_app,
          ?clicks_cons, ?typings_cons, ?presses_cons, ?pushes_cons;
  change (Ui.clicks []) with (@nil (string * option JsError));
  change (Ui.typings []) with (@nil (string * option JsError));
  change (Ui.presses []) with (@nil (string * option JsError));
  change (Ui.pushes []) with (@nil string);
  cbn [app].

(** A file handed over without error. *)
Definition dropped (filePath : string) : list string * option JsError :=
  ([filePath], None).

Lemma dropLoop_run pg filePaths : forall h,
  exists t r,
    Ui.dropLoop pg filePaths h = (t, r)
    /\ Ui.pushes t = [] /\ Ui.clicks t = []
    /\ match r with
       | Ok _ => Ui.handed t = map dropped filePaths
       | Throw e =>
           exists done failing rest,
             filePaths = done ++ failing :: rest
             /\ Ui.handed t = map dropped done ++ [([failing], Some e)]
       end.
Proof.
  induction filePaths as [|f rest IH]; intros h; cbn [Ui.dropLoop].
  - exists [], (Ok tt). repeat split.
  - unfold Ui.ubind, Ui.perform.
    destruct (Ui.act pg h (Ui.DropFile f)) as [e|] eqn:E.
    + eexists. eexists. split; [reflexivity|]. repeat split.
      exists [], f, rest. split; reflexivity.
    + destruct (IH (h ++ [(Ui.DropFile f, None)])) as (t & r & -> & Hp & Hc & Hr).
      eexists. eexists. split; [reflexivity|].
      rewrite pushes_app, clicks_app, handed_app, Hp, Hc. repeat split.
      destruct r as [[]|e].
      * cbn [map]. rewrite Hr. reflexivity.
      * destruct Hr as (done & failing & rest' & -> & ->).
        exists (f :: done), failing, rest'. split; reflexivity.
Qed.

(** X24: [attachMediaFiles] hands the files to the page by one method only.
    When it returns, either one file input received all the paths in one
    call and one screenshot was pushed, or every path was dropped once, in
    order, and no screenshot was pushed.  When it throws it has pushed no
    screenshot, and what it has handed over is nothing, the whole list (its
    own error, or that of the screenshot after it), or the files dropped
    before the failing one.  The attachment button is clicked at most
    once. *)
Theorem attachMediaFiles_one_method pg h filePaths t r :
  Ui.ready pg = true ->
  Ui.attachMediaFiles pg filePaths h = (t, r) ->
  (List.length (Ui.clicks t) <= 1)%nat
  /\ match r with
     | Ok _ =>
         (Ui.handed t = [(filePaths, None)] /\ List.length (Ui.pushes t) = 1%nat)
         \/ (Ui.handed t = map dropped filePaths /\ Ui.pushes t = [])
     | Throw e =>
         Ui.pushes t = []
         /\ (Ui.handed t = []
             \/ (exists r', Ui.handed t = [(filePaths, r')])
             \/ (exists done failing rest,
                   filePaths = done ++ failing :: rest
                   /\ Ui.handed t = map dropped done ++ [([failing], Some e)]))
     end.
Proof.
  intros Hready. unfold Ui.attachMediaFiles, Ui.pageGuard.
  unfold Ui.ubind at 1. rewrite Hready.
  unfold Ui.ubind at 1. rewrite scanVisible_run.
  set (button := match find (shown pg (h ++ [])) Ui.attachButtonSelectors with
                 | Some s => Some s
                 | None => lastAssigned pg (h ++ []) Ui.attachButtonSelectors None
                 end).
  cbn [app].
  assert (Hclick : exists tc rc,
            (match button with
             | Some b => Ui.ubind (Ui.perform pg (Ui.Click b)) (fun _ => Ui.sleep 1000)
             | None => Ui.uret tt
             end) ((h ++ []) ++ []) = (tc, rc)
            /\ Ui.pushes tc = [] /\ Ui.handed tc = []
            /\ (List.length (Ui.clicks tc) <= 1)%nat).
  { destruct button as [b|].
    - unfold Ui.ubind, Ui.perform, Ui.sleep.
      destruct (Ui.act pg _ (Ui.Click b)); eexists; eexists;
        (split; [reflexivity|]); repeat split; cbn; lia.
    - eexists. eexists. split; [reflexivity|]. repeat split. cbn. lia. }
  destruct Hclick as (tc & rc & Ec & Hpc & Hhc & Hcc).
  unfold Ui.ubind at 1. rewrite Ec.
  destruct rc as [[]|ec].
  2:{ intros E. injection E as <- <-. rewrite Hpc, Hhc. split; [assumption|]. auto. }
  unfold Ui.ubind at 1.
  destruct (scanFound_run pg (((h ++ []) ++ []) ++ tc) Ui.fileInputSelectors)
    as (input & -> & _).
  destruct input as [input|].
  - unfold Ui.ubind, Ui.perform, Ui.sleep, Ui.screenshot, Ui.push.
    unfold Ui.ubind, Ui.perform.
    match goal with |- context [Ui.act pg ?hh (Ui.SetInputFiles input filePaths)] =>
      destruct (Ui.act pg hh (Ui.SetInputFiles input filePaths)) as [e|] eqn:Eset end.
    + intros E. injection E as <- <-.
      rewrite !pushes_app, !handed_app, !clicks_app, Hpc, Hhc.
      cbn [Ui.pushes Ui.handed Ui.clicks flat_map app]. rewrite !app_nil_r.
      split; [assumption|]. split; [reflexivity|]. right. left. eauto.
    + match goal with |- context [Ui.act pg ?hh (Ui.Screenshot ?p)] =>
        destruct (Ui.act pg hh (Ui.Screenshot p)) as [e|] eqn:Eshot end.
      * intros E. injection E as <- <-.
        rewrite !pushes_app, !handed_app, !clicks_app, Hpc, Hhc.
        cbn [Ui.pushes Ui.handed Ui.clicks flat_map app]. rewrite !app_nil_r.
        split; [assumption|]. split; [reflexivity|]. right. left. eauto.
      * intros E. injection E as <- <-.
        rewrite !pushes_app, !handed_app, !clicks_app, Hpc, Hhc.
        cbn [Ui.pushes Ui.handed Ui.clicks flat_map app]. rewrite !app_nil_r.
        split; [assumption|]. left. split; reflexivity.
  - unfold Ui.ubind at 1. rewrite scanVisible_run.
    match goal with |- context [match ?z with Some _ => Some _ | None => lastAssigned _ _ _ _ end] =>
      destruct z as [zone|] end.
    + unfold Ui.ubind, Ui.sleep.
      match goal with |- context [Ui.dropLoop pg filePaths ?hh] =>
        destruct (dropLoop_run pg filePaths hh) as (td & rd & -> & Hpd & Hcd & Hrd) end.
      destruct rd as [[]|ed].
      * intros E. injection E as <- <-.
        rewrite !pushes_app, !handed_app, !clicks_app, Hpc, Hhc, Hpd, Hcd, Hrd.
        cbn [Ui.pushes Ui.handed Ui.clicks flat_map app]. rewrite !app_nil_r.
        split; [assumption|]. right. split; reflexivity.
      * intros E. injection E as <- <-.
        rewrite !pushes_app, !handed_app, !clicks_app, Hpc, Hhc, Hpd, Hcd.
        cbn [Ui.pushes Ui.handed Ui.clicks flat_map app]. rewrite !app_nil_r.
        split; [assumption|]. split; [reflexivity|]. right. right. assumption.
    + match goal with |- context [lastAssigned ?a ?b ?c ?d] =>
        destruct (lastAssigned a b c d) as [zone|] end.
      * unfold Ui.ubind, Ui.sleep.
        match goal with |- context [Ui.dropLoop pg filePaths ?hh] =>
          destruct (dropLoop_run pg filePaths hh) as (td & rd & -> & Hpd & Hcd & Hrd) end.
        destruct rd as [[]|ed].
        -- intros E. injection E as <- <-.
           rewrite !pushes_app, !handed_app, !clicks_app, Hpc, Hhc, Hpd, Hcd, Hrd.
           cbn [Ui.pushes Ui.handed Ui.clicks flat_map app]. rewrite !app_nil_r.
           split; [assumption|]. right. split; reflexivity.
        -- intros E. injection E as <- <-.
           rewrite !pushes_app, !handed_app, !clicks_app, Hpc, Hhc, Hpd, Hcd.
           cbn [Ui.pushes Ui.handed Ui.clicks flat_map app]. rewrite !app_nil_r.
           split; [assumption|]. split; [reflexivity|]. right. right. assumption.
      * unfold Ui.uthrow. intros E. injection E as <- <-.
        rewrite !pushes_app, !handed_app, !clicks_app, Hpc, Hhc.
        cbn [Ui.pushes Ui.handed Ui.clicks flat_map app]. rewrite !app_nil_r.
        split; [assumption|]. split; [reflexivity|]. now left.
Qed.

Module SamplePage.

(** A page where everything works and only the selectors of [present] find
    an element, all of them visible. *)
Definition pageWith (present : list string) : Ui.Page :=
  {| Ui.ready := true;
     Ui.act := fun _ _ => None;
     Ui.found := fun _ s => Ok (existsb (String.eqb s) present);
     Ui.visible := fun _ _ => Ok true;
     Ui.shotPath := fun _ kind => "/shots/" +++ kind +++ ".png" |}.

Definition fileInput : string := "input[type=" +++ OpenPhone.dq +++ "file" +++ OpenPhone.dq +++ "]".
Definition messageInput : string :=
  "p[aria-label=" +++ OpenPhone.dq +++ "message input" +++ OpenPhone.dq +++ "]".

(** The same page, on which the action [broken] throws [e] after the action
    [after] has been done. *)
Definition breaksAfter (present : list string)
  (after broken : Ui.Action -> bool) (e : JsError) : Ui.Page :=
  {| Ui.ready := true;
     Ui.act := fun h a =>
       if broken a && existsb (fun x => after (fst x)) h then Some e else None;
     Ui.found := fun _ s => Ok (existsb (String.eqb s) present);
     Ui.visible := fun _ _ => Ok true;
     Ui.shotPath := fun _ kind => "/shots/" +++ kind +++ ".png" |}.

Definition isEnter (a : Ui.Action) : bool :=
  match a with Ui.Press k => String.eqb k "Enter" | _ => false end.

Definition isScreenshot (a : Ui.Action) : bool :=
  match a with Ui.Screenshot _ => true | _ => false end.

Definition isTyping (a : Ui.Action) : bool :=
  match a with Ui.TypeText _ => true | _ => false end.

Definition isClick (a : Ui.Action) : bool :=
  match a with Ui.Click _ => true | _ => false end.

Definition timedOut : JsError :=
  {| err_name := "TimeoutError"; err_message := "Timeout 30000ms exceeded" |}.

End SamplePage.

Lemma attachMediaFiles_one_method_witness :
  exists t,
    Ui.attachMediaFiles (SamplePage.pageWith [SamplePage.fileInput])
      ["/tmp/17_1_0_photo.png"%string] [] = (t, Ok tt)
    /\ Ui.handed t = [(["/tmp/17_1_0_photo.png"%string], None)]
    /\ (List.length (Ui.clicks t) <= 1)%nat.
Proof.
  eexists. split; [vm_compute; reflexivity|]. split; [reflexivity|].
  refine (proj1 (attachMediaFiles_one_method (SamplePage.pageWith [SamplePage.fileInput]) []
                   ["/tmp/17_1_0_photo.png"%string] _ (Ok tt) _ _)).
  - reflexivity.
  - vm_compute. reflexivity.
Defined.

(** *** Typing the number and the text *)

Definition failedEntry {A} (x : A * option JsError) : Prop := snd x <> None.

Lemma phoneLoop_run pg selectors : forall h,
  exists t clicked failed,
    Ui.phoneLoop pg selectors h = (t, Ok clicked)
    /\ Ui.typings t = [] /\ Ui.presses t = [] /\ Ui.pushes t = []
    /\ Forall (fun c => In (fst c) selectors) (Ui.clicks t)
    /\ Forall failedEntry failed
    /\ ((clicked = false /\ Ui.clicks t = failed)
        \/ (clicked = true /\ exists s, Ui.clicks t = failed ++ [(s, None)])).
Proof.
  induction selectors as [|s rest IH]; intros h; cbn [Ui.phoneLoop].
  - exists [], false, []. repeat split; auto.
  - unfold Ui.ubind at 1. unfold Ui.ucatch, Ui.ubind, Ui.waitForSelector, Ui.query,
      Ui.isVisible, Ui.perform, Ui.sleep, Ui.uret.
    assert (Hnext : forall t0 e0,
      Ui.typings t0 = [] -> Ui.presses t0 = [] -> Ui.pushes t0 = [] ->
      Ui.clicks t0 = e0 -> Forall failedEntry e0 ->
      Forall (fun c => In (fst c) (s :: rest)) e0 ->
      exists t clicked failed,
        (let (t', r) := Ui.phoneLoop pg rest (h ++ t0) in (t0 ++ t', r)) = (t, Ok clicked)
        /\ Ui.typings t = [] /\ Ui.presses t = [] /\ Ui.pushes t = []
        /\ Forall (fun c => In (fst c) (s :: rest)) (Ui.clicks t)
        /\ Forall failedEntry failed
        /\ ((clicked = false /\ Ui.clicks t = failed)
            \/ (clicked = true /\ exists s', Ui.clicks t = failed ++ [(s', None)]))).
    { intros t0 e0 Ht Hp Hs Hc Hf Hin.
      destruct (IH (h ++ t0)) as (t' & clicked & failed & -> & Ht' & Hp' & Hs' & Hin' & Hf' & Hcl).
      exists (t0 ++ t'), clicked, (e0 ++ failed). split; [reflexivity|].
      rewrite typings_app, presses_app, pushes_app, clicks_app, Ht, Hp, Hs, Ht', Hp', Hs', Hc.
      repeat split.
      - apply Forall_app. split; [assumption|].
        eapply Forall_impl; [|exact Hin']. intros c Hc'. now right.
      - apply Forall_app. now split.
      - destruct Hcl as [[-> ->]|[-> (s' & ->)]].
        + now left.
        + right. split; [reflexivity|]. exists s'. now rewrite app_assoc. }
    destruct (Ui.found pg _ s) as [[|]|e].
    + destruct (Ui.visible pg _ s) as [[|]|e].
      * match goal with |- context [Ui.act pg ?hh (Ui.Click s)] =>
          destruct (Ui.act pg hh (Ui.Click s)) as [e|] end.
        -- cbn [app]. apply Hnext with (e0 := [(s, Some e)]); try reflexivity.
           ++ constructor; [discriminate|constructor].
           ++ constructor; [now left|constructor].
        -- cbn [app]. exists [(Ui.WaitFor s 3000, None); (Ui.Click s, None); (Ui.Sleep 500, None)],
             true, []. repeat split.
           ++ constructor; [now left|constructor].
           ++ constructor.
           ++ right. split; [reflexivity|]. now exists s.
      * cbn [app]. apply Hnext with (e0 := []); try reflexivity; constructor.
      * cbn [app]. apply Hnext with (e0 := []); try reflexivity; constructor.
    + cbn [app]. apply Hnext with (e0 := []); try reflexivity; constructor.
    + cbn [app]. apply Hnext with (e0 := []); try reflexivity; constructor.
Qed.

(** X25: [enterPhoneNumber] types the number exactly once, whether or not
    it could click a field to type into, and throws exactly when that
    typing throws; a click that fails only moves it to the next selector,
    the first click that works is the last one, and no key is pressed. *)
Theorem enterPhoneNumber_types_once pg h phone t r :
  Ui.ready pg = true ->
  Ui.enterPhoneNumber pg phone h = (t, r) ->
  exists failed clicked err,
    Ui.clicks t = failed ++ clicked
    /\ Forall failedEntry failed
    /\ (clicked = [] \/ exists s, clicked = [(s, None)])
    /\ Forall (fun c => In (fst c) Ui.phoneFieldSelectors) (Ui.clicks t)
    /\ Ui.typings t = [(phone, err)]
    /\ r = match err with None => Ok tt | Some e => Throw e end
    /\ Ui.presses t = [] /\ Ui.pushes t = [].
Proof.
  intros Hready. unfold Ui.enterPhoneNumber, Ui.pageGuard.
  unfold Ui.ubind at 1. rewrite Hready.
  unfold Ui.ubind at 1. unfold Ui.sleep at 1.
  unfold Ui.ubind at 1.
  match goal with |- context [Ui.phoneLoop pg ?l ?hh] =>
    destruct (phoneLoop_run pg l hh)
      as (tl & clicked & failed & -> & Ht & Hp & Hs & Hin & Hf & Hcl) end.
  unfold Ui.ubind, Ui.perform, Ui.sleep.
  match goal with |- context [Ui.act pg ?hh (Ui.TypeText phone)] =>
    destruct (Ui.act pg hh (Ui.TypeText phone)) as [e|] end;
    intros E; injection E as <- <-; project_run; rewrite Ht, Hp, Hs;
    cbn [app]; rewrite ?app_nil_r.
  - exists failed, (if clicked then skipn (List.length failed) (Ui.clicks tl) else []), (Some e).
    destruct Hcl as [[-> Hc]|[-> (s & Hc)]]; rewrite Hc in *.
    + rewrite app_nil_r. repeat split; auto.
    + rewrite skipn_app, skipn_all, Nat.sub_diag. cbn [app skipn].
      repeat split; eauto.
  - exists failed, (if clicked then skipn (List.length failed) (Ui.clicks tl) else []), None.
    destruct Hcl as [[-> Hc]|[-> (s & Hc)]]; rewrite Hc in *.
    + rewrite app_nil_r. repeat split; auto.
    + rewrite skipn_app, skipn_all, Nat.sub_diag. cbn [app skipn].
      repeat split; eauto.
Qed.

Lemma enterPhoneNumber_types_once_witness :
  Ui.clicks (fst (Ui.enterPhoneNumber (SamplePage.pageWith []) "+15551234567" [])) = []
  /\ exists err,
       Ui.typings (fst (Ui.enterPhoneNumber (SamplePage.pageWith []) "+15551234567" []))
       = [("+15551234567"%string, err)].
Proof.
  split; [reflexivity|].
  destruct (enterPhoneNumber_types_once (SamplePage.pageWith []) [] "+15551234567"
              _ _ eq_refl (surjective_pairing _))
    as (failed & clicked & err & _ & _ & _ & _ & Ht & _).
  exists err. exact Ht.
Defined.

(** A typing of [text] that broke off. *)
Definition brokenTyping (text : string) (x : string * option JsError) : Prop :=
  fst x = text /\ snd x <> None.

Lemma messageLoop_run pg text selectors : forall h,
  exists t returned failed,
    Ui.messageLoop pg text selectors h = (t, Ok returned)
    /\ Ui.presses t = [] /\ Ui.pushes t = []
    /\ Forall (brokenTyping text) failed
    /\ Ui.typings t = failed ++ (if returned then [(text, None)] else [])
    /\ (List.length (Ui.typings t) <= List.length selectors)%nat.
Proof.
  induction selectors as [|s rest IH]; intros h; cbn [Ui.messageLoop].
  - exists [], false, []. repeat split; auto.
  - unfold Ui.ubind at 1. unfold Ui.ucatch, Ui.ubind, Ui.waitForSelector, Ui.query,
      Ui.isVisible, Ui.perform, Ui.sleep, Ui.uret.
    assert (Hnext : forall t0 e0,
      Ui.presses t0 = [] -> Ui.pushes t0 = [] ->
      Ui.typings t0 = e0 -> Forall (brokenTyping text) e0 -> (List.length e0 <= 1)%nat ->
      exists t returned failed,
        (let (t', r) := Ui.messageLoop pg text rest (h ++ t0) in (t0 ++ t', r))
        = (t, Ok returned)
        /\ Ui.presses t = [] /\ Ui.pushes t = []
        /\ Forall (brokenTyping text) failed
        /\ Ui.typings t = failed ++ (if returned then [(text, None)] else [])
        /\ (List.length (Ui.typings t) <= List.length (s :: rest))%nat).
    { intros t0 e0 Hp Hs Ht Hf Hlen.
      destruct (IH (h ++ t0)) as (t' & returned & failed & -> & Hp' & Hs' & Hf' & Ht' & Hlen').
      exists (t0 ++ t'), returned, (e0 ++ failed). split; [reflexivity|].
      rewrite typings_app, presses_app, pushes_app, Hp, Hs, Hp', Hs', Ht.
      repeat split.
      - apply Forall_app. now split.
      - rewrite Ht'. now rewrite app_assoc.
      - rewrite length_app. cbn [List.length]. lia. }
    destruct (Ui.found pg _ s) as [[|]|e].
    + destruct (Ui.visible pg _ s) as [[|]|e].
      * match goal with |- context [Ui.act pg ?hh (Ui.Click s)] =>
          destruct (Ui.act pg hh (Ui.Click s)) as [e|] end.
        -- cbn [app]. apply Hnext with (e0 := []); try reflexivity; [constructor|cbn; lia].
        -- match goal with |- context [Ui.act pg ?hh (Ui.TypeText text)] =>
             destruct (Ui.act pg hh (Ui.TypeText text)) as [e|] end.
           ++ cbn [app]. apply Hnext with (e0 := [(text, Some e)]); try reflexivity.
              constructor; [split; [reflexivity|discriminate]|constructor].
           ++ cbn [app]. eexists. exists true, []. split; [reflexivity|].
              repeat split; [constructor|cbn; lia].
      * cbn [app]. apply Hnext with (e0 := []); try reflexivity; [constructor|cbn; lia].
      * cbn [app]. apply Hnext with (e0 := []); try reflexivity; [constructor|cbn; lia].
    + cbn [app]. apply Hnext with (e0 := []); try reflexivity; [constructor|cbn; lia].
    + cbn [app]. apply Hnext with (e0 := []); try reflexivity; [constructor|cbn; lia].
Qed.

(** X26: when [enterMessageText] returns, the text has been typed to the
    end exactly once, by the last typing; before it there may be up to
    three typings of the same text that broke off (one per selector whose
    field was clicked), and the method does not clear what they left in the
    field.  When it throws, no typing came to its end, and the error is
    that of the Tab key or of the typing after it.  Nothing but the text is
    typed, no key but Tab is pressed. *)
Theorem enterMessageText_types_text pg h text t r :
  Ui.ready pg = true ->
  Ui.enterMessageText pg text h = (t, r) ->
  exists failed last,
    Ui.typings t = failed ++ last
    /\ Forall (brokenTyping text) failed
    /\ (List.length failed <= 3)%nat
    /\ Ui.pushes t = []
    /\ match r with
       | Ok _ =>
           last = [(text, None)]
           /\ (Ui.presses t = [] \/ Ui.presses t = [("Tab"%string, None)])
       | Throw e =>
           (last = [] /\ Ui.presses t = [("Tab"%string, Some e)])
           \/ (last = [(text, Some e)] /\ Ui.presses t = [("Tab"%string, None)])
       end.
Proof.
  intros Hready. unfold Ui.enterMessageText, Ui.pageGuard.
  unfold Ui.ubind at 1. rewrite Hready.
  unfold Ui.ubind at 1. unfold Ui.sleep at 1.
  unfold Ui.ubind at 1.
  match goal with |- context [Ui.messageLoop pg text ?l ?hh] =>
    destruct (messageLoop_run pg text l hh)
      as (tl & returned & failed & -> & Hp & Hs & Hf & Ht & Hlen) end.
  change (List.length Ui.messageFieldSelectors) with 3%nat in Hlen.
  rewrite Ht in Hlen. rewrite length_app in Hlen.
  destruct returned.
  - unfold Ui.uret. intros E. injection E as <- <-. project_run.
    rewrite Hp, Hs, Ht. rewrite ?app_nil_r.
    exists failed, [(text, None)]. repeat split; auto. lia.
  - rewrite app_nil_r in Ht. cbn [List.length] in Hlen.
    unfold Ui.ubind, Ui.perform, Ui.sleep.
    match goal with |- context [Ui.act pg ?hh (Ui.Press ?k)] =>
      destruct (Ui.act pg hh (Ui.Press k)) as [e|] end.
    + intros E. injection E as <- <-. project_run.
      rewrite Hp, Hs, Ht. rewrite ?app_nil_r. cbn [app].
      exists failed, []. rewrite app_nil_r. repeat split; auto; try lia.
    + match goal with |- context [Ui.act pg ?hh (Ui.TypeText text)] =>
        destruct (Ui.act pg hh (Ui.TypeText text)) as [e|] end.
      * intros E. injection E as <- <-. project_run.
        rewrite Hp, Hs, Ht. rewrite ?app_nil_r. cbn [app].
        exists failed, [(text, Some e)]. repeat split; auto; try lia.
      * intros E. injection E as <- <-. project_run.
        rewrite Hp, Hs, Ht. rewrite ?app_nil_r. cbn [app].
        exists failed, [(text, None)]. repeat split; auto; try lia.
Qed.

Lemma enterMessageText_types_text_witness :
  Ui.typings
    (fst (Ui.enterMessageText
            (SamplePage.breaksAfter [SamplePage.messageInput] SamplePage.isClick
               SamplePage.isTyping SamplePage.timedOut) "hello" []))
  = [("hello"%string, Some SamplePage.timedOut); ("hello"%string, Some SamplePage.timedOut)]
  /\ Ui.pushes
       (fst (Ui.enterMessageText
               (SamplePage.breaksAfter [SamplePage.messageInput] SamplePage.isClick
                  SamplePage.isTyping SamplePage.timedOut) "hello" [])) = [].
Proof.
  split; [reflexivity|].
  destruct (enterMessageText_types_text
              (SamplePage.breaksAfter [SamplePage.messageInput] SamplePage.isClick
                 SamplePage.isTyping SamplePage.timedOut) [] "hello"
              _ _ eq_refl (surjective_pairing _))
    as (failed & last & _ & _ & _ & Hs & _).
  exact Hs.
Defined.

(** *** Pressing Enter *)

(** The screenshots that were asked of the page, with the error of each. *)
Definition screenshots (t : list Ui.Entry) : list (string * option JsError) :=
  flat_map (fun x => match x with (Ui.Screenshot path, r) => [(path, r)] | _ => [] end) t.

Lemma runSteps_stops before s after e :
  Forall (fun x => failure x = None) before ->
  failure s = Some e ->
  forall shots,
    OpenPhone.runSteps (before ++ s :: after) shots
    = (shots ++ flat_map pushed before ++ pushed s, Throw e).
Proof.
  intros Hbefore Hs. induction Hbefore as [|x before Hx _ IH]; intros shots;
    cbn [app OpenPhone.runSteps flat_map].
  - now rewrite Hs.
  - rewrite Hx, IH. now rewrite <- !app_assoc.
Qed.

(** X27: an attempt can be reported as failed after the message has gone
    out.  If Enter was pressed without error and [clickSendButton] throws
    all the same, what failed is the screenshot taken after Enter; only the
    screenshot taken before it has been pushed; [sendMessage] answers with a
    failure that carries the error of that screenshot, and the queue sends
    the message again whenever the name of the error counts as retryable
    and attempts are left. *)
Theorem enter_pressed_yet_attempt_failed b pg h to body m e :
  page_ready b = true ->
  Forall (fun x => failure x = None)
    [clickNewConversation b; enterPhoneNumber b; enterMessageText b; attachMediaFiles b] ->
  Ui.ready pg = true ->
  clickSendButton b = Ui.outcomeOf (Ui.clickSendButton pg h) ->
  In ("Enter"%string, None) (Ui.presses (fst (Ui.clickSendButton pg h))) ->
  snd (Ui.clickSendButton pg h) = Throw e ->
  exists beforeSend afterSend r,
    screenshots (fst (Ui.clickSendButton pg h))
    = [(beforeSend, None); (afterSend, Some e)]
    /\ pushed (clickSendButton b) = [beforeSend]
    /\ OpenPhone.sendMessage b to body m = Ok r
    /\ success r = false /\ status r = FAILED
    /\ error r = Some (err_message e)
    /\ errorCode r = Some (or_else (err_name e) "UNKNOWN_ERROR")
    /\ forall cfg k,
         k < maxRetries cfg ->
         isRetryableError (or_else (err_name e) "UNKNOWN_ERROR") = true ->
         Queue.shouldRetry cfg k r = true.
Proof.
  intros Hpage Hsteps Hready Hstep Henter Hthrow.
  assert (Hrun : exists beforeSend afterSend,
            Ui.clickSendButton pg h
            = ([(Ui.Sleep 1000, None); (Ui.Screenshot beforeSend, None);
                (Ui.Push beforeSend, None); (Ui.Press "Enter", None);
                (Ui.Sleep 500, None); (Ui.Screenshot afterSend, Some e)], Throw e)).
  { revert Henter Hthrow.
    unfold Ui.clickSendButton, Ui.pageGuard, Ui.ubind, Ui.sleep, Ui.screenshot,
      Ui.ubind, Ui.perform, Ui.push.
    rewrite Hready.
    match goal with |- context [Ui.act pg ?hh (Ui.Screenshot ?p)] =>
      destruct (Ui.act pg hh (Ui.Screenshot p)) as [e1|] end.
    { cbn. intros []. }
    match goal with |- context [Ui.act pg ?hh (Ui.Press ?k)] =>
      destruct (Ui.act pg hh (Ui.Press k)) as [e2|] end.
    { cbn. intros [H|[]]. discriminate. }
    match goal with |- context [Ui.act pg ?hh (Ui.Screenshot ?p)] =>
      destruct (Ui.act pg hh (Ui.Screenshot p)) as [e3|] end.
    - cbn. intros _ H. injection H as ->. eexists. eexists. reflexivity.
    - cbn. intros _ H. discriminate. }
  destruct Hrun as (beforeSend & afterSend & Hrun).
  rewrite Hrun in Hstep. unfold Ui.outcomeOf in Hstep. cbn in Hstep.
  assert (Hshape : exists before,
            uiSteps b m = before ++ [clickSendButton b]
            /\ Forall (fun x => failure x = None) before).
  { unfold uiSteps. inversion Hsteps as [|? ? H1 Hr1]; subst.
    inversion Hr1 as [|? ? H2 Hr2]; subst. inversion Hr2 as [|? ? H3 Hr3]; subst.
    inversion Hr3 as [|? ? H4 _]; subst.
    destruct m as [[|x l]|]; eexists; (split; [rewrite app_assoc; reflexivity|]);
      cbn [app]; repeat constructor; assumption. }
  destruct Hshape as (before & Hshape & Hbefore).
  assert (Hfail : failure (clickSendButton b) = Some e) by now rewrite Hstep.
  exists beforeSend, afterSend.
  eexists. split; [now rewrite Hrun|]. split; [now rewrite Hstep|].
  split.
  { rewrite (sendMessage_open b to body m Hpage), Hshape.
    rewrite (runSteps_stops before (clickSendButton b) [] e Hbefore Hfail). reflexivity. }
  cbn [success status error errorCode failureResult].
  repeat split.
  intros cfg k Hk Hretry. apply shouldRetry_spec. split; [assumption|].
  eexists. split; [reflexivity|assumption].
Qed.

Lemma enter_pressed_yet_attempt_failed_witness :
  exists r,
    OpenPhone.sendMessage
      {| page_ready := true;
         clickNewConversation := Sample.okStep; enterPhoneNumber := Sample.okStep;
         enterMessageText := Sample.okStep; attachMediaFiles := Sample.okStep;
         clickSendButton :=
           Ui.outcomeOf
             (Ui.clickSendButton
                (SamplePage.breaksAfter [] SamplePage.isEnter SamplePage.isScreenshot
                   SamplePage.timedOut) []);
         verify_screenshot := None;
         query := fun _ => QueryNull;
         error_screenshot_path := "error.png";
         error_screenshot := None;
         elapsed := 4100 |} "+15551234567" "hello" None = Ok r
    /\ success r = false
    /\ errorCode r = Some "TimeoutError"%string
    /\ Queue.shouldRetry Sample.defaults 1 r = true.
Proof.
  destruct (enter_pressed_yet_attempt_failed
              {| page_ready := true;
                 clickNewConversation := Sample.okStep; enterPhoneNumber := Sample.okStep;
                 enterMessageText := Sample.okStep; attachMediaFiles := Sample.okStep;
                 clickSendButton :=
                   Ui.outcomeOf
                     (Ui.clickSendButton
                        (SamplePage.breaksAfter [] SamplePage.isEnter SamplePage.isScreenshot
                           SamplePage.timedOut) []);
                 verify_screenshot := None;
                 query := fun _ => QueryNull;
                 error_screenshot_path := "error.png";
                 error_screenshot := None;
                 elapsed := 4100 |}
              (SamplePage.breaksAfter [] SamplePage.isEnter SamplePage.isScreenshot
                 SamplePage.timedOut) [] "+15551234567"%string "hello"%string None
              SamplePage.timedOut)
    as (b1 & b2 & r & _ & _ & Hr & Hs & _ & _ & Hc & Hretry).
  - reflexivity.
  - repeat constructor.
  - reflexivity.
  - reflexivity.
  - vm_compute. auto.
  - reflexivity.
  - exists r. split; [exact Hr|]. split; [exact Hs|]. split; [exact Hc|].
    apply Hretry; [vm_compute; reflexivity|vm_compute; reflexivity].
Defined.

(** ** services/openphone.service.ts: the login test and closing *)

Module Session.

(** [checkNeedsLogin()]: [url] is [page.url()], [loginButton] and
    [emailInput] tell whether the two queries find an element. *)
Definition checkNeedsLogin (page_open : bool) (url : string)
  (loginButton emailInput : Res bool) : Res bool :=
  if negb page_open then Throw (newError "Page not initialized")
  else
    rcatch
      (if includes "/login" url || includes "/signin" url then Ok true
       else if includes "/inbox" url || includes "/messages" url then Ok false
       else
         rbind loginButton (fun button =>
         rbind emailInput (fun input =>
         Ok (button || input))))
      (fun _ => Ok true).

(** The three handles of the driver; [true] is not null. *)
Record Handles : Type := mkHandles {
  h_page : bool;
  h_context : bool;
  h_browser : bool
}.

Inductive Part : Type := ThePage | TheContext | TheBrowser.

(** [close()]: the handles afterwards and the [close()] calls made, in
    order; [closeThrows] tells which of them throw. *)
Definition close (closeThrows : Part -> bool) (d : Handles) : Handles * list Part :=
  let afterPage :=
    if h_page d then
      if closeThrows ThePage then (d, [ThePage], false)
      else (mkHandles false (h_context d) (h_browser d), [ThePage], true)
    else (d, [], true) in
  match afterPage with
  | (d1, calls1, false) => (d1, calls1)
  | (d1, calls1, true) =>
      let afterContext :=
        if h_context d1 then
          if closeThrows TheContext then (d1, calls1 ++ [TheContext], false)
          else (mkHandles (h_page d1) false (h_browser d1), calls1 ++ [TheContext], true)
        else (d1, calls1, true) in
      match afterContext with
      | (d2, calls2, false) => (d2, calls2)
      | (d2, calls2, true) =>
          if h_browser d2 then
            if closeThrows TheBrowser then (d2, calls2 ++ [TheBrowser])
            else (mkHandles (h_page d2) (h_context d2) false, calls2 ++ [TheBrowser])
          else (d2, calls2)
      end
  end.

(** [isInitialized()]. *)
Definition isInitialized (d : Handles) : bool :=
  h_browser d && h_context d && h_page d.

End Session.

(** X28: [checkNeedsLogin] errs on the side of logging in.  With the page
    open it never throws, and it answers that no login is needed only when
    the URL has neither [/login] nor [/signin] and either the URL has
    [/inbox] or [/messages] or both queries answered that there is no such
    element; a URL with [/login] anywhere in it asks for a login whatever
    else it contains and whatever is on the page. *)
Theorem checkNeedsLogin_defaults_to_login url loginButton emailInput :
  (exists answer, Session.checkNeedsLogin true url loginButton emailInput = Ok answer)
  /\ (Session.checkNeedsLogin true url loginButton emailInput = Ok false <->
      includes "/login" url = false /\ includes "/signin" url = false
      /\ (includes "/inbox" url = true \/ includes "/messages" url = true
          \/ (loginButton = Ok false /\ emailInput = Ok false)))
  /\ (forall before rest,
        Session.checkNeedsLogin true (before +++ "/login" +++ rest)
          loginButton emailInput = Ok true).
Proof.
  unfold Session.checkNeedsLogin. cbn [negb]. split; [|split].
  - destruct (includes "/login" url || includes "/signin" url); [now eexists|].
    destruct (includes "/inbox" url || includes "/messages" url); [now eexists|].
    destruct loginButton as [b|e]; [|now eexists].
    destruct emailInput as [i|e]; now eexists.
  - destruct (includes "/login" url), (includes "/signin" url); cbn [orb rcatch];
      try (split; [discriminate|intros (H1 & H2 & _); discriminate]).
    destruct (includes "/inbox" url), (includes "/messages" url); cbn [orb rcatch];
      try (split; [intros _; repeat split; auto|reflexivity]).
    destruct loginButton as [[|]|e], emailInput as [[|]|e']; cbn [rbind rcatch orb];
      split; try discriminate; try (intros (_ & _ & [H|[H|[H1 H2]]]); discriminate);
      try (intros _; repeat split; auto); reflexivity.
  - intros before rest.
    assert (H : includes "/login" (before +++ "/login" +++ rest) = true).
    { apply includes_append_l. apply (includes_append_r "/login" "/login"). reflexivity. }
    rewrite H. reflexivity.
Qed.

(** X29: [close] swallows the error of a [close()] that throws and stops
    there.  When the page fails to close, no other [close()] is called,
    the context and the browser are left open and the three handles are
    kept; the driver says that it is initialized after [close] exactly
    when it was so before and closing the page threw.  When nothing throws,
    every open handle is closed once, in the order page, context, browser,
    and all three are null afterwards. *)
Theorem close_stops_at_first_failure closeThrows d :
  let (d', calls) := Session.close closeThrows d in
  (Session.isInitialized d' = true <->
   Session.isInitialized d = true /\ closeThrows Session.ThePage = true)
  /\ (Session.h_page d = true -> closeThrows Session.ThePage = true ->
      d' = d /\ calls = [Session.ThePage])
  /\ ((forall part, closeThrows part = false) ->
      d' = Session.mkHandles false false false
      /\ calls = (if Session.h_page d then [Session.ThePage] else [])
                 ++ (if Session.h_context d then [Session.TheContext] else [])
                 ++ (if Session.h_browser d then [Session.TheBrowser] else [])).
Proof.
  destruct d as [[|] [|] [|]];
    unfold Session.close, Session.isInitialized;
    cbn [Session.h_page Session.h_context Session.h_browser];
    destruct (closeThrows Session.ThePage) eqn:Hp,
             (closeThrows Session.TheContext) eqn:Hc,
             (closeThrows Session.TheBrowser) eqn:Hb;
    cbn [app andb];
    (split; [split; [try discriminate; auto|intros [H1 H2]; try discriminate; auto]|]);
    (split; [intros H1 H2; try discriminate; auto|]);
    intros Hall;
    try (rewrite Hall in Hp; discriminate);
    try (rewrite Hall in Hc; discriminate);
    try (rewrite Hall in Hb; discriminate);
    auto.
Qed.

(** ** config/index.ts *)

Module Config.

(** The settings that [validateConfig] reads. *)
Record Settings : Type := mkSettings {
  openphone_email : string;
  openphone_password : string;
  supabase_url : string;
  supabase_key : string;
  n8n_webhookUrl : string
}.

Definition newline : string := String (ascii_of_nat 10) EmptyString.

(** [errors.join('\n')]. *)
Fixpoint join (errors : list string) : string :=
  match errors with
  | [] => EmptyString
  | [e] => e
  | e :: rest => e +++ newline +++ join rest
  end.

(** [validateConfig()]; the value tells whether the warning about the
    missing webhook URL was printed. *)
Definition validateConfig (config : Settings) : Res bool :=
  let errors :=
    (if negb (truthy (openphone_email config)) then ["OPENPHONE_EMAIL is required"%string] else [])
    ++ (if negb (truthy (openphone_password config))
        then ["OPENPHONE_PASSWORD is required"%string] else [])
    ++ (if negb (truthy (supabase_url config)) then ["SUPABASE_URL is required"%string] else [])
    ++ (if negb (truthy (supabase_key config)) then ["SUPABASE_KEY is required"%string] else [])
  in
  if (0 <? List.length errors)%nat then
    Throw (newError ("Configuration errors:" +++ newline +++ join errors))
  else Ok (negb (truthy (n8n_webhookUrl config))).

End Config.

(** The four settings that must be present, under the names of their
    environment variables. *)
Definition requiredSettings (config : Config.Settings) : list (string * string) :=
  [ ("OPENPHONE_EMAIL", Config.openphone_email config);
    ("OPENPHONE_PASSWORD", Config.openphone_password config);
    ("SUPABASE_URL", Config.supabase_url config);
    ("SUPABASE_KEY", Config.supabase_key config) ]%string.

(** X30: [validateConfig] accepts a configuration exactly when the two
    OpenPhone credentials and the two Supabase settings are not empty; a
    missing webhook URL only gives a warning.  When it throws, the message
    names every missing setting, not only the first. *)
Theorem validateConfig_reports_every_missing config :
  ((forall name value, In (name, value) (requiredSettings config) -> truthy value = true) <->
   Config.validateConfig config = Ok (negb (truthy (Config.n8n_webhookUrl config))))
  /\ (forall name value,
        In (name, value) (requiredSettings config) -> truthy value = false ->
        exists e,
          Config.validateConfig config = Throw e
          /\ includes (name +++ " is required") (err_message e) = true).
Proof.
  unfold Config.validateConfig, requiredSettings. split.
  - split.
    + intros H.
      rewrite (H _ _ (or_introl eq_refl)), (H _ _ (or_intror (or_introl eq_refl))),
        (H _ _ (or_intror (or_intror (or_introl eq_refl)))),
        (H _ _ (or_intror (or_intror (or_intror (or_introl eq_refl))))).
      reflexivity.
    + destruct (truthy (Config.openphone_email config)) eqn:H1,
               (truthy (Config.openphone_password config)) eqn:H2,
               (truthy (Config.supabase_url config)) eqn:H3,
               (truthy (Config.supabase_key config)) eqn:H4;
        cbn [negb app List.length Nat.ltb Nat.leb]; try discriminate.
      intros _ name value [E|[E|[E|[E|[]]]]]; injection E as <- <-; assumption.
  - intros name value [E|[E|[E|[E|[]]]]] Hv; injection E as <- <-; rewrite Hv;
      repeat match goal with
             | |- context [truthy ?x] => destruct (truthy x)
             end;
      eexists; (split; [reflexivity|vm_compute; reflexivity]).
Qed.
